(** * word-addin-dev: a shallow embedding of [word-addin-dev.js]

    The script is a linear orchestrator: it parses its command line,
    validates a manifest, optionally clears caches and sideloads the
    manifest, reclaims a port (or kills the process named by a pid file),
    starts a detached server, polls a health URL and restarts the host
    application.

    Strings are sequences of code units (here restricted to 0..255), maps
    with dynamic keys are [gmap]s, effectful functions live in a small
    state-and-exception monad over an explicit model of the operating
    system, and every loop of the source is a [Fixpoint].  Numbers are
    doubles, the result of [Number(...)] being rounded to the nearest one;
    paths are joined, resolved and split as Node's [path] does on a POSIX
    host; the file system is a map from paths to files and directories. *)

From Stdlib Require Import String Ascii ZArith QArith List Lia Bool DecimalString.
From Stdlib Require Import DecimalPos Qcanon Qround.
From stdpp Require Import base option gmap strings list.

Local Open Scope Z_scope.
Local Open Scope nat_scope.

(* ===================================================================== *)
(** ** JavaScript strings *)
(* ===================================================================== *)

Module Js.

Definition dquote : ascii := "034"%char.
Definition amp : ascii := "&"%char.

(** [s.startsWith(p)] *)
Fixpoint startsWith (s p : string) {struct p} : bool :=
  match p, s with
  | EmptyString, _ => true
  | String a p', String b s' => Ascii.eqb a b && startsWith s' p'
  | String _ _, EmptyString => false
  end.

(** [s.includes(needle)]: some suffix of [s] starts with [needle]. *)
Fixpoint includes (s needle : string) : bool :=
  startsWith s needle ||
  match s with
  | EmptyString => false
  | String _ s' => includes s' needle
  end.

(** [s.slice(i)] for [0 <= i]. *)
Fixpoint drop (i : nat) (s : string) : string :=
  match i, s with
  | O, _ => s
  | S i', String _ s' => drop i' s'
  | S _, EmptyString => EmptyString
  end.

(** [s.slice(0, n)]. *)
Fixpoint take (n : nat) (s : string) : string :=
  match n, s with
  | S n', String c s' => String c (take n' s')
  | _, _ => EmptyString
  end.

(** [parts.join(sep)]. *)
Fixpoint join (sep : string) (parts : list string) : string :=
  match parts with
  | [] => EmptyString
  | [p] => p
  | p :: rest => p +:+ sep +:+ join sep rest
  end.

Definition is_nonempty (s : string) : bool :=
  match s with EmptyString => false | String _ _ => true end.

(** White space and line terminators of [String.prototype.trim] in the
    range 0..255: TAB, LF, VT, FF, CR, SP and NBSP. *)
Definition is_space (c : ascii) : bool :=
  let n := nat_of_ascii c in
  (n =? 9) || (n =? 10) || (n =? 11) || (n =? 12) || (n =? 13) ||
  (n =? 32) || (n =? 160).

Fixpoint trimStart (s : string) : string :=
  match s with
  | EmptyString => EmptyString
  | String c s' => if is_space c then trimStart s' else s
  end.

Fixpoint trimEnd (s : string) : string :=
  match s with
  | EmptyString => EmptyString
  | String c s' =>
      match trimEnd s' with
      | EmptyString => if is_space c then EmptyString else String c EmptyString
      | t => String c t
      end
  end.

(** [s.trim()] *)
Definition trim (s : string) : string := trimEnd (trimStart s).

(** [s.toLowerCase()] on code units 0..255: A-Z and the Latin-1 capitals. *)
Definition lower_char (c : ascii) : ascii :=
  let n := nat_of_ascii c in
  if ((65 <=? n) && (n <=? 90)) ||
     ((192 <=? n) && (n <=? 222) && negb (n =? 215))
  then ascii_of_nat (n + 32) else c.

Fixpoint toLowerCase (s : string) : string :=
  match s with
  | EmptyString => EmptyString
  | String c s' => String (lower_char c) (toLowerCase s')
  end.

Definition cr : ascii := "013"%char.
Definition lf : ascii := "010"%char.

(** [s.split(/\r?\n/)]: a line ends at LF, or at CR directly followed by
    LF. *)
Fixpoint split_lines (s : string) : list string :=
  match s with
  | EmptyString => [EmptyString]
  | String c s' =>
      if Ascii.eqb c lf then EmptyString :: split_lines s'
      else
        let keep :=
          match split_lines s' with
          | l :: ls => String c l :: ls
          | [] => [String c EmptyString]
          end in
        if Ascii.eqb c cr then
          match s' with
          | String c' s'' =>
              if Ascii.eqb c' lf then EmptyString :: split_lines s'' else keep
          | EmptyString => keep
          end
        else keep
  end.

(** [n.toString()] for an integer. *)
Definition Z_toString (n : Z) : string :=
  DecimalString.NilZero.string_of_int (Z.to_int n).

End Js.

(* ===================================================================== *)
(** ** Validator: [hasUnescapedAmp] and [validateManifestText] *)
(* ===================================================================== *)

Module Validator.
Import Js.

(** The five escapes tested at lines 50-54. *)
Definition known_entity (tail : string) : bool :=
  startsWith tail "&amp;" ||
  startsWith tail "&lt;" ||
  startsWith tail "&gt;" ||
  startsWith tail "&quot;" ||
  startsWith tail "&apos;".

(** The [for] loop of [hasUnescapedAmp], on [tail = value.slice(i)]:
    [continue] moves to [i + 1], that is to the tail's tail. *)
Fixpoint hasUnescapedAmp (tail : string) : bool :=
  match tail with
  | EmptyString => false
  | String c rest =>
      if Ascii.eqb c amp then
        if known_entity tail then hasUnescapedAmp rest else true
      else hasUnescapedAmp rest
  end.

(** *** The regular expression of line 69

    The pattern is the literal [DefaultValue=], a double quote, a greedy
    run of characters other than the double quote (the captured group)
    and a closing double quote; it carries the global flag. *)

Definition attr_open : string := "DefaultValue=" +:+ String dquote EmptyString.

(** The group and the closing quote at the head of [s]: the characters
    before the first double quote, when there is one. *)
Fixpoint until_quote (s : string) : option string :=
  match s with
  | EmptyString => None
  | String c s' =>
      if Ascii.eqb c dquote then Some EmptyString
      else match until_quote s' with
           | Some v => Some (String c v)
           | None => None
           end
  end.

(** The whole pattern anchored at the head of [s]: the captured group. *)
Definition match_here (s : string) : option string :=
  if startsWith s attr_open
  then until_quote (drop (String.length attr_open) s)
  else None.

(** Length of a match whose group is [v]. *)
Definition match_length (v : string) : nat :=
  String.length attr_open + String.length v + 1.

(** The engine tries the start positions [i], [i+1], ... in turn; [s] is
    the text from position [i] on.  A success yields the group and the
    new [lastIndex]. *)
Fixpoint exec_at (s : string) (i : nat) : option (string * nat) :=
  match match_here s with
  | Some v => Some (v, i + match_length v)
  | None =>
      match s with
      | EmptyString => None
      | String _ s' => exec_at s' (S i)
      end
  end.

(** [attrRegex.exec(xmlText)] with the regex's [lastIndex] made explicit.
    [None] is [null] (and resets [lastIndex] to 0). *)
Definition attrRegex_exec (xmlText : string) (lastIndex : nat)
  : option (string * nat) :=
  if String.length xmlText <? lastIndex then None
  else exec_at (drop lastIndex xmlText) lastIndex.

Definition amp_issue (v : string) : string :=
  "unescaped & in DefaultValue: " +:+ take 120 v.

(** The [while] loop of lines 71-76.  The state is the regex's
    [lastIndex], the [issues] array and a ghost counter [execs] of the
    calls of [exec] made so far.  [None]: out of fuel. *)
Fixpoint attr_loop (fuel : nat) (xmlText : string) (lastIndex : nat)
         (issues : list string) (execs : nat) : option (list string * nat) :=
  match fuel with
  | O => None
  | S fuel' =>
      match attrRegex_exec xmlText lastIndex with
      | None => Some (issues, S execs)
      | Some (v, lastIndex') =>
          if hasUnescapedAmp v
          then Some (issues ++ [amp_issue v], S execs)
          else attr_loop fuel' xmlText lastIndex' issues (S execs)
      end
  end.

(** Lines 65-68: the three substring checks, each one pushing its own
    message. *)
Definition required_checks (xmlText : string) : list string :=
  let issues := [] in
  let issues := if negb (includes xmlText "<OfficeApp")
                then issues ++ ["missing <OfficeApp>"] else issues in
  let issues := if negb (includes xmlText "<Id>")
                then issues ++ ["missing <Id>"] else issues in
  let issues := if negb (includes xmlText "SourceLocation")
                then issues ++ ["missing SourceLocation"] else issues in
  issues.

(** [validateManifestText] with the ghost count of regex executions. *)
Definition validateManifestText_run (xmlText : string)
  : option (list string * nat) :=
  attr_loop (S (String.length xmlText)) xmlText 0 (required_checks xmlText) 0.

(** The loop always ends within the fuel it is given
    ([validateManifestText_run_total] below), so the second branch is never
    taken. *)
Definition validateManifestText (xmlText : string) : list string :=
  match validateManifestText_run xmlText with
  | Some (issues, _) => issues
  | None => []
  end.

(** All the groups the global regex matches, in order (what repeated
    [exec] calls yield until [null]). *)
Fixpoint matches_from (fuel : nat) (xmlText : string) (lastIndex : nat)
  : list string :=
  match fuel with
  | O => []
  | S fuel' =>
      match attrRegex_exec xmlText lastIndex with
      | None => []
      | Some (v, lastIndex') => v :: matches_from fuel' xmlText lastIndex'
      end
  end.

Definition defaultValues (xmlText : string) : list string :=
  matches_from (S (String.length xmlText)) xmlText 0.

(** A bare ampersand: an [&] whose suffix starts with none of the five
    escapes. *)
Definition bare_amp (v : string) : Prop :=
  exists pre tail,
    v = pre +:+ String amp tail /\ known_entity (String amp tail) = false.

Definition amp_related (issue : string) : bool :=
  startsWith issue "unescaped &".

End Validator.

(* ===================================================================== *)
(** ** JavaScript numbers: [Number(...)], [Number.isFinite], truthiness *)
(* ===================================================================== *)

Module JsNumber.
Import Js.

(** A Number is NaN, an infinity, or a finite value: a rational in
    lowest terms that a double represents.  The sign of zero is
    dropped. *)
Inductive jsnum : Type :=
| NaN
| Inf (negative : bool)
| Fin (q : Q).

(** Values at or above [2^1024 - 2^970] round to an infinity, values at or
    below [2^-1075] round to zero (round to nearest, ties to even). *)
Definition overflow_bound : Q := inject_Z (2 ^ 1024 - 2 ^ 970).
Definition underflow_bound : Q := Qmake 1 (2 ^ 1075).

Definition pow2 (e : Z) : Q :=
  if (0 <=? e)%Z then inject_Z (2 ^ e) else Qmake 1 (Z.to_pos (2 ^ (- e))).

(** The exponent of a positive value [v]: the [e] with
    [2^e <= v < 2^(e+1)].  The difference of the two logarithms is [e] or
    [e + 1]. *)
Definition exponent_of (v : Q) : Z :=
  let e := (Z.log2 (Qnum v) - Z.log2 (Zpos (Qden v)))%Z in
  if Qle_bool (pow2 e) v then e else (e - 1)%Z.

(** The nearest integer, a tie going to the even one. *)
Definition round_half_even (v : Q) : Z :=
  let f := Qfloor v in
  match Qcompare (Qminus v (inject_Z f)) (Qmake 1 2) with
  | Lt => f
  | Gt => (f + 1)%Z
  | Eq => if Z.even f then f else (f + 1)%Z
  end.

(** The double nearest to a positive value below the overflow bound: a
    significand of 53 bits, and a multiple of [2^-1074] for the smallest
    values. *)
Definition nearest (v : Q) : Q :=
  let unit := Z.max (exponent_of v - 52) (-1074) in
  Qmult (inject_Z (round_half_even (Qmult v (pow2 (- unit))))) (pow2 unit).

(** The Number of magnitude [v], which is not negative, and the given
    sign. *)
Definition round_magnitude (negative : bool) (v : Q) : jsnum :=
  if Qle_bool overflow_bound v then Inf negative
  else if Qle_bool v underflow_bound then Fin 0
  else
    let n := nearest v in
    Fin (Qred (if negative then Qopp n else n)).

(** The Number nearest to an integer; it is the integer itself up to
    [2^53]. *)
Definition of_Z (z : Z) : jsnum :=
  match z with
  | Z0 => Fin 0
  | Zpos _ => round_magnitude false (inject_Z z)
  | Zneg _ => round_magnitude true (inject_Z (- z))
  end.

Definition digit_of (base : N) (c : ascii) : option N :=
  let n := N_of_ascii c in
  let d :=
    if ((48 <=? n) && (n <=? 57))%N then Some (n - 48)%N
    else if ((97 <=? n) && (n <=? 102))%N then Some (n - 87)%N
    else if ((65 <=? n) && (n <=? 70))%N then Some (n - 55)%N
    else None in
  match d with
  | Some v => if (v <? base)%N then Some v else None
  | None => None
  end.

(** The longest prefix of digits in [base], as (value so far, number of
    digits, rest). *)
Fixpoint digits (base : N) (s : string) (acc : N) (count : nat)
  : N * nat * string :=
  match s with
  | EmptyString => (acc, count, s)
  | String c s' =>
      match digit_of base c with
      | Some d => digits base s' (acc * base + d)%N (S count)
      | None => (acc, count, s)
      end
  end.

(** [0x], [0o], [0b] literals: at least one digit, nothing after. *)
Definition parse_radix (base : N) (body : string) : jsnum :=
  match digits base body 0%N 0 with
  | (v, S _, EmptyString) => round_magnitude false (inject_Z (Z.of_N v))
  | _ => NaN
  end.

Definition pow10 (e : Z) : Q :=
  if (0 <=? e)%Z then inject_Z (10 ^ e) else Qmake 1 (Z.to_pos (10 ^ (- e))).

(** The exponent part: [e] or [E], an optional sign, at least one digit,
    nothing after.  No exponent part is exponent 0. *)
Definition parse_exponent (s : string) : option Z :=
  match s with
  | EmptyString => Some 0%Z
  | String c s' =>
      if Ascii.eqb c "e"%char || Ascii.eqb c "E"%char then
        let '(negative, body) :=
          match s' with
          | String sg r =>
              if Ascii.eqb sg "-"%char then (true, r)
              else if Ascii.eqb sg "+"%char then (false, r)
              else (false, s')
          | EmptyString => (false, s')
          end in
        match digits 10 body 0%N 0 with
        | (v, S _, EmptyString) =>
            Some (if negative then (- Z.of_N v)%Z else Z.of_N v)
        | _ => None
        end
      else None
  end.

(** StrUnsignedDecimalLiteral without [Infinity]: digits, an optional
    point and digits (a digit on at least one side), an optional exponent.
    The exact value, which [StringToNumber] then rounds. *)
Definition parse_unsigned_decimal (s : string) : option Q :=
  let '(int_value, int_count, r1) := digits 10 s 0%N 0 in
  let '(mantissa, frac_count, r2) :=
    match r1 with
    | String c r =>
        if Ascii.eqb c "."%char then
          let '(m, total, r') := digits 10 r int_value int_count in
          (m, total - int_count, r')
        else (int_value, 0, r1)
    | EmptyString => (int_value, 0, r1)
    end in
  if (int_count + frac_count =? 0)%nat then None
  else
    match parse_exponent r2 with
    | Some e =>
        Some (Qmult (inject_Z (Z.of_N mantissa))
                    (pow10 (e - Z.of_nat frac_count)))
    | None => None
    end.

(** [Number(s)] for a string [s] (StringToNumber). *)
Definition StringToNumber (s : string) : jsnum :=
  let t := trim s in
  match t with
  | EmptyString => Fin 0
  | String c r =>
      if startsWith t "0x" || startsWith t "0X" then parse_radix 16 (drop 2 t)
      else if startsWith t "0o" || startsWith t "0O" then parse_radix 8 (drop 2 t)
      else if startsWith t "0b" || startsWith t "0B" then parse_radix 2 (drop 2 t)
      else
        let '(negative, u) :=
          if Ascii.eqb c "-"%char then (true, r)
          else if Ascii.eqb c "+"%char then (false, r)
          else (false, t) in
        if String.eqb u "Infinity" then Inf negative
        else match parse_unsigned_decimal u with
             | Some v => round_magnitude negative v
             | None => NaN
             end
  end.

(** [Number.isFinite(x)] *)
Definition isFinite (x : jsnum) : bool :=
  match x with Fin _ => true | _ => false end.

(** [Boolean(x)] for a Number: false for NaN and zero. *)
Definition truthy (x : jsnum) : bool :=
  match x with
  | NaN => false
  | Inf _ => true
  | Fin q => negb (Qeq_bool q 0)
  end.

(** [String(x)]: NaN, the infinities and the integers up to [2^53] are
    written out; the digits of any other value, the shortest that read
    back as the value, come from [other]. *)
Definition toString (other : Q -> string) (x : jsnum) : string :=
  match x with
  | NaN => "NaN"
  | Inf false => "Infinity"
  | Inf true => "-Infinity"
  | Fin q =>
      let r := Qred q in
      if (Zpos (Qden r) =? 1)%Z && (Z.abs (Qnum r) <=? 2 ^ 53)%Z
      then Z_toString (Qnum r) else other q
  end.

End JsNumber.

(* ===================================================================== *)
(** ** Values, the operating system and the effect monad *)
(* ===================================================================== *)

Module Os.
Import Js JsNumber.

(** The values the parsed command line holds: a string, [true], or the
    array of positional arguments. *)
Inductive value : Type :=
| VStr (s : string)
| VTrue
| VList (l : list string).

(** [Boolean(v)] *)
Definition value_truthy (v : value) : bool :=
  match v with
  | VStr s => is_nonempty s
  | VTrue => true
  | VList _ => true
  end.

(** [String(v)] *)
Definition value_toString (v : value) : string :=
  match v with
  | VStr s => s
  | VTrue => "true"
  | VList l => join "," l
  end.

(** [o || d] on an optional property *)
Definition value_or (o : option value) (d : value) : value :=
  match o with
  | Some v => if value_truthy v then v else d
  | None => d
  end.

Definition option_truthy (o : option value) : bool :=
  match o with
  | Some v => value_truthy v
  | None => false
  end.

Inductive node : Type :=
| File (content : string)
| Dir.

Inductive fetch_result : Type :=
| Resolves (ok : bool)
| Rejects.

(** Every interaction with the outside, in the order it happens. *)
Inductive event : Type :=
| Access (p : string)
| ReadFile (p : string)
| Mkdir (p : string)
| OpenAppend (p : string)
| WriteFile (p data : string)
| CopyFile (src dst : string)
| ExecFile (file : string) (args : list string)
| Spawn (command logPath : string)
| Kill (pid : jsnum)
| Fetch (url : string)
| Sleep (ms : Z)
| Stdout (s : string)
| Stderr (s : string).

Record World : Type := mkWorld {
  fs : gmap string node;
  log : list event;
}.

(** What the script cannot decide: the host, and the outcome of each call
    that leaves the process.  A reply is indexed by the position of the
    call in the log; a request's reply by the number of requests issued
    before it. *)
Record Env : Type := mkEnv {
  platform : string;
  env_HOME : option string;
  (** the current directory; [None]: it is gone, [process.cwd()] throws *)
  cwd : option string;
  io_fails : nat -> bool;
  exec_reply : nat -> string -> list string -> option string;
  kill_throws : nat -> jsnum -> bool;
  (** [None]: [spawn] throws; [Some None]: the child could not be created,
      it has no pid and its error event is emitted on the next tick *)
  spawn_reply : nat -> string -> option (option Z);
  fetch_reply : nat -> string -> fetch_result;
  num_repr : Q -> string;
  (** for a write that fails: how many code units reached the file, or
      [None] when the file could not even be opened *)
  written : nat -> option nat;
}.

(** What can be thrown.  An [Error] is one the script makes, with its
    message.  A [TypeError] of the language carries the message of V8; one
    of Node's argument validation carries a short text in place of Node's
    message.  A system error carries its code in place of the message Node
    builds around it.  [Uncaught] is an error thrown outside of every
    function of the script, from the event loop: no [catch] of the script
    sees it and Node ends the process with exit code 1. *)
Inductive exn : Type :=
| Error (message : string)
| TypeError (message : string)
| SysError (message : string)
| Uncaught (message : string).

Definition exn_message (e : exn) : string :=
  match e with
  | Error m | TypeError m | SysError m | Uncaught m => m
  end.

Inductive result (A : Type) : Type :=
| Ok (a : A)
| Throw (e : exn).
Arguments Ok {A} a.
Arguments Throw {A} e.

(** A computation runs from a state to a result and a state; what was done
    before an exception stays done. *)
Definition St (S A : Type) : Type := S -> result A * S.

Definition ret {S A} (a : A) : St S A := fun w => (Ok a, w).

Definition bind {S A B} (m : St S A) (k : A -> St S B) : St S B :=
  fun w =>
    match m w with
    | (Ok a, w') => k a w'
    | (Throw e, w') => (Throw e, w')
    end.

Definition throw {S A} (e : exn) : St S A := fun w => (Throw e, w).

(** [try { m } catch (err) { h }] *)
Definition try_catch {S A} (m : St S A) (h : St S A) : St S A :=
  fun w =>
    match m w with
    | (Ok a, w') => (Ok a, w')
    | (Throw _, w') => h w'
    end.

Definition of_result {S A} (r : result A) : St S A := fun w => (r, w).

(** The functions of the script act on the world. *)
Abbreviation M := (St World).

Declare Scope os_scope.
Delimit Scope os_scope with os.
Notation "x <- m ;; k" := (bind m (fun x => k))
  (at level 100, m at next level, right associativity) : os_scope.
Notation "m ;; k" := (bind m (fun _ => k))
  (at level 100, right associativity) : os_scope.
Local Open Scope os_scope.

(** [xs.forEach(f)] *)
Fixpoint forEach {S A} (f : A -> St S unit) (xs : list A) : St S unit :=
  match xs with
  | [] => ret tt
  | x :: rest => f x ;; forEach f rest
  end.

Fixpoint count_fetches (l : list event) : nat :=
  match l with
  | [] => 0
  | Fetch _ :: rest => S (count_fetches rest)
  | _ :: rest => count_fetches rest
  end.

Definition kills (l : list event) : list jsnum :=
  omap (fun ev => match ev with Kill pid => Some pid | _ => None end) l.

Definition fetches (l : list event) : list string :=
  omap (fun ev => match ev with Fetch u => Some u | _ => None end) l.

Definition sleeps (l : list event) : list Z :=
  omap (fun ev => match ev with Sleep ms => Some ms | _ => None end) l.

Definition total_wait (l : list event) : Z :=
  fold_right Z.add 0%Z (sleeps l).

(** *** [path], as Node has it on POSIX hosts *)

Definition slash : ascii := "/"%char.

Definition is_slash (c : ascii) : bool := Ascii.eqb c slash.

(** What stands between the slashes of a path. *)
Fixpoint segments (p : string) : list string :=
  match p with
  | EmptyString => [EmptyString]
  | String c p' =>
      if is_slash c then EmptyString :: segments p'
      else
        match segments p' with
        | seg :: rest => String c seg :: rest
        | [] => [String c EmptyString]
        end
  end.

(** One segment of [normalizeString]; the segments kept so far are in
    [kept], the last one first.  An empty segment and [.] are dropped;
    [..] removes the segment before it, and is kept when there is none to
    remove and the path may go above its start. *)
Definition norm_step (allowAboveRoot : bool) (kept : list string)
           (seg : string) : list string :=
  if String.eqb seg EmptyString || String.eqb seg "." then kept
  else if String.eqb seg ".." then
    match kept with
    | top :: below =>
        if String.eqb top ".."
        then (if allowAboveRoot then seg :: kept else kept)
        else below
    | [] => if allowAboveRoot then [seg] else []
    end
  else seg :: kept.

Definition normalizeString (p : string) (allowAboveRoot : bool) : string :=
  join "/" (rev (fold_left (norm_step allowAboveRoot) (segments p) [])).

Fixpoint ends_with_slash (p : string) : bool :=
  match p with
  | EmptyString => false
  | String c EmptyString => is_slash c
  | String _ p' => ends_with_slash p'
  end.

(** [path.normalize(p)] *)
Definition path_normalize (p : string) : string :=
  if negb (is_nonempty p) then "."
  else
    let isAbsolute := startsWith p "/" in
    let trailingSeparator := ends_with_slash p in
    let n := normalizeString p (negb isAbsolute) in
    if negb (is_nonempty n) then
      (if isAbsolute then "/" else if trailingSeparator then "./" else ".")
    else
      let n := if trailingSeparator then n +:+ "/" else n in
      if isAbsolute then "/" +:+ n else n.

(** [path.join(...parts)]: the parts that are not empty, joined by a slash
    and normalized. *)
Definition path_join (parts : list string) : string :=
  match filter (fun part => is_nonempty part = true) parts with
  | [] => "."
  | given => path_normalize (join "/" given)
  end.

(** [path.resolve(p)] in the current directory [cwd], which is looked at
    only when [p] is relative. *)
Definition path_resolve (cwd p : string) : string :=
  let from_p := if is_nonempty p then p +:+ "/" else EmptyString in
  let '(resolved, isAbsolute) :=
    if startsWith p "/" then (from_p, true)
    else if is_nonempty cwd then (cwd +:+ "/" +:+ from_p, startsWith cwd "/")
    else (from_p, false) in
  let n := normalizeString resolved (negb isAbsolute) in
  if isAbsolute then "/" +:+ n
  else if is_nonempty n then n else ".".

Fixpoint skip_while {A} (f : A -> bool) (l : list A) : list A :=
  match l with
  | [] => []
  | x :: l' => if f x then skip_while f l' else l
  end.

Fixpoint keep_while {A} (f : A -> bool) (l : list A) : list A :=
  match l with
  | [] => []
  | x :: l' => if f x then x :: keep_while f l' else []
  end.

(** [path.dirname(p)]: the slashes at the end are ignored, then the path
    is cut before the last slash that is not its first character. *)
Definition path_dirname (p : string) : string :=
  match p with
  | EmptyString => "."
  | String first others =>
      let hasRoot := is_slash first in
      let back := skip_while is_slash (rev (list_ascii_of_string others)) in
      match skip_while (fun c => negb (is_slash c)) back with
      | [] => if hasRoot then "/" else "."
      | [_] => if hasRoot then "//" else String first EmptyString
      | _ :: before =>
          String first (string_of_list_ascii (rev before))
      end
  end.

(** [path.basename(p)]: the slashes at the end are ignored, the name is
    what follows the last slash before them. *)
Definition path_basename (p : string) : string :=
  string_of_list_ascii
    (rev (keep_while (fun c => negb (is_slash c))
            (skip_while is_slash (rev (list_ascii_of_string p))))).

(** The directories above [p], the nearest first, up to the root or the
    current directory, which always exist. *)
Fixpoint ancestors (fuel : nat) (p : string) : list string :=
  match fuel with
  | O => []
  | S fuel' =>
      let d := path_dirname p in
      if String.eqb d p || String.eqb d "/" || String.eqb d "." then []
      else d :: ancestors fuel' d
  end.

Section Primitives.
Variable E : Env.

(** Record a call; the result is its position in the log. *)
Definition syscall (ev : event) : M nat :=
  fun w => (Ok (length (log w)), mkWorld (fs w) (log w ++ [ev])).

Definition set_node (p : string) (n : node) : M unit :=
  fun w => (Ok tt, mkWorld (<[p := n]> (fs w)) (log w)).

Definition get_node (p : string) : M (option node) :=
  fun w => (Ok (fs w !! p), w).

Definition io_check (n : nat) (what : string) : M unit :=
  if io_fails E n then throw (SysError what) else ret tt.

(** [fs.accessSync(p, F_OK)] *)
Definition accessSync (p : value) : M unit :=
  match p with
  | VStr s =>
      _ <- syscall (Access s) ;;
      o <- get_node s ;;
      match o with
      | Some _ => ret tt
      | None => throw (SysError "ENOENT")
      end
  | _ => throw (TypeError "path must be a string")
  end.

(** [fs.readFileSync(p, 'utf8')] *)
Definition readFileSync (p : string) : M string :=
  n <- syscall (ReadFile p) ;;
  io_check n "read" ;;
  o <- get_node p ;;
  match o with
  | Some (File c) => ret c
  | Some Dir => throw (SysError "EISDIR")
  | None => throw (SysError "ENOENT")
  end.

Definition is_file (o : option node) : bool :=
  match o with
  | Some (File _) => true
  | _ => false
  end.

(** One of the paths [ds] names a file. *)
Definition file_among (ds : list string) : M bool :=
  fun w => (Ok (existsb (fun d => is_file (fs w !! d)) ds), w).

(** [fs.mkdirSync(p, { recursive: true })]: the directory and every
    directory above it that is missing are created; a file in the way is
    an error, and what exists is left alone. *)
Definition mkdirSync (p : string) : M unit :=
  n <- syscall (Mkdir p) ;;
  io_check n "mkdir" ;;
  o <- get_node p ;;
  if is_file o then throw (SysError "EEXIST")
  else
    let above := ancestors (String.length p) p in
    blocked <- file_among above ;;
    if blocked then throw (SysError "ENOTDIR")
    else forEach (fun d => set_node d Dir) (p :: above).

(** [fs.openSync(p, 'a')]: the descriptor is represented by the path. *)
Definition openSync_append (p : value) : M string :=
  match p with
  | VStr s =>
      n <- syscall (OpenAppend s) ;;
      io_check n "open" ;;
      o <- get_node s ;;
      match o with
      | Some Dir => throw (SysError "EISDIR")
      | Some (File _) => ret s
      | None => set_node s (File EmptyString) ;; ret s
      end
  | _ => throw (TypeError "path must be a string")
  end.

(** [fs.writeFileSync(p, data)]: the file is opened with the flag [w],
    which creates or empties it, and then written.  A call that fails
    does so at the opening, and nothing is changed, or later, and the
    file is left with the part of the data written so far. *)
Definition writeFileSync (p : value) (data : string) : M unit :=
  match p with
  | VStr s =>
      n <- syscall (WriteFile s data) ;;
      o <- get_node s ;;
      match o with
      | Some Dir => throw (SysError "EISDIR")
      | _ =>
          if io_fails E n then
            match written E n with
            | Some k => set_node s (File (take k data)) ;; throw (SysError "write")
            | None => throw (SysError "write")
            end
          else set_node s (File data)
      end
  | _ => throw (TypeError "path must be a string")
  end.

(** [fs.copyFileSync(src, dst)] *)
Definition copyFileSync (src dst : string) : M unit :=
  n <- syscall (CopyFile src dst) ;;
  io_check n "copyfile" ;;
  o <- get_node src ;;
  match o with
  | Some (File c) =>
      d <- get_node dst ;;
      match d with
      | Some Dir => throw (SysError "EISDIR")
      | _ => set_node dst (File c)
      end
  | Some Dir => throw (SysError "EISDIR")
  | None => throw (SysError "ENOENT")
  end.

(** [childProcess.execFileSync(file, args, ...)]: the standard output, or
    an exception when the command is missing or exits with an error. *)
Definition execFileSync (file : string) (args : list string) : M string :=
  n <- syscall (ExecFile file args) ;;
  match exec_reply E n file args with
  | Some out => ret out
  | None => throw (SysError "execFileSync")
  end.

(** [process.kill(pid)]: SIGTERM to [pid]. *)
Definition process_kill (pid : jsnum) : M unit :=
  n <- syscall (Kill pid) ;;
  if kill_throws E n pid then throw (SysError "kill") else ret tt.

(** [childProcess.spawn(cmd, { shell, detached, stdio })] and
    [child.unref()]: the child's pid, which is [undefined] when the
    process could not be created. *)
Definition spawn_detached (command out : string) : M (option Z) :=
  n <- syscall (Spawn command out) ;;
  match spawn_reply E n command with
  | Some pid => ret pid
  | None => throw (SysError "spawn")
  end.

(** [await fetch(url)], reduced to what the script reads: [res.ok], or a
    rejection. *)
Definition fetch (url : string) : M fetch_result :=
  fun w =>
    (Ok (fetch_reply E (count_fetches (log w)) url),
     mkWorld (fs w) (log w ++ [Fetch url])).

(** [await sleep(ms)] *)
Definition sleep (ms : Z) : M unit := _ <- syscall (Sleep ms) ;; ret tt.

Definition stdout_write (s : string) : M unit := _ <- syscall (Stdout s) ;; ret tt.
Definition stderr_write (s : string) : M unit := _ <- syscall (Stderr s) ;; ret tt.

End Primitives.

(** [path.dirname(v)] throws on anything but a string. *)
Definition dirname_of (v : value) : M string :=
  match v with
  | VStr s => ret (path_dirname s)
  | _ => throw (TypeError "path must be a string")
  end.

End Os.

(* ===================================================================== *)
(** ** The script *)
(* ===================================================================== *)

Module Script.
Import Js JsNumber Validator Os.
Local Open Scope os_scope.

(** *** [parseArgs] and [boolArg] *)

(** [out[key] = v]: assigning a primitive to [__proto__] changes nothing. *)
Definition set_prop (out : gmap string value) (key : string) (v : value)
  : gmap string value :=
  if String.eqb key "__proto__" then out else <[key := v]> out.

(** The [while (args.length)] loop: [args] is the queue of tokens left. *)
Fixpoint parseArgs_loop (args : list string) (out : gmap string value)
  : result (gmap string value) :=
  match args with
  | [] => Ok out
  | token :: rest =>
      if startsWith token "--" then
        let key := drop 2 token in
        match rest with
        | next :: rest' =>
            if is_nonempty next && negb (startsWith next "--")
            then parseArgs_loop rest' (set_prop out key (VStr next))
            else parseArgs_loop rest (set_prop out key VTrue)
        | [] => parseArgs_loop rest (set_prop out key VTrue)
        end
      else
        match out !! "_" with
        | Some (VList l) =>
            parseArgs_loop rest (<["_" := VList (l ++ [token])]> out)
        | _ => Throw (TypeError "out._.push is not a function")
        end
  end.

Definition parseArgs (argv : list string) : result (gmap string value) :=
  parseArgs_loop argv {["_" := VList []]}.

Definition boolArg (args : gmap string value) (key : string)
           (defaultValue : bool) : bool :=
  match args !! key with
  | None => defaultValue
  | Some VTrue => true
  | Some v =>
      let value := toLowerCase (value_toString v) in
      if String.eqb value "false" || String.eqb value "0" || String.eqb value "no"
      then false else true
  end.

Section WithEnv.
Variable E : Env.

(** *** File helpers *)

Definition fileExists (filePath : value) : M bool :=
  try_catch (accessSync filePath ;; ret true) (ret false).

Definition ensureDir (dirPath : string) : M unit := mkdirSync E dirPath.

(** *** Validation *)

Definition validateManifestFile (filePath : string) : M unit :=
  xmlText <- readFileSync E filePath ;;
  let issues := validateManifestText xmlText in
  match issues with
  | [] => ret tt
  | _ => throw (Error ("Manifest invalid: " +:+ join "; " issues))
  end.

(** *** [waitForHealth] *)

(** The [for] loop, [remaining = maxAttempts - i].  [true]: the function
    returned [true] from inside the loop; [false]: the loop ran out. *)
Fixpoint waitForHealth_loop (url : string) (waitMs : Z) (remaining : nat)
  : M bool :=
  match remaining with
  | O => ret false
  | S remaining' =>
      res <- fetch E url ;;
      match res with
      | Resolves true => ret true
      | _ => sleep waitMs ;; waitForHealth_loop url waitMs remaining'
      end
  end.

(** [attempts] and [delayMs] are integers; [x || d] replaces 0 by [d]. *)
Definition waitForHealth (url : value) (attempts delayMs : Z) : M bool :=
  let maxAttempts := if (attempts =? 0)%Z then 12%Z else attempts in
  let waitMs := if (delayMs =? 0)%Z then 400%Z else delayMs in
  done <- waitForHealth_loop (value_toString url) waitMs (Z.to_nat maxAttempts) ;;
  if done then ret true
  else throw (Error ("server not healthy at " +:+ value_toString url)).

(** *** Reclaiming the port *)

Definition killPidFile (pidPath : value) : M unit :=
  if negb (value_truthy pidPath) then ret tt
  else
    present <- fileExists pidPath ;;
    if negb present then ret tt
    else
      content <- match pidPath with
                 | VStr s => readFileSync E s
                 | _ => throw (TypeError "path must be a string")
                 end ;;
      let raw := trim content in
      let pid := StringToNumber raw in
      if negb (isFinite pid) then ret tt
      else try_catch (process_kill E pid) (ret tt).

Definition killPort (port : jsnum) : M unit :=
  if negb (truthy port) then ret tt
  else
    try_catch
      (out <- execFileSync E "lsof"
                ["-nP"; "-iTCP:" +:+ toString (num_repr E) port;
                 "-sTCP:LISTEN"; "-t"] ;;
       let raw := trim out in
       if negb (is_nonempty raw) then ret tt
       else
         forEach (fun pid => try_catch (process_kill E pid) (ret tt))
                 (filter (fun pid => isFinite pid = true)
                         (map (fun line => StringToNumber (trim line))
                              (split_lines raw))))
      (ret tt).

(** *** Launching the server *)

Definition pid_toString (pid : option Z) : string :=
  match pid with
  | Some n => Z_toString n
  | None => "undefined"
  end.

Definition startServerDetached (serverCmd : option string)
           (pidPath logPath : value) : M (option Z) :=
  match serverCmd with
  | None => ret None
  | Some EmptyString => ret None
  | Some cmd =>
      d1 <- dirname_of pidPath ;;
      ensureDir d1 ;;
      d2 <- dirname_of logPath ;;
      ensureDir d2 ;;
      out <- openSync_append E logPath ;;
      pid <- spawn_detached E cmd out ;;
      writeFileSync E pidPath (pid_toString pid) ;;
      ret pid
  end.

(** *** Host applications *)

Definition resolveAppTargets (appValue : string) : M (list string) :=
  let app := toLowerCase (if is_nonempty appValue then appValue else "word") in
  let targets := [] in
  let targets := if String.eqb app "word" || String.eqb app "both"
                 then targets ++ ["Microsoft Word"] else targets in
  let targets := if String.eqb app "excel" || String.eqb app "both"
                 then targets ++ ["Microsoft Excel"] else targets in
  match targets with
  | [] => throw (Error "app must be word, excel, or both")
  | _ => ret targets
  end.

Definition restartApps (appValue : string) : M unit :=
  apps <- resolveAppTargets appValue ;;
  forEach (fun app =>
             try_catch
               (_ <- execFileSync E "osascript"
                       ["-e"; "quit app " +:+ String dquote app +:+ String dquote EmptyString] ;;
                ret tt)
               (ret tt) ;;
             _ <- execFileSync E "open" ["-a"; app] ;;
             ret tt)
          apps.

Definition findTrashBin : M (option string) :=
  try_catch (_ <- execFileSync E "which" ["trash"] ;; ret (Some "trash"))
            (ret None).

Definition trashPaths (pathsToTrash : list string) : M unit :=
  bin <- findTrashBin ;;
  match bin with
  | None => throw (Error "trash command not found (install or skip --clear-cache)")
  | Some b =>
      forEach (fun target =>
                 present <- fileExists (VStr target) ;;
                 if present then _ <- execFileSync E b [target] ;; ret tt
                 else ret tt)
              pathsToTrash
  end.

Definition home_dir : string :=
  match env_HOME E with
  | Some h => h
  | None => EmptyString
  end.

Definition container (home app kind : string) : string :=
  path_join [home; "Library"; "Containers"; app; "Data"; "Library"; kind].

Definition clearOfficeCache (appValue : string) : M unit :=
  if negb (String.eqb (platform E) "darwin") then ret tt
  else
    let home := home_dir in
    if negb (is_nonempty home) then throw (Error "HOME not set")
    else
      apps <- resolveAppTargets appValue ;;
      forEach (fun app =>
                 (if String.eqb app "Microsoft Word" then
                    trashPaths [container home "com.microsoft.Word" "Caches";
                                container home "com.microsoft.Word" "WebKit"]
                  else ret tt) ;;
                 (if String.eqb app "Microsoft Excel" then
                    trashPaths [container home "com.microsoft.Excel" "Caches";
                                container home "com.microsoft.Excel" "WebKit"]
                  else ret tt))
              apps.

Definition wef (home app : string) : string :=
  path_join [home; "Library"; "Containers"; app; "Data"; "Documents"; "wef"].

Definition sideloadMacManifest (manifestPath appValue : string) : M unit :=
  let home := home_dir in
  if negb (is_nonempty home) then throw (Error "HOME not set")
  else
    let targets := [] in
    let targets := if String.eqb appValue "word" || String.eqb appValue "both"
                   then targets ++ [wef home "com.microsoft.Word"] else targets in
    let targets := if String.eqb appValue "excel" || String.eqb appValue "both"
                   then targets ++ [wef home "com.microsoft.Excel"] else targets in
    match targets with
    | [] => throw (Error "app must be word, excel, or both")
    | _ =>
        forEach (fun dir =>
                   ensureDir dir ;;
                   copyFileSync E manifestPath
                     (path_join [dir; path_basename manifestPath]))
                targets
    end.

(** *** [usage] *)

Definition nl : string := String lf EmptyString.

Definition usage : string :=
  join nl
    ["word-addin-dev (deterministic dev loop for Office add-ins)";
     EmptyString;
     "Usage:";
     "  node word-addin-dev.js --manifest ./manifest.xml --server-cmd "
       +:+ String dquote "node dist/your-app.js serve --port 4321"
       +:+ String dquote EmptyString;
     EmptyString;
     "Options:";
     "  --manifest <path>        Manifest XML to validate/sideload";
     "  --server-cmd <command>   Server command to run (quoted)";
     "  --health-url <url>       Health check URL (default: http://localhost:4321/api/health)";
     "  --app word|excel|both    Target app (default: word)";
     "  --port <n>               Port used for kill-port (default: 4321)";
     "  --pid-file <path>        PID file for server (default: .cache/verify/server.pid)";
     "  --log-file <path>        Log file for server (default: .cache/verify/server.log)";
     "  --sideload true|false    Copy manifest to wef (default: true if manifest provided)";
     "  --restart true|false     Restart app after sideload (default: true if sideload true)";
     "  --clear-cache true|false Clear Office caches (default: false)";
     "  --validate true|false    Validate manifest before sideload (default: true)";
     "  --health true|false      Wait for health check (default: true)";
     "  --kill-port true|false   Kill any listener on port (default: true)"].

(** *** [main] *)

(** The constants of lines 262-275. *)
Record Config : Type := mkConfig {
  manifestPath : option string;
  appValue : string;
  port : jsnum;
  pidPath : value;
  logPath : value;
  serverCmd : option string;
  healthUrl : value;
  sideload : bool;
  restart : bool;
  clearCache : bool;
  validate : bool;
  health : bool;
  killPortFlag : bool;
}.

(** [Number(v)] *)
Definition value_toNumber (v : value) : jsnum :=
  match v with
  | VTrue => of_Z 1
  | _ => StringToNumber (value_toString v)
  end.

(** [Boolean(manifestPath)] *)
Definition path_given (manifestPath : option string) : bool :=
  match manifestPath with
  | Some p => is_nonempty p
  | None => false
  end.

(** [process.cwd()] *)
Definition process_cwd : result string :=
  match cwd E with
  | Some d => Ok d
  | None => Throw (SysError "ENOENT")
  end.

Definition and_then {A B} (r : result A) (k : A -> result B) : result B :=
  match r with
  | Ok a => k a
  | Throw e => Throw e
  end.

(** [path.resolve(p)]: [process.cwd()] is called only for a relative
    path. *)
Definition resolve (p : string) : result string :=
  if startsWith p "/" then Ok (path_resolve EmptyString p)
  else and_then process_cwd (fun d => Ok (path_resolve d p)).

(** [o || path.join(process.cwd(), '.cache', 'verify', name)] *)
Definition or_in_cache (o : option value) (name : string) : result value :=
  if option_truthy o then Ok (value_or o (VStr name))
  else and_then process_cwd
         (fun d => Ok (VStr (path_join [d; ".cache"; "verify"; name]))).

(** What V8 says when [toLowerCase] is called on [true] at line 263. *)
Definition toLowerCase_error : string :=
  "(args.app || " +:+ String dquote "word" +:+ String dquote EmptyString
    +:+ ").toLowerCase is not a function".

(** Lines 262-275, in their order.  Line 262 and lines 265-266 throw when
    they need the current directory and it is gone; line 263 throws when
    [args.app] is [true], which has no [toLowerCase]. *)
Definition resolveConfig (args : gmap string value) : result Config :=
  and_then
    (match args !! "manifest" with
     | Some v =>
         if value_truthy v
         then and_then (resolve (value_toString v)) (fun p => Ok (Some p))
         else Ok None
     | None => Ok None
     end)
    (fun manifestPath =>
  match value_or (args !! "app") (VStr "word") with
  | VStr app =>
      let appValue := toLowerCase app in
      let port :=
        match args !! "port" with
        | Some v => if value_truthy v then value_toNumber v else of_Z 4321
        | None => of_Z 4321
        end in
      and_then (or_in_cache (args !! "pid-file") "server.pid") (fun pidPath =>
      and_then (or_in_cache (args !! "log-file") "server.log") (fun logPath =>
      let serverCmd :=
        match args !! "server-cmd" with
        | Some v => if value_truthy v then Some (value_toString v) else None
        | None => None
        end in
      let healthUrl :=
        value_or (args !! "health-url")
                 (VStr ("http://localhost:" +:+ toString (num_repr E) port
                        +:+ "/api/health")) in
      let sideload := boolArg args "sideload" (path_given manifestPath) in
      let restart := boolArg args "restart" sideload in
      let clearCache := boolArg args "clear-cache" false in
      let validate := boolArg args "validate" true in
      let health := boolArg args "health" true in
      let killPortFlag := boolArg args "kill-port" true in
      Ok (mkConfig manifestPath appValue port pidPath logPath serverCmd
                   healthUrl sideload restart clearCache validate health
                   killPortFlag)))
  | _ => Throw (TypeError toLowerCase_error)
  end).

(** The functions [main] calls, for the trace of calls it makes. *)
Inductive fname : Type :=
| F_validateManifestFile
| F_clearOfficeCache
| F_sideloadMacManifest
| F_killPort
| F_killPidFile
| F_startServerDetached
| F_waitForHealth
| F_restartApps.

(** A run: the world, and the ghost trace of the calls [main] has made. *)
Record Run : Type := mkRun {
  calls : list fname;
  world : World;
}.

(** A call of [f] from [main]: noted in the trace, then executed. *)
Definition call {A} (f : fname) (m : M A) : St Run A :=
  fun r =>
    let '(x, w') := m (world r) in
    (x, mkRun (calls r ++ [f]) w').

(** An effect of [main] itself. *)
Definition direct {A} (m : M A) : St Run A :=
  fun r =>
    let '(x, w') := m (world r) in
    (x, mkRun (calls r) w').

(** [args._[0] === 'help' || args.help]: a one-character string and
    [undefined] never equal ['help']. *)
Definition help_requested (args : gmap string value) : bool :=
  match args !! "_" with
  | Some (VList (first :: _)) => String.eqb first "help"
  | _ => false
  end || option_truthy (args !! "help").

(** Lines 277-306, one definition per block of [main]. *)

(** Lines 277-279 *)
Definition step_validate (c : Config) : St Run unit :=
  match manifestPath c with
  | Some p =>
      if is_nonempty p && validate c
      then call F_validateManifestFile (validateManifestFile p)
      else ret tt
  | None => ret tt
  end.

(** Lines 281-283 *)
Definition step_clearCache (c : Config) : St Run unit :=
  if clearCache c
  then call F_clearOfficeCache (clearOfficeCache (appValue c))
  else ret tt.

(** Lines 285-288 *)
Definition step_sideload (c : Config) : St Run unit :=
  if sideload c then
    match manifestPath c with
    | Some p =>
        if is_nonempty p
        then call F_sideloadMacManifest (sideloadMacManifest p (appValue c))
        else throw (Error "manifest is required when sideload=true")
    | None => throw (Error "manifest is required when sideload=true")
    end
  else ret tt.

(** Lines 290-294 *)
Definition step_reclaim (c : Config) : St Run unit :=
  if killPortFlag c
  then call F_killPort (killPort (port c))
  else call F_killPidFile (killPidFile (pidPath c)).

(** A child that could not be created has no pid, and Node emits its
    error event on the next tick of the event loop.  The script listens to
    no event of the child, so the event loop throws: the process ends
    there with exit code 1, before any handler of a promise is run. *)
Definition child_error : exn := Uncaught "spawn".

(** Among the calls [made], the first at position [n] of the log, a spawn
    that gave a child without pid. *)
Fixpoint child_lost (n : nat) (made : list event) : bool :=
  match made with
  | [] => false
  | ev :: rest =>
      match ev with
      | Spawn command _ =>
          match spawn_reply E n command with
          | Some None => true
          | _ => false
          end
      | _ => false
      end || child_lost (S n) rest
  end.

(** Line 296.  When [startServerDetached] throws after a child could not
    be created, the error of the child comes before the rejection of
    [main] is handled. *)
Definition step_launch (c : Config) : St Run (option Z) :=
  fun r =>
    match call F_startServerDetached
               (startServerDetached (serverCmd c) (pidPath c) (logPath c)) r
    with
    | (Throw e, r') =>
        let n := length (log (world r)) in
        if child_lost n (skipn n (log (world r')))
        then (Throw child_error, r') else (Throw e, r')
    | returned => returned
    end.

(** Line 296 has returned for a server command, with a child that has no
    pid. *)
Definition child_failed (c : Config) (pid : option Z) : bool :=
  match serverCmd c, pid with
  | Some (String _ _), None => true
  | _, _ => false
  end.

(** Lines 298-300 *)
Definition step_health (c : Config) : St Run unit :=
  if health c
  then _ <- call F_waitForHealth (waitForHealth (healthUrl c) 12 400) ;; ret tt
  else ret tt.

(** Lines 302-304 *)
Definition step_restart (c : Config) : St Run unit :=
  if restart c
  then call F_restartApps (restartApps (appValue c))
  else ret tt.

(** Line 306: [pid || 'none'] *)
Definition step_report (c : Config) (pid : option Z) : St Run unit :=
  let shown :=
    match pid with
    | Some n => if (n =? 0)%Z then "none" else Z_toString n
    | None => "none"
    end in
  direct (stdout_write ("ok (pid=" +:+ shown +:+ " port="
                        +:+ toString (num_repr E) (port c) +:+ ")" +:+ nl)).

(** What [m] does, then the error of the child. *)
Definition then_child_error {A} (m : St Run A) : St Run unit :=
  fun r => (Throw child_error, snd (m r)).

(** Lines 298-306 when the child could not be created: the script runs
    until [main] is suspended or is over, and the process ends there.
    With the health check, [main] is suspended at the first [await] of
    [waitForHealth], when the first request has been issued.  Without it
    [main] is never suspended: the restart block and the report are run,
    or [main] throws on the way. *)
Definition doomed_steps (c : Config) (pid : option Z) : St Run unit :=
  if health c
  then then_child_error
         (call F_waitForHealth (fetch E (value_toString (healthUrl c))))
  else then_child_error (step_restart c ;; step_report c pid).

(** Lines 298-306 *)
Definition after_launch (c : Config) (pid : option Z) : St Run unit :=
  if child_failed c pid then doomed_steps c pid
  else step_health c ;; step_restart c ;; step_report c pid.

(** The blocks of [main] as the process runs them. *)
Definition main_steps (c : Config) : St Run unit :=
  step_validate c ;;
  step_clearCache c ;;
  step_sideload c ;;
  step_reclaim c ;;
  pid <- step_launch c ;;
  after_launch c pid.

Definition main (argv : list string) : St Run unit :=
  args <- of_result (parseArgs argv) ;;
  if help_requested args then direct (stdout_write (usage +:+ nl))
  else
    c <- of_result (resolveConfig args) ;;
    main_steps c.

(** [main().catch(...)]: the exit code of the process.  An error [main]
    throws is reported on the standard error and the process exits with
    1; what is written is the error's message, which for a system error
    is represented by its code.  An error of the event loop is not seen
    by the [catch]: the script writes nothing, Node reports the error and
    exits with 1. *)
Definition run (argv : list string) : Run -> Z * Run :=
  fun r =>
    match main argv r with
    | (Ok _, r') => (0%Z, r')
    | (Throw (Uncaught _), r') => (1%Z, r')
    | (Throw err, r') =>
        let shown := if is_nonempty (exn_message err)
                     then exn_message err else "Error" in
        (1%Z, snd (direct (stderr_write (shown +:+ nl)) r'))
    end.

End WithEnv.
End Script.

(* ===================================================================== *)
(** ** Concrete hosts and worlds, for the examples *)
(* ===================================================================== *)

Module Scenario.
Import Js JsNumber Os Script.

(** A macOS host on which [lsof] finds no listener, every other command
    and every file-system call succeeds, the spawned server gets pid 4242
    and the health endpoint answers as [reply] says. *)
Definition env_replying (reply : nat -> fetch_result) : Env :=
  mkEnv "darwin" (Some "/Users/dev") (Some "/work")
        (fun _ => false)
        (fun _ file _ => if String.eqb file "lsof" then None else Some EmptyString)
        (fun _ _ => false)
        (fun _ _ => Some (Some 4242%Z))
        (fun n _ => reply n)
        (fun _ => "?")
        (fun _ => None).

Definition quiet_env : Env := env_replying (fun _ => Rejects).

Definition empty_world : World := mkWorld ∅ [].

(** A world whose pid file exists and is empty. *)
Definition pid_file : string := "/work/.cache/verify/server.pid".

Definition world_with_empty_pid_file : World :=
  mkWorld {[ pid_file := File EmptyString ]} [].

Definition fresh (w : World) : Run := mkRun [] w.

End Scenario.

(* ===================================================================== *)
(** ** Notions used to state the properties *)
(* ===================================================================== *)

Module Spec.
Import Js JsNumber Validator Os Script.
Local Open Scope os_scope.

(** *** The validator *)

Definition q : string := String dquote EmptyString.

Fixpoint no_quote (v : string) : Prop :=
  match v with
  | EmptyString => True
  | String c v' => c <> dquote /\ no_quote v'
  end.

(** What a scan of the values [vals] reports: the issue of the first value
    with a bare ampersand, and the number of [exec] calls made. *)
Fixpoint scan (vals : list string) : list string * nat :=
  match vals with
  | [] => ([], 1)
  | v :: rest =>
      if hasUnescapedAmp v then ([amp_issue v], 1)
      else let '(found, n) := scan rest in (found, S n)
  end.

(** [needle] does not occur in [text]. *)
Definition lacks (needle text : string) : Prop :=
  forall pre post, text <> pre +:+ needle +:+ post.

Definition marker_count (marker : string) (issues : list string) : nat :=
  count_occ String.string_dec issues marker.

Definition two_attributes : string :=
  "<OfficeApp DefaultValue=" +:+ q +:+ "ok &lt; fine" +:+ q
    +:+ " DefaultValue=" +:+ q +:+ "A & B" +:+ q
    +:+ " DefaultValue=" +:+ q +:+ "C & D" +:+ q +:+ ">".

Definition escaped_attribute : string :=
  "DefaultValue=" +:+ q +:+ "A &amp; B" +:+ q.

(** *** The health poll *)

(** One failed attempt: the request, then the pause. *)
Definition failed_round (url : string) (waitMs : Z) : list event :=
  [Fetch url; Sleep waitMs].

Definition failed_rounds (url : string) (waitMs : Z) (n : nat) : list event :=
  concat (repeat (failed_round url waitMs) n).

(** The reply to the [j]-th request (from 1) of a poll started in [w]. *)
Definition reply_to_attempt (E : Env) (w : World) (url : string) (j : nat)
  : fetch_result :=
  fetch_reply E (count_fetches (log w) + (j - 1)) url.

Definition budget (attempts : Z) : Z :=
  if (attempts =? 0)%Z then 12%Z else attempts.

Definition pause (delayMs : Z) : Z :=
  if (delayMs =? 0)%Z then 400%Z else delayMs.

(** *** The reclamation *)

Definition lsof_args (E : Env) (port : jsnum) : list string :=
  ["-nP"; "-iTCP:" +:+ toString (num_repr E) port; "-sTCP:LISTEN"; "-t"].

Definition listed_pids (out : string) : list jsnum :=
  filter (fun pid => isFinite pid = true)
         (map (fun line => StringToNumber (trim line)) (split_lines (trim out))).

(** *** The command line *)

(** Every value stored in an object is truthy. *)
Definition all_truthy (out : gmap string value) : Prop :=
  forall k v, out !! k = Some v -> value_truthy v = true.

Definition args_of (argv : list string) : gmap string value :=
  match parseArgs argv with
  | Ok args => args
  | Throw _ => ∅
  end.

Definition config_of (E : Env) (argv : list string) : option Config :=
  match resolveConfig E (args_of argv) with
  | Ok c => Some c
  | Throw _ => None
  end.

Definition manifest_only : list string := ["--manifest"; "./manifest.xml"].

Definition server_only : list string := ["--server-cmd"; "node serve"].

Definition sideload_without_manifest : list string := ["--sideload"; "true"].

Definition server_and_restart : list string :=
  ["--server-cmd"; "node serve"; "--restart"; "true"].

(** *** The trace of calls *)

(** The calls each block of [main] makes when it is reached. *)
Definition validate_calls (c : Config) : list fname :=
  if path_given (manifestPath c) && validate c
  then [F_validateManifestFile] else [].

Definition clearCache_calls (c : Config) : list fname :=
  if clearCache c then [F_clearOfficeCache] else [].

Definition sideload_calls (c : Config) : list fname :=
  if sideload c && path_given (manifestPath c)
  then [F_sideloadMacManifest] else [].

Definition reclaim_calls (c : Config) : list fname :=
  if killPortFlag c then [F_killPort] else [F_killPidFile].

Definition health_calls (c : Config) : list fname :=
  if health c then [F_waitForHealth] else [].

Definition restart_calls (c : Config) : list fname :=
  if restart c then [F_restartApps] else [].

(** The blocks of [main] in order, each with the calls it makes. *)
Definition block_calls (c : Config) : list (list fname) :=
  [validate_calls c; clearCache_calls c; sideload_calls c; reclaim_calls c;
   [F_startServerDetached]; health_calls c; restart_calls c].

Definition is_reclaim (f : fname) : bool :=
  match f with
  | F_killPort | F_killPidFile => true
  | _ => false
  end.

(** How many calls of a trace satisfy [p]. *)
Fixpoint count_calls (p : fname -> bool) (d : list fname) : nat :=
  match d with
  | [] => 0
  | f :: rest => (if p f then 1 else 0) + count_calls p rest
  end.

(** Lines 277-288: the blocks before the reclamation. *)
Definition before_reclaim (E : Env) (c : Config) : St Run unit :=
  (step_validate E c ;;
   step_clearCache E c ;;
   step_sideload E c)%os.

(** The run gets as far as the reclamation block of lines 290-294: it is
    no help request, the command line is parsed, the configuration is
    resolved and the blocks before return. *)
Definition reaches_reclaim (E : Env) (argv : list string) (r : Run) : Prop :=
  exists args c r3,
    parseArgs argv = Ok args /\ help_requested args = false /\
    resolveConfig E args = Ok c /\
    before_reclaim E c r = (Ok tt, r3).

(** Lines 277-296: everything before the health check. *)
Definition up_to_launch (E : Env) (c : Config) : St Run (option Z) :=
  (step_validate E c ;;
   step_clearCache E c ;;
   step_sideload E c ;;
   step_reclaim E c ;;
   step_launch E c)%os.

(** *** Exceptions *)

(** An error other than the one [validateManifestFile] raises. *)
Definition not_manifest_error (e : exn) : Prop :=
  match e with
  | Error m => startsWith m "Manifest invalid" = false
  | _ => True
  end.

(** [m] raises only exceptions that satisfy [P]. *)
Definition raises_only {S A} (P : exn -> Prop) (m : St S A) : Prop :=
  forall w e w', m w = (Throw e, w') -> P e.

(** *** Decimal digits and lines *)

(** The number a run of decimal digits denotes, after the digits [acc]. *)
Fixpoint uint_value (d : Decimal.uint) (acc : N) : N :=
  match d with
  | Decimal.Nil => acc
  | Decimal.D0 l => uint_value l (acc * 10 + 0)
  | Decimal.D1 l => uint_value l (acc * 10 + 1)
  | Decimal.D2 l => uint_value l (acc * 10 + 2)
  | Decimal.D3 l => uint_value l (acc * 10 + 3)
  | Decimal.D4 l => uint_value l (acc * 10 + 4)
  | Decimal.D5 l => uint_value l (acc * 10 + 5)
  | Decimal.D6 l => uint_value l (acc * 10 + 6)
  | Decimal.D7 l => uint_value l (acc * 10 + 7)
  | Decimal.D8 l => uint_value l (acc * 10 + 8)
  | Decimal.D9 l => uint_value l (acc * 10 + 9)
  end%N.

Definition is_digit (c : ascii) : bool :=
  let n := nat_of_ascii c in (48 <=? n) && (n <=? 57).

Fixpoint all_digits (s : string) : bool :=
  match s with
  | EmptyString => true
  | String c s' => is_digit c && all_digits s'
  end.

(** [s] is not empty and its last character is no white space. *)
Fixpoint ends_nonspace (s : string) : bool :=
  match s with
  | EmptyString => false
  | String c EmptyString => negb (is_space c)
  | String _ s' => ends_nonspace s'
  end.

(** Values below this bound convert to a finite Number. *)
Definition finite_bound : Z := (2 ^ 1024 - 2 ^ 970)%Z.

(** Every integer up to this bound is a Number, and [String] writes it
    in decimal. *)
Definition max_exact : Z := (2 ^ 53)%Z.

(** What a flag can hold: [true], or an argument that is not empty and
    does not start with two dashes. *)
Definition flag_value (argv : list string) (v : value) : Prop :=
  v = VTrue \/
  exists s, v = VStr s /\ is_nonempty s = true /\
            startsWith s "--" = false /\ In s argv.

(** *** Well-formed manifests *)

(** [needle] occurs in [text]. *)
Definition occurs (needle text : string) : Prop :=
  exists pre post, text = pre +:+ needle +:+ post.

(** What the validator accepts: the three required substrings occur and
    no value the pattern extracts has a bare ampersand. *)
Definition well_formed (text : string) : Prop :=
  occurs "<OfficeApp" text /\ occurs "<Id>" text /\
  occurs "SourceLocation" text /\
  Forall (fun v => ~ bare_amp v) (defaultValues text).

(** [v] is an attribute value of [text]: it has no double quote and stands
    in [text] between [DefaultValue=], a quote, and a closing quote. *)
Definition attribute_value_of (text v : string) : Prop :=
  no_quote v /\
  exists pre post, text = pre +:+ attr_open +:+ v +:+ String dquote post.

Definition manifest_file : string := "/work/manifest.xml".

Definition good_manifest : string :=
  "<OfficeApp><Id>1</Id><SourceLocation DefaultValue=" +:+ q +:+ "A &amp; B"
    +:+ q +:+ "/></OfficeApp>".

Definition bad_manifest : string :=
  "<OfficeApp><SourceLocation DefaultValue=" +:+ q +:+ "A & B"
    +:+ q +:+ "/></OfficeApp>".

(** *** More command lines and worlds for the examples *)

Definition help_among_others : list string :=
  ["--server-cmd"; "node serve"; "--help"; "--kill-port"; "false"].

Definition manifest_argv : list string := ["--manifest"; "/work/manifest.xml"].

Definition world_with_bad_manifest : World :=
  mkWorld {[ manifest_file := File bad_manifest ]} [].

(** *** The host applications *)

(** What the restart of one application runs: the quit, then the open. *)
Definition relaunch_events (app : string) : list event :=
  [ExecFile "osascript"
     ["-e"; "quit app " +:+ String dquote app +:+ String dquote EmptyString];
   ExecFile "open" ["-a"; app]].

(** Where [sideloadMacManifest] puts the manifest [src] for an
    application. *)
Definition installed_at (E : Env) (app src : string) : string :=
  path_join [wef (home_dir E) app; path_basename src].

(** A host on which only [open] succeeds: no application can be told to
    quit, and there is no [trash] command. *)
Definition env_only_open : Env :=
  mkEnv "darwin" (Some "/Users/dev") (Some "/work")
        (fun _ => false)
        (fun _ file _ => if String.eqb file "open" then Some EmptyString else None)
        (fun _ _ => false)
        (fun _ _ => Some (Some 4242%Z))
        (fun _ _ => Rejects)
        (fun _ => "?")
        (fun _ => None).

Definition world_with_good_manifest : World :=
  mkWorld {[ manifest_file := File good_manifest ]} [].

(** *** More hosts and worlds for the examples *)

Definition log_file : string := "/work/.cache/verify/server.log".

(** A host on which [lsof] lists the pids 101 and 202 and every signal
    fails. *)
Definition listening_env : Env :=
  mkEnv "darwin" (Some "/Users/dev") (Some "/work")
        (fun _ => false)
        (fun _ file _ =>
           if String.eqb file "lsof"
           then Some (join nl (map Z_toString [101%Z; 202%Z]) +:+ nl)
           else Some EmptyString)
        (fun _ _ => true)
        (fun _ _ => Some (Some 4242%Z))
        (fun _ _ => Rejects)
        (fun _ => "?")
        (fun _ => None).

(** A host on which every call to the file system fails from the fifth
    call of a run on, a write after two code units. *)
Definition env_write_fails : Env :=
  mkEnv "darwin" (Some "/Users/dev") (Some "/work")
        (fun n => (4 <=? n)%nat)
        (fun _ _ _ => Some EmptyString)
        (fun _ _ => false)
        (fun _ _ => Some (Some 4242%Z))
        (fun _ _ => Rejects)
        (fun _ => "?")
        (fun _ => Some 2).

(** A host on which no child can be created: [spawn] returns a child
    without pid. *)
Definition env_child_fails : Env :=
  mkEnv "darwin" (Some "/Users/dev") (Some "/work")
        (fun _ => false)
        (fun _ _ _ => Some EmptyString)
        (fun _ _ => false)
        (fun _ _ => Some None)
        (fun _ _ => Rejects)
        (fun _ => "?")
        (fun _ => None).

(** A world in which an earlier launch has recorded the pid 123. *)
Definition world_with_old_pid : World :=
  mkWorld {[ Scenario.pid_file := File "123" ]} [].

(** A world in which the pid path names a directory. *)
Definition world_with_pid_directory : World :=
  mkWorld {[ Scenario.pid_file := Dir ]} [].

End Spec.

(* ===================================================================== *)
(** * Properties *)
(* ===================================================================== *)

(** ** Strings *)

Module JsFacts.
Import Js.

Lemma eqb_ascii_true a b : Ascii.eqb a b = true <-> a = b.
Proof. apply Ascii.eqb_eq. Qed.

Lemma startsWith_spec s p :
  startsWith s p = true <-> exists rest, s = p +:+ rest.
Proof.
  revert s. induction p as [|a p IH]; intros s; simpl.
  - split; [intros _; exists s; reflexivity | reflexivity].
  - destruct s as [|b s]; simpl.
    + split; [discriminate | intros [rest H]; discriminate].
    + rewrite andb_true_iff, eqb_ascii_true, IH. split.
      * intros [-> [rest ->]]. exists rest. reflexivity.
      * intros [rest H]. injection H as -> ->. split; [reflexivity | eauto].
Qed.

Lemma includes_spec s needle :
  includes s needle = true <-> exists pre post, s = pre +:+ needle +:+ post.
Proof.
  induction s as [|c s IH].
  - simpl. rewrite orb_false_r, startsWith_spec. split.
    + intros [rest H]. exists EmptyString, rest. exact H.
    + intros [pre [post H]]. destruct pre; [eauto | discriminate].
  - cbn [includes]. rewrite orb_true_iff, IH, startsWith_spec. split.
    + intros [[rest H] | [pre [post H]]].
      * exists EmptyString, rest. exact H.
      * exists (String c pre), post. simpl. rewrite H. reflexivity.
    + intros [pre [post H]]. destruct pre as [|c' pre].
      * left. exists post. exact H.
      * right. simpl in H. injection H as _ H. eauto.
Qed.

Lemma length_drop i s : String.length (drop i s) = String.length s - i.
Proof.
  revert s. induction i as [|i IH]; intros s.
  - simpl. lia.
  - destruct s; simpl; [reflexivity | apply IH].
Qed.

Lemma length_append s t :
  String.length (s +:+ t) = String.length s + String.length t.
Proof. induction s as [|c s IH]; simpl; [reflexivity | rewrite IH; reflexivity]. Qed.

Lemma drop_append s t : drop (String.length s) (s +:+ t) = t.
Proof. induction s; simpl; [destruct t; reflexivity | assumption]. Qed.

End JsFacts.

(** ** The validator *)

Module ValidatorFacts.
Import Js JsFacts Validator Spec.

Example scenario_A :
  validateManifestText
    ("<OfficeApp><Id>1</Id><SourceLocation DefaultValue=" +:+ q +:+ "A &amp; B" +:+ q +:+ "/>")
  = [].
Proof. vm_compute. reflexivity. Qed.

Example scenario_B :
  validateManifestText
    ("<OfficeApp><Id>1</Id><SourceLocation DefaultValue=" +:+ q +:+ "A & B" +:+ q +:+ "/>")
  = ["unescaped & in DefaultValue: A & B"].
Proof. vm_compute. reflexivity. Qed.

Example unterminated_value_is_no_match :
  defaultValues
    ("DefaultValue=" +:+ q +:+ "x" +:+ q +:+ " DefaultValue=" +:+ q +:+ q
       +:+ "DefaultValue=" +:+ q +:+ "open")
  = ["x"; EmptyString].
Proof. vm_compute. reflexivity. Qed.

(** *** [hasUnescapedAmp] finds exactly the bare ampersands *)

Lemma hasUnescapedAmp_sound v : hasUnescapedAmp v = true -> bare_amp v.
Proof.
  induction v as [|c v IH]; [discriminate |].
  cbn [hasUnescapedAmp]. destruct (Ascii.eqb c amp) eqn:Hc.
  - apply eqb_ascii_true in Hc. subst c.
    destruct (known_entity (String amp v)) eqn:Hk.
    + intros H. destruct (IH H) as [pre [tail [-> Hb]]].
      exists (String amp pre), tail. split; [reflexivity | exact Hb].
    + intros _. exists EmptyString, v. split; [reflexivity | exact Hk].
  - intros H. destruct (IH H) as [pre [tail [-> Hb]]].
    exists (String c pre), tail. split; [reflexivity | exact Hb].
Qed.

Lemma hasUnescapedAmp_complete v : bare_amp v -> hasUnescapedAmp v = true.
Proof.
  intros [pre [tail [-> Hb]]]. induction pre as [|c pre IH].
  - simpl. rewrite Hb. reflexivity.
  - change (String c pre +:+ String amp tail)
      with (String c (pre +:+ String amp tail)).
    cbn [hasUnescapedAmp].
    destruct (Ascii.eqb c amp); [|exact IH].
    destruct (known_entity (String c _)); [exact IH | reflexivity].
Qed.

Lemma hasUnescapedAmp_spec v : hasUnescapedAmp v = true <-> bare_amp v.
Proof. split; [apply hasUnescapedAmp_sound | apply hasUnescapedAmp_complete]. Qed.

Lemma hasUnescapedAmp_false v : hasUnescapedAmp v = false <-> ~ bare_amp v.
Proof.
  rewrite <- hasUnescapedAmp_spec. destruct (hasUnescapedAmp v); split; congruence.
Qed.

(** *** Every match moves [lastIndex] forward and stays inside the text *)

Lemma until_quote_length s v :
  until_quote s = Some v -> String.length v + 1 <= String.length s.
Proof.
  revert v. induction s as [|c s IH]; intros v; simpl; [discriminate |].
  destruct (Ascii.eqb c dquote).
  - intros [= <-]. simpl. lia.
  - destruct (until_quote s) as [u|]; [|discriminate].
    intros [= <-]. specialize (IH u eq_refl). simpl. lia.
Qed.

Lemma match_here_length s v :
  match_here s = Some v -> match_length v <= String.length s.
Proof.
  unfold match_here, match_length.
  destruct (startsWith s attr_open) eqn:Hp; [|discriminate].
  apply startsWith_spec in Hp. destruct Hp as [rest ->].
  rewrite drop_append, length_append. intros H.
  apply until_quote_length in H. lia.
Qed.

Lemma exec_at_bounds s i v j :
  exec_at s i = Some (v, j) -> i < j /\ j <= i + String.length s.
Proof.
  revert i. induction s as [|c s IH]; intros i; cbn [exec_at].
  - destruct (match_here EmptyString) as [u|] eqn:Hm; [|discriminate].
    apply match_here_length in Hm. unfold match_length in Hm. simpl in Hm. lia.
  - destruct (match_here (String c s)) as [u|] eqn:Hm.
    + intros [= <- <-]. apply match_here_length in Hm.
      unfold match_length in *. simpl in *. lia.
    + intros H. apply IH in H. simpl. lia.
Qed.

Lemma attrRegex_exec_bounds text i v j :
  attrRegex_exec text i = Some (v, j) -> i < j /\ j <= String.length text.
Proof.
  unfold attrRegex_exec. destruct (String.length text <? i) eqn:Hl; [discriminate |].
  apply Nat.ltb_ge in Hl. intros H. apply exec_at_bounds in H.
  rewrite length_drop in H. lia.
Qed.

(** *** What a match is *)

Lemma until_quote_spec s v :
  until_quote s = Some v <->
  no_quote v /\ exists post, s = v +:+ String dquote post.
Proof.
  revert v. induction s as [|c s IH]; intros v; simpl.
  - split; [discriminate |]. intros [_ [post H]]. destruct v; discriminate.
  - destruct (Ascii.eqb c dquote) eqn:Hc.
    + apply eqb_ascii_true in Hc. subst c. split.
      * intros [= <-]. split; [exact I | exists s; reflexivity].
      * intros [Hq [post H]]. destruct v as [|d v]; [reflexivity |].
        simpl in H. injection H as <- _. destruct Hq as [Hq _]. contradiction.
    + assert (c <> dquote) as Hne.
      { intros ->. rewrite Ascii.eqb_refl in Hc. discriminate. }
      split.
      * destruct (until_quote s) as [u|] eqn:Hu; [|discriminate].
        intros [= <-]. destruct (proj1 (IH u) eq_refl) as [Hq [post ->]].
        split; [split; assumption | exists post; reflexivity].
      * intros [Hq [post H]]. destruct v as [|d v].
        { simpl in H. injection H as -> _. contradiction. }
        simpl in H. injection H as <- ->. destruct Hq as [_ Hq].
        rewrite (proj2 (IH v)); [reflexivity |].
        split; [exact Hq | exists post; reflexivity].
Qed.

(** The pattern matches at the head of [s] exactly when [s] opens with
    [DefaultValue=], a quote, a quote-free value and a closing quote. *)
Lemma match_here_spec s v :
  match_here s = Some v <->
  no_quote v /\ exists post, s = attr_open +:+ v +:+ String dquote post.
Proof.
  unfold match_here. destruct (startsWith s attr_open) eqn:Hp.
  - apply startsWith_spec in Hp. destruct Hp as [rest ->].
    rewrite drop_append, until_quote_spec. split.
    + intros [Hq [post ->]]. split; [exact Hq | exists post; reflexivity].
    + intros [Hq [post H]]. split; [exact Hq |]. exists post.
      revert H. generalize attr_open. intros o. induction o as [|a o IHo]; simpl.
      * trivial.
      * intros [= H]. auto.
  - split; [discriminate |]. intros [_ [post H]].
    assert (startsWith s attr_open = true) as Hs
      by (apply startsWith_spec; eexists; exact H).
    congruence.
Qed.

(** *** The loop against the list of matches *)

Lemma attr_loop_scan fuel text i issues execs :
  i <= String.length text ->
  S (String.length text) <= i + fuel ->
  attr_loop fuel text i issues execs =
  Some (issues ++ fst (scan (matches_from fuel text i)),
        execs + snd (scan (matches_from fuel text i))).
Proof.
  revert i execs. induction fuel as [|fuel IH]; intros i execs Hi Hf; [lia |].
  cbn [attr_loop matches_from].
  destruct (attrRegex_exec text i) as [[v j]|] eqn:Hx.
  - apply attrRegex_exec_bounds in Hx. cbn [scan].
    destruct (hasUnescapedAmp v).
    + simpl. do 2 f_equal. lia.
    + rewrite IH by lia. destruct (scan (matches_from fuel text j)) as [found n].
      simpl. do 2 f_equal. lia.
  - simpl. rewrite app_nil_r. do 2 f_equal. lia.
Qed.

Lemma matches_from_S fuel text i :
  matches_from (S fuel) text i =
  match attrRegex_exec text i with
  | None => []
  | Some (v, j) => v :: matches_from fuel text j
  end.
Proof. reflexivity. Qed.

(** More fuel than the text is long never changes the list of matches. *)
Lemma matches_from_enough fuel text i :
  i <= String.length text ->
  S (String.length text) <= i + fuel ->
  matches_from (S fuel) text i = matches_from fuel text i.
Proof.
  revert i. induction fuel as [|fuel IH]; intros i Hi Hf; [lia |].
  rewrite (matches_from_S (S fuel)), (matches_from_S fuel).
  destruct (attrRegex_exec text i) as [[v j]|] eqn:Hx; [|reflexivity].
  apply attrRegex_exec_bounds in Hx. rewrite IH by lia. reflexivity.
Qed.

Lemma validateManifestText_run_scan text :
  validateManifestText_run text =
  Some (required_checks text ++ fst (scan (defaultValues text)),
        snd (scan (defaultValues text))).
Proof.
  unfold validateManifestText_run, defaultValues.
  rewrite attr_loop_scan by lia. reflexivity.
Qed.

(** The loop of [validateManifestText] terminates on every text. *)
Lemma validateManifestText_run_total text :
  exists issues execs,
    validateManifestText_run text = Some (issues, execs) /\
    validateManifestText text = issues.
Proof.
  unfold validateManifestText. rewrite validateManifestText_run_scan.
  eexists _, _. split; reflexivity.
Qed.

Lemma scan_clean vals :
  Forall (fun u => ~ bare_amp u) vals -> scan vals = ([], S (length vals)).
Proof.
  induction 1 as [|v vals Hv _ IH]; [reflexivity |].
  cbn [scan]. apply hasUnescapedAmp_false in Hv. rewrite Hv, IH. reflexivity.
Qed.

Lemma scan_first pre v post :
  Forall (fun u => ~ bare_amp u) pre -> bare_amp v ->
  scan (pre ++ v :: post) = ([amp_issue v], S (length pre)).
Proof.
  intros Hpre Hv. induction Hpre as [|u pre Hu _ IH].
  - cbn [app scan]. apply hasUnescapedAmp_spec in Hv. rewrite Hv. reflexivity.
  - cbn [app scan]. apply hasUnescapedAmp_false in Hu. rewrite Hu, IH. reflexivity.
Qed.

Lemma first_bare_amp vals :
  Exists bare_amp vals ->
  exists pre v post,
    vals = pre ++ v :: post /\ Forall (fun u => ~ bare_amp u) pre /\ bare_amp v.
Proof.
  induction vals as [|u vals IH]; intros H; [inversion H |].
  destruct (hasUnescapedAmp u) eqn:Hu.
  - exists [], u, vals. split; [reflexivity |].
    split; [constructor | apply hasUnescapedAmp_spec; exact Hu].
  - apply hasUnescapedAmp_false in Hu.
    inversion H as [? ? Hb | ? ? Hrest]; subst; [contradiction |].
    destruct (IH Hrest) as [pre [v [post [-> [Hpre Hv]]]]].
    exists (u :: pre), v, post. split; [reflexivity |].
    split; [constructor; assumption | exact Hv].
Qed.

Lemma required_checks_not_amp text :
  filter (fun i => amp_related i = true) (required_checks text) = [].
Proof.
  unfold required_checks.
  destruct (includes text "<OfficeApp"), (includes text "<Id>"),
    (includes text "SourceLocation"); reflexivity.
Qed.

Lemma scan_fst_cases vals :
  fst (scan vals) = [] \/ exists v, fst (scan vals) = [amp_issue v].
Proof.
  induction vals as [|u vals IH]; [left; reflexivity |].
  cbn [scan]. destruct (hasUnescapedAmp u); [right; eexists; reflexivity |].
  destruct (scan vals) as [found n]. exact IH.
Qed.

Lemma validateManifestText_scan text :
  validateManifestText text =
  required_checks text ++ fst (scan (defaultValues text)).
Proof.
  unfold validateManifestText. rewrite validateManifestText_run_scan. reflexivity.
Qed.

Lemma includes_false s needle : includes s needle = false <-> lacks needle s.
Proof.
  unfold lacks. split.
  - intros H pre post ->.
    assert (includes (pre +:+ needle +:+ post) needle = true) as Hi
      by (apply includes_spec; eauto).
    congruence.
  - intros H. destruct (includes s needle) eqn:Hi; [|reflexivity].
    apply includes_spec in Hi. destruct Hi as [pre [post ->]].
    exfalso. exact (H pre post eq_refl).
Qed.

Lemma marker_count_scan marker vals :
  Js.startsWith marker "missing" = true ->
  marker_count marker (fst (scan vals)) = 0.
Proof.
  intros Hm. unfold marker_count.
  destruct (scan_fst_cases vals) as [-> | [v ->]]; [reflexivity |].
  apply count_occ_not_In. intros [H | []]. subst marker.
  unfold amp_issue in Hm. simpl in Hm. discriminate.
Qed.

Lemma marker_count_app marker a b :
  marker_count marker (a ++ b) = marker_count marker a + marker_count marker b.
Proof. apply count_occ_app. Qed.

(** C6: the ampersand scan of the validator.  When some value matched by
    the [DefaultValue] pattern has a bare ampersand, the validator reports
    one ampersand defect, for the first such value: the text
    [unescaped & in DefaultValue: ] followed by the first 120 characters
    of that value, after as many regex executions as there are values up
    to and including that one, so no later attribute is scanned.  When no
    matched value has a bare ampersand (in particular when nothing
    matches), no ampersand defect is reported. *)
Theorem validator_flags_first_bare_ampersand (text : string) :
  (Exists bare_amp (defaultValues text) ->
   exists pre v post,
     defaultValues text = pre ++ v :: post /\
     Forall (fun u => ~ bare_amp u) pre /\
     bare_amp v /\
     validateManifestText_run text =
       Some (required_checks text
               ++ ["unescaped & in DefaultValue: " +:+ take 120 v],
             S (length pre)) /\
     filter (fun i => startsWith i "unescaped &" = true)
            (validateManifestText text) =
       ["unescaped & in DefaultValue: " +:+ take 120 v])
  /\
  (Forall (fun u => ~ bare_amp u) (defaultValues text) ->
   validateManifestText_run text =
     Some (required_checks text, S (length (defaultValues text))) /\
   filter (fun i => startsWith i "unescaped &" = true)
          (validateManifestText text) = []).
Proof.
  split.
  - intros Hex. destruct (first_bare_amp _ Hex) as [pre [v [post [Hd [Hpre Hv]]]]].
    exists pre, v, post. repeat split; try assumption.
    + rewrite validateManifestText_run_scan, Hd, scan_first by assumption.
      reflexivity.
    + rewrite validateManifestText_scan, Hd, scan_first by assumption.
      change (filter (fun i => amp_related i = true)
                (required_checks text ++ [amp_issue v]) = [amp_issue v]).
      rewrite filter_app, required_checks_not_amp. reflexivity.
  - intros Hall. split.
    + rewrite validateManifestText_run_scan, scan_clean by assumption.
      simpl. rewrite app_nil_r. reflexivity.
    + rewrite validateManifestText_scan, scan_clean by assumption.
      simpl. rewrite app_nil_r. apply required_checks_not_amp.
Qed.

Lemma validator_flags_first_bare_ampersand_witness :
  (exists pre v post,
     defaultValues two_attributes = pre ++ v :: post /\
     Forall (fun u => ~ bare_amp u) pre /\
     bare_amp v /\
     validateManifestText_run two_attributes =
       Some (required_checks two_attributes
               ++ ["unescaped & in DefaultValue: " +:+ take 120 v],
             S (length pre)) /\
     filter (fun i => startsWith i "unescaped &" = true)
            (validateManifestText two_attributes) =
       ["unescaped & in DefaultValue: " +:+ take 120 v])
  /\
  (validateManifestText_run escaped_attribute =
     Some (required_checks escaped_attribute,
           S (length (defaultValues escaped_attribute))) /\
   filter (fun i => startsWith i "unescaped &" = true)
          (validateManifestText escaped_attribute) = []).
Proof.
  split.
  - apply (proj1 (validator_flags_first_bare_ampersand two_attributes)).
    apply Exists_cons_tl, Exists_cons_hd, hasUnescapedAmp_spec.
    vm_compute. reflexivity.
  - apply (proj2 (validator_flags_first_bare_ampersand escaped_attribute)).
    repeat constructor. apply hasUnescapedAmp_false. vm_compute. reflexivity.
Defined.

(** C7: the three required-substring checks of the validator are all
    performed.  Each of [<OfficeApp], [<Id>] and [SourceLocation] that does
    not occur in the text contributes exactly one marker of its own, each
    one that occurs contributes none, and the list is not empty as soon as
    one is missing. *)
Theorem validator_marks_each_missing_substring (text : string) :
  let issues := validateManifestText text in
  (lacks "<OfficeApp" text -> marker_count "missing <OfficeApp>" issues = 1) /\
  (lacks "<Id>" text -> marker_count "missing <Id>" issues = 1) /\
  (lacks "SourceLocation" text -> marker_count "missing SourceLocation" issues = 1) /\
  (~ lacks "<OfficeApp" text -> marker_count "missing <OfficeApp>" issues = 0) /\
  (~ lacks "<Id>" text -> marker_count "missing <Id>" issues = 0) /\
  (~ lacks "SourceLocation" text -> marker_count "missing SourceLocation" issues = 0) /\
  (lacks "<OfficeApp" text \/ lacks "<Id>" text \/ lacks "SourceLocation" text ->
   issues <> []).
Proof.
  cbv zeta. rewrite validateManifestText_scan.
  rewrite !marker_count_app, !marker_count_scan by reflexivity.
  rewrite <- !includes_false. unfold required_checks.
  generalize (fst (scan (defaultValues text))). intros rest.
  destruct (includes text "<OfficeApp"), (includes text "<Id>"),
    (includes text "SourceLocation"); cbn;
    repeat split; try congruence;
    try (intros [H | [H | H]]; congruence); intros _; discriminate.
Qed.

Lemma validator_marks_each_missing_substring_witness :
  marker_count "missing <OfficeApp>" (validateManifestText "<root/>") = 1 /\
  marker_count "missing <Id>" (validateManifestText "<root/>") = 1 /\
  marker_count "missing SourceLocation" (validateManifestText "<root/>") = 1.
Proof.
  pose proof (validator_marks_each_missing_substring "<root/>") as H.
  cbv zeta in H. destruct H as [H1 [H2 [H3 _]]].
  split; [apply H1 | split; [apply H2 | apply H3]];
    apply includes_false; vm_compute; reflexivity.
Defined.

End ValidatorFacts.

(** ** Polling the health endpoint *)

Module HealthFacts.
Import Js JsNumber Os Script Spec.

Lemma count_fetches_app l l' :
  count_fetches (l ++ l') = count_fetches l + count_fetches l'.
Proof.
  induction l as [|ev l IH]; [reflexivity |].
  destruct ev; simpl; rewrite IH; reflexivity.
Qed.

Lemma fetches_app l l' : fetches (l ++ l') = fetches l ++ fetches l'.
Proof. apply omap_app. Qed.

Lemma sleeps_app l l' : sleeps (l ++ l') = sleeps l ++ sleeps l'.
Proof. apply omap_app. Qed.

Lemma fetches_failed_rounds url ms n :
  fetches (failed_rounds url ms n) = repeat url n.
Proof.
  induction n as [|n IH]; [reflexivity |].
  unfold failed_rounds in *. cbn [repeat concat].
  rewrite fetches_app, IH. reflexivity.
Qed.

Lemma sleeps_failed_rounds url ms n :
  sleeps (failed_rounds url ms n) = repeat ms n.
Proof.
  induction n as [|n IH]; [reflexivity |].
  unfold failed_rounds in *. cbn [repeat concat].
  rewrite sleeps_app, IH. reflexivity.
Qed.

Lemma sum_repeat ms n :
  fold_right Z.add 0%Z (repeat ms n) = (Z.of_nat n * ms)%Z.
Proof.
  induction n as [|n IH]; [reflexivity |].
  cbn [repeat fold_right]. rewrite IH. lia.
Qed.

Lemma total_wait_failed_rounds url ms n :
  total_wait (failed_rounds url ms n) = (Z.of_nat n * ms)%Z.
Proof. unfold total_wait. rewrite sleeps_failed_rounds. apply sum_repeat. Qed.

Section Loop.
Variable E : Env.
Variables (url : string) (waitMs : Z).

(** [n] attempts that all fail: [n] rounds, and the loop runs out. *)
Lemma waitForHealth_loop_fails n w :
  (forall j, j < n ->
             fetch_reply E (count_fetches (log w) + j) url <> Resolves true) ->
  waitForHealth_loop E url waitMs n w =
  (Ok false, mkWorld (fs w) (log w ++ failed_rounds url waitMs n)).
Proof.
  revert w. induction n as [|n IH]; intros w Hfail.
  - simpl. unfold ret, failed_rounds. simpl. rewrite app_nil_r.
    destruct w; reflexivity.
  - pose proof (Hfail 0 ltac:(lia)) as H0. rewrite Nat.add_0_r in H0.
    cbn [waitForHealth_loop]. unfold bind at 1. unfold fetch at 1.
    assert (forall w',
      fs w' = fs w -> log w' = (log w ++ [Fetch url]) ++ [Sleep waitMs] ->
      waitForHealth_loop E url waitMs n w' =
      (Ok false,
       mkWorld (fs w) (log w ++ failed_rounds url waitMs (S n)))) as Hnext.
    { intros w' Hfs Hlog. rewrite IH.
      - rewrite Hfs, Hlog. unfold failed_rounds. cbn [repeat concat].
        unfold failed_round at 2. rewrite <- !app_assoc. reflexivity.
      - intros j Hj. rewrite Hlog, !count_fetches_app. simpl.
        replace (count_fetches (log w) + 1 + 0 + j)
          with (count_fetches (log w) + S j) by lia.
        apply Hfail. lia. }
    destruct (fetch_reply E (count_fetches (log w)) url) as [[|]|];
      [congruence | |];
      unfold bind, sleep, syscall, ret; simpl; apply Hnext; reflexivity.
Qed.

(** [m] failed attempts and then a successful one, within the budget. *)
Lemma waitForHealth_loop_succeeds m n w :
  m < n ->
  (forall j, j < m ->
             fetch_reply E (count_fetches (log w) + j) url <> Resolves true) ->
  fetch_reply E (count_fetches (log w) + m) url = Resolves true ->
  waitForHealth_loop E url waitMs n w =
  (Ok true,
   mkWorld (fs w) (log w ++ failed_rounds url waitMs m ++ [Fetch url])).
Proof.
  revert n w. induction m as [|m IH]; intros n w Hmn Hfail Hok.
  - destruct n as [|n]; [lia |]. rewrite Nat.add_0_r in Hok.
    cbn [waitForHealth_loop]. unfold bind at 1. unfold fetch at 1.
    rewrite Hok. reflexivity.
  - destruct n as [|n]; [lia |].
    pose proof (Hfail 0 ltac:(lia)) as H0. rewrite Nat.add_0_r in H0.
    cbn [waitForHealth_loop]. unfold bind at 1. unfold fetch at 1.
    assert (forall w',
      fs w' = fs w -> log w' = (log w ++ [Fetch url]) ++ [Sleep waitMs] ->
      waitForHealth_loop E url waitMs n w' =
      (Ok true,
       mkWorld (fs w)
               (log w ++ failed_rounds url waitMs (S m) ++ [Fetch url])))
      as Hnext.
    { intros w' Hfs Hlog. rewrite (IH n w').
      - rewrite Hfs, Hlog. unfold failed_rounds. cbn [repeat concat].
        unfold failed_round at 2. rewrite <- !app_assoc. reflexivity.
      - lia.
      - intros j Hj. rewrite Hlog, !count_fetches_app. simpl.
        replace (count_fetches (log w) + 1 + 0 + j)
          with (count_fetches (log w) + S j) by lia.
        apply Hfail. lia.
      - rewrite Hlog, !count_fetches_app. simpl.
        replace (count_fetches (log w) + 1 + 0 + m)
          with (count_fetches (log w) + S m) by lia.
        exact Hok. }
    destruct (fetch_reply E (count_fetches (log w)) url) as [[|]|];
      [congruence | |];
      unfold bind, sleep, syscall, ret; simpl; apply Hnext; reflexivity.
Qed.

End Loop.

(** When every attempt of the budget fails, the poller throws after as
    many rounds as the budget has attempts. *)
Lemma waitForHealth_all_fail E url attempts delayMs w :
  (forall j, 1 <= j <= Z.to_nat (budget attempts) ->
             reply_to_attempt E w (value_toString url) j <> Resolves true) ->
  waitForHealth E url attempts delayMs w =
  (Throw (Error ("server not healthy at " +:+ value_toString url)),
   mkWorld (fs w)
           (log w ++ failed_rounds (value_toString url) (pause delayMs)
                                   (Z.to_nat (budget attempts)))).
Proof.
  intros Hfail. unfold waitForHealth. fold (budget attempts). fold (pause delayMs).
  unfold bind. rewrite waitForHealth_loop_fails; [reflexivity |].
  intros j Hj. specialize (Hfail (S j) ltac:(lia)). unfold reply_to_attempt in Hfail.
  replace (S j - 1) with j in Hfail by lia. exact Hfail.
Qed.

(** C3: a target that never answers with an ok response.  The poller
    issues exactly [maxAttempts] requests, pauses [waitMs] after each of
    them, the last one included, so that the pauses add up to
    [maxAttempts * waitMs], which is at least [(maxAttempts - 1) * delayMs],
    and then throws the error that names the URL. *)
Theorem waitForHealth_exhausts_budget
        (E : Env) (url : value) (attempts delayMs : Z) (w : World) :
  (0 <= attempts)%Z ->
  (0 <= delayMs)%Z ->
  (forall n, fetch_reply E n (value_toString url) <> Resolves true) ->
  exists new,
    waitForHealth E url attempts delayMs w =
      (Throw (Error ("server not healthy at " +:+ value_toString url)),
       mkWorld (fs w) (log w ++ new)) /\
    new = failed_rounds (value_toString url) (pause delayMs)
                        (Z.to_nat (budget attempts)) /\
    Z.of_nat (length (fetches new)) = budget attempts /\
    total_wait new = (budget attempts * pause delayMs)%Z /\
    ((budget attempts - 1) * delayMs <= total_wait new)%Z.
Proof.
  intros Ha Hd Hnever.
  assert (0 <= budget attempts)%Z as Hb
    by (unfold budget; destruct (attempts =? 0)%Z; lia).
  eexists. split; [|split; [reflexivity |]].
  - apply waitForHealth_all_fail. intros j _. apply Hnever.
  - rewrite fetches_failed_rounds, repeat_length, total_wait_failed_rounds.
    rewrite Z2Nat.id by exact Hb. split; [reflexivity |]. split; [reflexivity |].
    unfold pause. destruct (delayMs =? 0)%Z eqn:H0; [|nia].
    apply Z.eqb_eq in H0. subst delayMs. lia.
Qed.

Lemma waitForHealth_exhausts_budget_witness :
  exists new,
    waitForHealth (Scenario.env_replying (fun _ => Rejects))
                  (VStr "http://localhost:4321/api/health") 3 10
                  Scenario.empty_world =
      (Throw (Error "server not healthy at http://localhost:4321/api/health"),
       mkWorld (fs Scenario.empty_world) (log Scenario.empty_world ++ new)) /\
    new = failed_rounds "http://localhost:4321/api/health" 10 3 /\
    Z.of_nat (length (fetches new)) = 3%Z /\
    total_wait new = 30%Z /\
    (20 <= total_wait new)%Z.
Proof.
  apply (waitForHealth_exhausts_budget
           (Scenario.env_replying (fun _ => Rejects))
           (VStr "http://localhost:4321/api/health") 3 10
           Scenario.empty_world).
  - lia.
  - lia.
  - intros n. simpl. discriminate.
Defined.

(** C4: a target whose first ok response is the [k]-th, within the budget.
    The poller issues exactly [k] requests, with a pause after each of the
    [k - 1] failed ones and none after the last, and returns [true]. *)
Theorem waitForHealth_stops_at_first_success
        (E : Env) (url : value) (attempts delayMs : Z) (w : World) (k : nat) :
  1 <= k ->
  (Z.of_nat k <= budget attempts)%Z ->
  (forall j, 1 <= j < k ->
             reply_to_attempt E w (value_toString url) j <> Resolves true) ->
  reply_to_attempt E w (value_toString url) k = Resolves true ->
  exists new,
    waitForHealth E url attempts delayMs w =
      (Ok true, mkWorld (fs w) (log w ++ new)) /\
    new = failed_rounds (value_toString url) (pause delayMs) (k - 1)
            ++ [Fetch (value_toString url)] /\
    length (fetches new) = k /\
    length (sleeps new) = k - 1.
Proof.
  intros Hk Hb Hfail Hok. unfold reply_to_attempt in *.
  eexists. split; [|split; [reflexivity |]].
  - unfold waitForHealth. fold (budget attempts). fold (pause delayMs).
    unfold bind.
    rewrite (waitForHealth_loop_succeeds E _ _ (k - 1)).
    + reflexivity.
    + lia.
    + intros j Hj. specialize (Hfail (S j) ltac:(lia)).
      replace (S j - 1) with j in Hfail by lia. exact Hfail.
    + exact Hok.
  - rewrite fetches_app, sleeps_app, fetches_failed_rounds, sleeps_failed_rounds.
    rewrite !length_app, !repeat_length. simpl. lia.
Qed.

Lemma waitForHealth_stops_at_first_success_witness :
  exists new,
    waitForHealth (Scenario.env_replying
                     (fun n => if n <? 2 then Rejects else Resolves true))
                  (VStr "http://localhost:4321/api/health") 12 400
                  Scenario.empty_world =
      (Ok true,
       mkWorld (fs Scenario.empty_world) (log Scenario.empty_world ++ new)) /\
    new = failed_rounds "http://localhost:4321/api/health" 400 2
            ++ [Fetch "http://localhost:4321/api/health"] /\
    length (fetches new) = 3 /\
    length (sleeps new) = 2.
Proof.
  apply (waitForHealth_stops_at_first_success
           (Scenario.env_replying
              (fun n => if n <? 2 then Rejects else Resolves true))
           (VStr "http://localhost:4321/api/health") 12 400
           Scenario.empty_world 3).
  - lia.
  - unfold budget. simpl. lia.
  - intros j Hj. unfold reply_to_attempt. simpl.
    destruct (j - 1 <? 2) eqn:H; [discriminate |].
    apply Nat.ltb_ge in H. lia.
  - reflexivity.
Defined.

End HealthFacts.

(** ** Reclaiming the port: [killPidFile] and [killPort] *)

Module ReclaimFacts.
Import Js JsNumber Os Script Spec.

Lemma world_eta w : mkWorld (fs w) (log w) = w.
Proof. destruct w; reflexivity. Qed.

Lemma kills_app l l' : kills (l ++ l') = kills l ++ kills l'.
Proof. apply omap_app. Qed.

Lemma kills_map_Kill pids : kills (map Kill pids) = pids.
Proof. induction pids as [|p pids IH]; [reflexivity | simpl; f_equal; exact IH]. Qed.

Section Reclaim.
Variable E : Env.

Lemma fileExists_string p w :
  fileExists (VStr p) w =
  (Ok (bool_decide (is_Some (fs w !! p))),
   mkWorld (fs w) (log w ++ [Access p])).
Proof.
  unfold fileExists, try_catch, accessSync, bind, syscall, get_node, ret, throw.
  simpl. destruct (fs w !! p) as [n|] eqn:Hn; reflexivity.
Qed.

Lemma fileExists_not_string v w :
  (forall s, v <> VStr s) -> fileExists v w = (Ok false, w).
Proof.
  intros Hv. destruct v as [s| |l]; [exfalso; exact (Hv s eq_refl) | |];
    reflexivity.
Qed.

(** A pid file that does not exist: nothing is read, nothing is signalled. *)
Lemma killPidFile_missing_file p w :
  fs w !! p = None ->
  exists new,
    killPidFile E (VStr p) w = (Ok tt, mkWorld (fs w) (log w ++ new)) /\
    kills new = [].
Proof.
  intros Hp. unfold killPidFile. destruct (value_truthy (VStr p)); simpl.
  - unfold bind. rewrite fileExists_string, Hp.
    rewrite bool_decide_eq_false_2 by (intros [x Hx]; discriminate).
    simpl. exists [Access p]. split; reflexivity.
  - exists []. rewrite app_nil_r, world_eta. split; reflexivity.
Qed.

(** A pid file that exists and can be read: the signal goes to whatever
    finite number its trimmed content converts to. *)
Lemma killPidFile_existing_file p content w :
  is_nonempty p = true ->
  fs w !! p = Some (File content) ->
  io_fails E (S (length (log w))) = false ->
  killPidFile E (VStr p) w =
  (Ok tt,
   mkWorld (fs w)
           (log w ++ [Access p; ReadFile p] ++
            (if isFinite (StringToNumber (trim content))
             then [Kill (StringToNumber (trim content))] else []))).
Proof.
  intros Hne Hp Hio. unfold killPidFile. simpl. rewrite Hne. simpl.
  unfold bind at 1. rewrite fileExists_string, Hp.
  rewrite bool_decide_eq_true_2 by eauto. simpl.
  unfold readFileSync, io_check. unfold bind, syscall, get_node, ret, throw. simpl.
  rewrite length_app. simpl. rewrite Nat.add_1_r, Hio. simpl. rewrite Hp.
  destruct (isFinite (StringToNumber (trim content))); simpl.
  - unfold try_catch, process_kill. unfold bind, syscall, ret, throw. simpl.
    destruct (kill_throws E _ _); simpl; rewrite <- !app_assoc; reflexivity.
  - rewrite <- !app_assoc. reflexivity.
Qed.

(** A pid file whose content is not a number: no signal. *)
Lemma killPidFile_non_numeric_file p content w :
  is_nonempty p = true ->
  fs w !! p = Some (File content) ->
  io_fails E (S (length (log w))) = false ->
  StringToNumber (trim content) = NaN ->
  killPidFile E (VStr p) w =
  (Ok tt, mkWorld (fs w) (log w ++ [Access p; ReadFile p])).
Proof.
  intros Hne Hp Hio Hnan. rewrite (killPidFile_existing_file p content) by assumption.
  rewrite Hnan. reflexivity.
Qed.

(** A pid file that is empty, or holds only white space: [Number] of the
    empty string is 0, which is finite, so [process.kill(0)] is called. *)
Lemma killPidFile_blank_file p content w :
  is_nonempty p = true ->
  fs w !! p = Some (File content) ->
  io_fails E (S (length (log w))) = false ->
  trim content = EmptyString ->
  killPidFile E (VStr p) w =
  (Ok tt, mkWorld (fs w) (log w ++ [Access p; ReadFile p; Kill (Fin 0)])).
Proof.
  intros Hne Hp Hio Hblank. rewrite (killPidFile_existing_file p content) by assumption.
  rewrite Hblank. reflexivity.
Qed.

(** Each pid is signalled in turn, whether or not a signal fails. *)
Lemma kill_each pids w :
  forEach (fun pid => try_catch (process_kill E pid) (ret tt)) pids w =
  (Ok tt, mkWorld (fs w) (log w ++ map Kill pids)).
Proof.
  revert w. induction pids as [|pid pids IH]; intros w.
  - simpl. unfold ret. rewrite app_nil_r, world_eta. reflexivity.
  - cbn [forEach map]. unfold bind at 1.
    unfold try_catch, process_kill. unfold bind, syscall, ret, throw. simpl.
    destruct (kill_throws E _ _); simpl; rewrite IH; simpl;
      rewrite <- app_assoc; reflexivity.
Qed.

(** What [killPort] does, case by case. *)
Lemma killPort_cases port w :
  killPort E port w =
  (Ok tt,
   mkWorld (fs w)
     (log w ++
      if truthy port then
        ExecFile "lsof" (lsof_args E port) ::
        match exec_reply E (length (log w)) "lsof" (lsof_args E port) with
        | Some out =>
            if is_nonempty (trim out) then map Kill (listed_pids out) else []
        | None => []
        end
      else [])).
Proof.
  unfold killPort. destruct (truthy port); simpl.
  - unfold try_catch, bind at 1. unfold execFileSync. unfold bind, syscall, ret, throw.
    simpl. fold (lsof_args E port).
    destruct (exec_reply E (length (log w)) "lsof" (lsof_args E port)) as [out|];
      simpl; [|reflexivity].
    destruct (is_nonempty (trim out)); simpl; [|reflexivity].
    rewrite kill_each. simpl. rewrite <- app_assoc. reflexivity.
  - unfold ret. rewrite app_nil_r, world_eta. reflexivity.
Qed.

End Reclaim.

Example number_of_empty_string : StringToNumber EmptyString = Fin 0.
Proof. reflexivity. Qed.

Example number_of_words : StringToNumber "not-a-pid" = NaN.
Proof. vm_compute. reflexivity. Qed.

Example number_of_pid_line :
  StringToNumber ("4242" +:+ String lf EmptyString) = Fin 4242.
Proof. vm_compute. reflexivity. Qed.

Example killPidFile_words_file :
  killPidFile Scenario.quiet_env (VStr Scenario.pid_file)
              (mkWorld {[ Scenario.pid_file := File "not-a-pid" ]} []) =
  (Ok tt,
   mkWorld {[ Scenario.pid_file := File "not-a-pid" ]}
           [Access Scenario.pid_file; ReadFile Scenario.pid_file]).
Proof.
  apply (killPidFile_non_numeric_file Scenario.quiet_env Scenario.pid_file
           "not-a-pid"); reflexivity.
Qed.

(** C1 (the empty file): [killPidFile] on an existing, empty pid file
    completes without error but calls [process.kill(0)]. *)
Theorem killPidFile_empty_file_signals_pid_0 :
  killPidFile Scenario.quiet_env (VStr Scenario.pid_file)
              Scenario.world_with_empty_pid_file =
  (Ok tt,
   mkWorld (fs Scenario.world_with_empty_pid_file)
           [Access Scenario.pid_file; ReadFile Scenario.pid_file; Kill (Fin 0)]).
Proof.
  apply (killPidFile_blank_file Scenario.quiet_env Scenario.pid_file EmptyString
           Scenario.world_with_empty_pid_file); reflexivity.
Qed.

(** C9: [killPort] returns normally for every port, on every host and in
    every world: a failing [lsof], output that is no pid, and failing
    signals all end in a normal return, and no file is touched. *)
Theorem killPort_never_throws (E : Env) (port : jsnum) (w : World) :
  exists new, killPort E port w = (Ok tt, mkWorld (fs w) (log w ++ new)).
Proof. eexists. apply killPort_cases. Qed.

End ReclaimFacts.

(** ** The command line and the resolved configuration *)

Module ConfigFacts.
Import Js JsFacts JsNumber Os Script Spec.

Lemma set_prop_truthy out key v :
  all_truthy out -> value_truthy v = true -> all_truthy (set_prop out key v).
Proof.
  intros Hout Hv k u. unfold set_prop.
  destruct (String.eqb key "__proto__"); [apply Hout |].
  destruct (decide (key = k)) as [->|Hne].
  - rewrite lookup_insert_eq. intros [= <-]. exact Hv.
  - rewrite lookup_insert_ne by exact Hne. apply Hout.
Qed.

Lemma parseArgs_loop_truthy n :
  forall args out res,
    length args <= n ->
    all_truthy out ->
    parseArgs_loop args out = Ok res ->
    all_truthy res.
Proof.
  induction n as [|n IH]; intros args out res Hlen Hout Hres.
  - destruct args; [|simpl in Hlen; lia]. simpl in Hres.
    injection Hres as <-. exact Hout.
  - destruct args as [|token rest];
      [simpl in Hres; injection Hres as <-; exact Hout |].
    simpl in Hlen. cbn [parseArgs_loop] in Hres.
    destruct (startsWith token "--").
    + destruct rest as [|next rest'].
      * simpl in Hres. injection Hres as <-.
        apply set_prop_truthy; [exact Hout | reflexivity].
      * destruct (is_nonempty next && negb (startsWith next "--")) eqn:Hc.
        -- apply andb_true_iff in Hc. destruct Hc as [Hne _].
           eapply IH; [| | exact Hres]; [simpl in Hlen; lia |].
           apply set_prop_truthy; [exact Hout | exact Hne].
        -- eapply IH; [| | exact Hres]; [lia |].
           apply set_prop_truthy; [exact Hout | reflexivity].
    + destruct (out !! "_") as [[s| |l]|] eqn:Hu; try discriminate.
      eapply IH; [| | exact Hres]; [lia |].
      intros k v. destruct (decide ("_" = k)) as [<-|Hne].
      * rewrite lookup_insert_eq. intros [= <-]. reflexivity.
      * rewrite lookup_insert_ne by exact Hne. apply Hout.
Qed.

(** [parseArgs] never stores an empty string: a flag followed by an empty
    token is stored as [true]. *)
Lemma parseArgs_truthy argv args : parseArgs argv = Ok args -> all_truthy args.
Proof.
  unfold parseArgs. apply (parseArgs_loop_truthy (length argv)); [lia |].
  intros k v. destruct (decide ("_" = k)) as [<-|Hne].
  - rewrite lookup_singleton_eq. intros [= <-]. reflexivity.
  - rewrite lookup_singleton_ne by exact Hne. discriminate.
Qed.

(** *** Which keys the parsed command line has *)

Lemma set_prop_is_Some out key v k :
  k <> "__proto__" ->
  is_Some (set_prop out key v !! k) <-> key = k \/ is_Some (out !! k).
Proof.
  intros Hk. unfold set_prop. destruct (String.eqb key "__proto__") eqn:Hp.
  - apply String.eqb_eq in Hp. subst key. split; [tauto |].
    intros [H | H]; [congruence | exact H].
  - destruct (decide (key = k)) as [->|Hne].
    + rewrite lookup_insert_eq. split; [tauto | eauto].
    + rewrite lookup_insert_ne by exact Hne. tauto.
Qed.

Lemma flag_token token k :
  startsWith token "--" = true -> (token = "--" +:+ k <-> drop 2 token = k).
Proof.
  intros H. apply startsWith_spec in H. destruct H as [rest ->].
  cbv [String.append drop].
  split; [intros [= ->]; reflexivity | intros ->; reflexivity].
Qed.

Lemma not_flag_token token k : startsWith token "--" = false -> token <> "--" +:+ k.
Proof.
  intros H ->. cbv in H. discriminate.
Qed.

Lemma parseArgs_loop_keys k n :
  k <> "_" -> k <> "__proto__" ->
  forall args out res,
    length args <= n ->
    parseArgs_loop args out = Ok res ->
    (is_Some (res !! k) <-> is_Some (out !! k) \/ In ("--" +:+ k) args).
Proof.
  intros Hu Hp. induction n as [|n IH]; intros args out res Hlen Hres.
  - destruct args; [|simpl in Hlen; lia]. simpl in Hres.
    injection Hres as <-. cbn [In]. tauto.
  - destruct args as [|token rest];
      [simpl in Hres; injection Hres as <-; cbn [In]; tauto |].
    simpl in Hlen. cbn [parseArgs_loop] in Hres.
    destruct (startsWith token "--") eqn:Htok.
    + pose proof (flag_token token k Htok) as Hflag.
      destruct rest as [|next rest'].
      * cbn [parseArgs_loop] in Hres. injection Hres as <-.
        rewrite set_prop_is_Some by exact Hp. cbn [In]. tauto.
      * destruct (is_nonempty next && negb (startsWith next "--")) eqn:Hc.
        -- apply andb_true_iff in Hc. destruct Hc as [_ Hnext].
           apply negb_true_iff in Hnext.
           pose proof (not_flag_token next k Hnext) as Hno.
           rewrite (IH rest' _ res ltac:(simpl in Hlen; lia) Hres).
           rewrite set_prop_is_Some by exact Hp. cbn [In]. tauto.
        -- rewrite (IH (next :: rest') _ res ltac:(lia) Hres).
           rewrite set_prop_is_Some by exact Hp. cbn [In]. tauto.
    + pose proof (not_flag_token token k Htok) as Hno.
      destruct (out !! "_") as [[s| |l]|] eqn:Hl; try discriminate.
      rewrite (IH rest _ res ltac:(lia) Hres).
      rewrite lookup_insert_ne by congruence. cbn [In]. tauto.
Qed.

(** The parsed command line has the key [k] exactly when [--k] is one of
    the arguments. *)
Lemma parseArgs_keys argv args k :
  k <> "_" -> k <> "__proto__" ->
  parseArgs argv = Ok args ->
  (is_Some (args !! k) <-> In ("--" +:+ k) argv).
Proof.
  intros Hu Hp Hres. unfold parseArgs in Hres.
  rewrite (parseArgs_loop_keys k (length argv) Hu Hp argv _ args (le_n _) Hres).
  rewrite lookup_singleton_ne by congruence. split; [|tauto].
  intros [[x Hx] | H]; [discriminate | exact H].
Qed.

Lemma parseArgs_missing argv args k :
  k <> "_" -> k <> "__proto__" ->
  parseArgs argv = Ok args ->
  ~ In ("--" +:+ k) argv -> args !! k = None.
Proof.
  intros Hu Hp Hres Hno. destruct (args !! k) as [v|] eqn:Hv; [|reflexivity].
  exfalso. apply Hno. apply (parseArgs_keys argv args k Hu Hp Hres). eauto.
Qed.

Lemma path_resolve_nonempty cwd p : is_nonempty (path_resolve cwd p) = true.
Proof.
  unfold path_resolve.
  destruct (startsWith p "/"); [reflexivity |].
  destruct (is_nonempty cwd); [destruct (startsWith cwd "/"); [reflexivity |] |];
    cbv zeta beta iota;
    match goal with
    | |- context [normalizeString ?a ?b] =>
        destruct (normalizeString a b); reflexivity
    end.
Qed.

Lemma path_resolve_absolute cwd p :
  startsWith p "/" = true -> path_resolve cwd p = path_resolve EmptyString p.
Proof. intros Hp. unfold path_resolve. rewrite Hp. reflexivity. Qed.

Section Resolve.
Variable E : Env.

(** What a configuration that has been resolved is made of. *)
Lemma resolveConfig_Ok args c :
  resolveConfig E args = Ok c ->
  exists mp app pp lp,
    match args !! "manifest" with
    | Some v =>
        if value_truthy v
        then exists p, resolve E (value_toString v) = Ok p /\ mp = Some p
        else mp = None
    | None => mp = None
    end /\
    value_or (args !! "app") (VStr "word") = VStr app /\
    or_in_cache E (args !! "pid-file") "server.pid" = Ok pp /\
    or_in_cache E (args !! "log-file") "server.log" = Ok lp /\
    manifestPath c = mp /\
    appValue c = toLowerCase app /\
    pidPath c = pp /\
    logPath c = lp /\
    sideload c = boolArg args "sideload" (path_given mp) /\
    restart c = boolArg args "restart" (sideload c) /\
    clearCache c = boolArg args "clear-cache" false /\
    validate c = boolArg args "validate" true /\
    health c = boolArg args "health" true /\
    killPortFlag c = boolArg args "kill-port" true.
Proof.
  unfold resolveConfig.
  set (m := match args !! "manifest" with
            | Some v =>
                if value_truthy v
                then and_then (resolve E (value_toString v))
                       (fun p => Ok (Some p))
                else Ok None
            | None => Ok None
            end).
  assert (forall mp, m = Ok mp ->
            match args !! "manifest" with
            | Some v =>
                if value_truthy v
                then exists p, resolve E (value_toString v) = Ok p /\ mp = Some p
                else mp = None
            | None => mp = None
            end) as Hm.
  { subst m. intros mp. destruct (args !! "manifest") as [v|];
      [destruct (value_truthy v) |]; try (intros [= <-]; reflexivity).
    destruct (resolve E (value_toString v)) as [p|e]; [|discriminate].
    intros [= <-]. exists p. split; reflexivity. }
  destruct m as [mp|e]; [|discriminate]. specialize (Hm mp eq_refl).
  cbn [and_then].
  destruct (value_or (args !! "app") (VStr "word")) as [app| |l];
    [|discriminate | discriminate].
  destruct (or_in_cache E (args !! "pid-file") "server.pid") as [pp|e];
    [|discriminate].
  destruct (or_in_cache E (args !! "log-file") "server.log") as [lp|e];
    [|discriminate].
  cbn [and_then]. intros [= <-]. exists mp, app, pp, lp. cbn.
  repeat split; try reflexivity. exact Hm.
Qed.

(** The directory [path.resolve] starts from, when it needs one. *)
Lemma resolve_Ok p q :
  resolve E p = Ok q ->
  q = path_resolve (default EmptyString (cwd E)) p.
Proof.
  unfold resolve, process_cwd. destruct (startsWith p "/") eqn:Hp.
  - intros [= <-]. symmetry. apply path_resolve_absolute. exact Hp.
  - destruct (cwd E) as [d|]; [|discriminate]. intros [= <-]. reflexivity.
Qed.

Lemma resolveConfig_manifestPath args c :
  resolveConfig E args = Ok c ->
  manifestPath c =
  match args !! "manifest" with
  | Some v => if value_truthy v
              then Some (path_resolve (default EmptyString (cwd E))
                           (value_toString v))
              else None
  | None => None
  end.
Proof.
  intros Hc. destruct (resolveConfig_Ok args c Hc)
    as (mp & app & pp & lp & Hm & _ & _ & _ & -> & _).
  destruct (args !! "manifest") as [v|]; [|exact Hm].
  destruct (value_truthy v); [|exact Hm].
  destruct Hm as (p & Hp & ->). rewrite (resolve_Ok _ _ Hp). reflexivity.
Qed.

Lemma resolveConfig_sideload args c :
  resolveConfig E args = Ok c ->
  sideload c = boolArg args "sideload" (path_given (manifestPath c)).
Proof.
  intros Hc. destruct (resolveConfig_Ok args c Hc)
    as (mp & app & pp & lp & _ & _ & _ & _ & -> & _ & _ & _ & H & _).
  exact H.
Qed.

Lemma resolveConfig_restart args c :
  resolveConfig E args = Ok c ->
  restart c = boolArg args "restart" (sideload c).
Proof.
  intros Hc. destruct (resolveConfig_Ok args c Hc)
    as (mp & app & pp & lp & _ & _ & _ & _ & _ & _ & _ & _ & _ & H & _).
  exact H.
Qed.

Lemma resolveConfig_validate args c :
  resolveConfig E args = Ok c -> validate c = boolArg args "validate" true.
Proof.
  intros Hc. destruct (resolveConfig_Ok args c Hc)
    as (mp & app & pp & lp & _ & _ & _ & _ & _ & _ & _ & _ & _ & _ & _ & H & _).
  exact H.
Qed.

Lemma resolveConfig_killPortFlag args c :
  resolveConfig E args = Ok c -> killPortFlag c = boolArg args "kill-port" true.
Proof.
  intros Hc. destruct (resolveConfig_Ok args c Hc)
    as (mp & app & pp & lp & _ & _ & _ & _ & _ & _ & _ & _ & _ & _ & _ & _ & _ & H).
  exact H.
Qed.

(** The manifest path is set exactly when the command line has a
    [--manifest] entry. *)
Lemma manifest_given argv args c :
  parseArgs argv = Ok args ->
  resolveConfig E args = Ok c ->
  path_given (manifestPath c) = bool_decide (is_Some (args !! "manifest")).
Proof.
  intros Hp Hc. rewrite (resolveConfig_manifestPath _ _ Hc).
  pose proof (parseArgs_truthy _ _ Hp "manifest") as Ht.
  destruct (args !! "manifest") as [v|]; [|reflexivity].
  rewrite (Ht v eq_refl). simpl. apply path_resolve_nonempty.
Qed.

End Resolve.

(** C5: the defaults of the install and restart flags.  With no
    [--sideload] argument, [sideload] is true exactly when a [--manifest]
    argument is there; with no [--restart] argument, [restart] is the
    resolved [sideload].  So a manifest alone gives true and true, and none
    of the three gives false and false. *)
Theorem install_and_restart_defaults
        (E : Env) (argv : list string) (args : gmap string value) (c : Config) :
  parseArgs argv = Ok args ->
  resolveConfig E args = Ok c ->
  (~ In "--sideload" argv -> (sideload c = true <-> In "--manifest" argv)) /\
  (~ In "--restart" argv -> restart c = sideload c) /\
  (~ In "--sideload" argv -> ~ In "--restart" argv ->
   In "--manifest" argv -> sideload c = true /\ restart c = true) /\
  (~ In "--sideload" argv -> ~ In "--restart" argv ->
   ~ In "--manifest" argv -> sideload c = false /\ restart c = false).
Proof.
  intros Hp Hc.
  pose proof (manifest_given E _ _ _ Hp Hc) as Hm.
  pose proof (resolveConfig_sideload E _ _ Hc) as Hs.
  pose proof (resolveConfig_restart E _ _ Hc) as Hr.
  pose proof (parseArgs_keys argv args "manifest"
                ltac:(discriminate) ltac:(discriminate) Hp) as Hkey.
  assert (~ In "--sideload" argv ->
          (sideload c = true <-> In "--manifest" argv)) as H1.
  { intros Hno.
    pose proof (parseArgs_missing argv args "sideload"
                  ltac:(discriminate) ltac:(discriminate) Hp Hno) as Hnone.
    rewrite Hs. unfold boolArg. rewrite Hnone, Hm, <- Hkey.
    apply bool_decide_eq_true. }
  assert (~ In "--restart" argv -> restart c = sideload c) as H2.
  { intros Hno.
    pose proof (parseArgs_missing argv args "restart"
                  ltac:(discriminate) ltac:(discriminate) Hp Hno) as Hnone.
    rewrite Hr. unfold boolArg. rewrite Hnone. reflexivity. }
  split; [exact H1 |]. split; [exact H2 |]. split.
  - intros Hs0 Hr0 Hgiven. rewrite (H2 Hr0). split; apply (H1 Hs0); exact Hgiven.
  - intros Hs0 Hr0 Hnone. rewrite (H2 Hr0).
    assert (sideload c <> true) as Hf.
    { intros Ht. apply (H1 Hs0) in Ht. contradiction. }
    destruct (sideload c); [congruence | split; reflexivity].
Qed.

Lemma install_and_restart_defaults_witness :
  exists c,
    config_of Scenario.quiet_env manifest_only = Some c /\
    sideload c = true /\ restart c = true.
Proof.
  destruct (resolveConfig Scenario.quiet_env (args_of manifest_only))
    as [c|e] eqn:Hc; [|vm_compute in Hc; discriminate].
  exists c. split; [unfold config_of; rewrite Hc; reflexivity |].
  assert (parseArgs manifest_only = Ok (args_of manifest_only)) as Hp
    by (vm_compute; reflexivity).
  destruct (install_and_restart_defaults Scenario.quiet_env manifest_only
              (args_of manifest_only) c Hp Hc) as [_ [_ [H _]]].
  apply H.
  - simpl. intros [H1 | [H1 | []]]; discriminate.
  - simpl. intros [H1 | [H1 | []]]; discriminate.
  - simpl. left. reflexivity.
Defined.

End ConfigFacts.

(** ** The orchestrator *)

Module OrchestratorFacts.
Import Js JsFacts JsNumber Os Script Spec.

Section Steps.
Variable E : Env.

Lemma call_calls {A} f (m : M A) r :
  calls (snd (call f m r)) = calls r ++ [f].
Proof. unfold call. destruct (m (world r)); reflexivity. Qed.

Lemma call_run {A} f (m : M A) r :
  call f m r = (fst (m (world r)), mkRun (calls r ++ [f]) (snd (m (world r)))).
Proof. unfold call. destruct (m (world r)); reflexivity. Qed.

Lemma step_validate_calls c r :
  calls (snd (step_validate E c r)) = calls r ++ validate_calls c.
Proof.
  unfold step_validate, validate_calls, path_given.
  destruct (manifestPath c) as [p|]; simpl.
  - destruct (is_nonempty p && validate c); [apply call_calls |].
    simpl. rewrite app_nil_r. reflexivity.
  - rewrite app_nil_r. reflexivity.
Qed.

Lemma step_clearCache_calls c r :
  calls (snd (step_clearCache E c r)) = calls r ++ clearCache_calls c.
Proof.
  unfold step_clearCache, clearCache_calls.
  destruct (clearCache c); [apply call_calls |].
  simpl. rewrite app_nil_r. reflexivity.
Qed.

Lemma step_sideload_calls c r :
  calls (snd (step_sideload E c r)) = calls r ++ sideload_calls c.
Proof.
  unfold step_sideload, sideload_calls, path_given.
  destruct (sideload c); simpl; [|rewrite app_nil_r; reflexivity].
  destruct (manifestPath c) as [p|]; simpl; [|rewrite app_nil_r; reflexivity].
  destruct (is_nonempty p); [apply call_calls |].
  simpl. rewrite app_nil_r. reflexivity.
Qed.

Lemma step_reclaim_calls c r :
  calls (snd (step_reclaim E c r)) = calls r ++ reclaim_calls c.
Proof.
  unfold step_reclaim, reclaim_calls.
  destruct (killPortFlag c); apply call_calls.
Qed.

Lemma step_launch_calls c r :
  calls (snd (step_launch E c r)) = calls r ++ [F_startServerDetached].
Proof.
  unfold step_launch.
  pose proof (call_calls F_startServerDetached
                (startServerDetached E (serverCmd c) (pidPath c) (logPath c)) r)
    as H.
  destruct (call F_startServerDetached _ r) as [[pid|e] r']; [exact H |].
  destruct (child_lost E _ _); exact H.
Qed.

Lemma step_health_calls c r :
  calls (snd (step_health E c r)) = calls r ++ health_calls c.
Proof.
  unfold step_health, health_calls. destruct (health c).
  - unfold bind. rewrite call_run.
    destruct (fst (waitForHealth E (healthUrl c) 12 400 (world r))); reflexivity.
  - simpl. rewrite app_nil_r. reflexivity.
Qed.

Lemma step_restart_calls c r :
  calls (snd (step_restart E c r)) = calls r ++ restart_calls c.
Proof.
  unfold step_restart, restart_calls.
  destruct (restart c); [apply call_calls |].
  simpl. rewrite app_nil_r. reflexivity.
Qed.

Lemma step_report_calls c pid r :
  calls (snd (step_report E c pid r)) = calls r.
Proof. reflexivity. Qed.

(** The calls of the blocks after the launch: those of the health block
    when the run stops in it, those of the health and restart blocks
    otherwise. *)
Lemma after_launch_calls c pid r :
  exists k,
    6 <= k <= 7 /\
    calls (snd (after_launch E c pid r)) =
      calls r ++ concat (skipn 5 (firstn k (block_calls c))) /\
    (forall x, fst (after_launch E c pid r) = Ok x -> k = 7).
Proof.
  unfold after_launch. destruct (child_failed c pid).
  - unfold doomed_steps, then_child_error.
    destruct (health c) eqn:Hh.
    + exists 6. split; [lia |]. split; [|discriminate].
      cbn [fst snd firstn skipn block_calls concat].
      unfold health_calls. rewrite Hh, app_nil_r. apply call_calls.
    + exists 7. split; [lia |]. split; [|discriminate].
      cbn [fst snd firstn skipn block_calls concat].
      unfold health_calls. rewrite Hh. cbn [app]. rewrite app_nil_r.
      unfold bind. pose proof (step_restart_calls c r) as H7.
      destruct (step_restart E c r) as [[[]|e7] r7]; exact H7.
  - unfold bind.
    pose proof (step_health_calls c r) as H6.
    destruct (step_health E c r) as [[[]|e6] r6]; simpl in H6.
    2:{ exists 6. split; [lia |]. split; [|discriminate].
        cbn [fst snd firstn skipn block_calls concat].
        rewrite app_nil_r. exact H6. }
    pose proof (step_restart_calls c r6) as H7.
    destruct (step_restart E c r6) as [[[]|e7] r7]; simpl in H7;
      exists 7; (split; [lia |]); (split; [|reflexivity]);
      cbn [fst snd firstn skipn block_calls concat];
      rewrite ?step_report_calls, app_nil_r, H7, H6, <- app_assoc; reflexivity.
Qed.

(** The trace of a run of the blocks: the calls of the first [k] blocks,
    where [k] counts the blocks reached; all seven when [main] returns, at
    least four when the blocks before the reclamation raise nothing, and
    at most three when one of them raises an error. *)
Lemma main_steps_calls c r :
  exists k,
    calls (snd (main_steps E c r)) = calls r ++ concat (firstn k (block_calls c)) /\
    (forall x, fst (main_steps E c r) = Ok x -> k = 7) /\
    (forall r3, before_reclaim E c r = (Ok tt, r3) -> 4 <= k) /\
    (forall e r3, before_reclaim E c r = (Throw e, r3) -> k <= 3).
Proof.
  unfold main_steps, before_reclaim, bind.
  pose proof (step_validate_calls c r) as H1.
  destruct (step_validate E c r) as [[[]|e1] r1]; simpl in H1;
    [|exists 1; simpl; rewrite app_nil_r; split; [exact H1 |];
      split; [discriminate |];
      split; [intros r3; discriminate | intros; lia]].
  pose proof (step_clearCache_calls c r1) as H2.
  destruct (step_clearCache E c r1) as [[[]|e2] r2]; simpl in H2;
    [|exists 2; simpl; rewrite app_nil_r, H2, H1, <- app_assoc;
      split; [reflexivity |]; split; [discriminate |];
      split; [intros r3; discriminate | intros; lia]].
  pose proof (step_sideload_calls c r2) as H3.
  destruct (step_sideload E c r2) as [[[]|e3] r3]; simpl in H3;
    [|exists 3; simpl; rewrite app_nil_r, H3, H2, H1, <- !app_assoc;
      split; [reflexivity |]; split; [discriminate |];
      split; [intros r3'; discriminate | intros; lia]].
  pose proof (step_reclaim_calls c r3) as H4.
  destruct (step_reclaim E c r3) as [[[]|e4] r4]; simpl in H4;
    [|exists 4; simpl; rewrite app_nil_r, H4, H3, H2, H1, <- !app_assoc;
      split; [reflexivity |]; split; [discriminate |];
      split; [intros; lia | intros; discriminate]].
  pose proof (step_launch_calls c r4) as H5.
  destruct (step_launch E c r4) as [[pid|e5] r5]; simpl in H5;
    [|exists 5; simpl; rewrite H5, H4, H3, H2, H1, <- !app_assoc;
      split; [reflexivity |]; split; [discriminate |];
      split; [intros; lia | intros; discriminate]].
  destruct (after_launch_calls c pid r5) as (k & Hk & Hcalls & Hdone).
  exists k. split.
  - rewrite Hcalls, H5, H4, H3, H2, H1, <- !app_assoc.
    do 5 f_equal.
    assert (firstn k (block_calls c)
            = firstn 5 (block_calls c)
                ++ skipn 5 (firstn k (block_calls c))) as ->.
    { rewrite <- (firstn_skipn 5 (firstn k (block_calls c))) at 1.
      rewrite firstn_firstn, Nat.min_l by lia. reflexivity. }
    rewrite concat_app. cbn [firstn block_calls concat].
    rewrite app_nil_r, <- !app_assoc. reflexivity.
  - split; [exact Hdone |]. split; [intros; lia | intros; discriminate].
Qed.

End Steps.

(** What the first [k] blocks can contribute to the trace. *)
Lemma blocks_reclaim c k :
  let d := concat (firstn k (block_calls c)) in
  count_calls is_reclaim d <= 1 /\
  (In F_killPort d -> killPortFlag c = true) /\
  (In F_killPidFile d -> killPortFlag c = false) /\
  (In F_startServerDetached d -> count_calls is_reclaim d = 1) /\
  (4 <= k -> count_calls is_reclaim d = 1) /\
  (k <= 3 -> count_calls is_reclaim d = 0).
Proof.
  unfold block_calls, validate_calls, clearCache_calls, sideload_calls,
    reclaim_calls, health_calls, restart_calls.
  destruct (path_given (manifestPath c) && validate c), (clearCache c),
    (sideload c && path_given (manifestPath c)), (killPortFlag c),
    (health c), (restart c);
    destruct k as [|[|[|[|[|[|[|k]]]]]]]; cbn [firstn];
    rewrite ?firstn_nil; cbn;
    (split; [lia |]);
    (split; [intros H; try reflexivity; intuition discriminate |]);
    (split; [intros H; try reflexivity; intuition discriminate |]);
    (split; [intros H; try reflexivity; intuition discriminate |]);
    (split; [intros H; try reflexivity; lia |]);
    intros H; try reflexivity; lia.
Qed.

(** C2, as the code has it: a run attempts at most one of the two
    reclamation mechanisms and never both, [killPort] only when the
    kill-port flag is true and [killPidFile] only when it is false; it
    attempts exactly one as soon as it gets as far as the reclamation,
    that is when its command line is parsed, it is no help request and
    neither the configuration nor the blocks before raise an error; and a
    run that does not get that far attempts neither. *)
Theorem reclaim_at_most_once_and_by_flag
        (E : Env) (argv : list string) (r : Run) :
  exists d,
    calls (snd (main E argv r)) = calls r ++ d /\
    count_calls is_reclaim d <= 1 /\
    ~ (In F_killPort d /\ In F_killPidFile d) /\
    (forall args c,
       parseArgs argv = Ok args -> resolveConfig E args = Ok c ->
       (In F_killPort d -> killPortFlag c = true) /\
       (In F_killPidFile d -> killPortFlag c = false)) /\
    (In F_startServerDetached d -> count_calls is_reclaim d = 1) /\
    (forall args c r3,
       parseArgs argv = Ok args -> help_requested args = false ->
       resolveConfig E args = Ok c ->
       before_reclaim E c r = (Ok tt, r3) ->
       count_calls is_reclaim d = 1) /\
    (~ reaches_reclaim E argv r -> count_calls is_reclaim d = 0).
Proof.
  unfold main, bind, of_result, reaches_reclaim.
  destruct (parseArgs argv) as [args|e].
  2:{ exists []. simpl. rewrite app_nil_r.
      repeat split; try discriminate; try tauto; try lia. }
  destruct (help_requested args) eqn:Hh.
  { exists []. simpl. rewrite app_nil_r.
    repeat split; try tauto; try lia.
    intros args' c' r3 [= <-]. congruence. }
  destruct (resolveConfig E args) as [c|e] eqn:Hc.
  2:{ exists []. simpl. rewrite app_nil_r.
      repeat split; try tauto; try lia.
      intros args' c' r3 [= <-]. congruence. }
  destruct (main_steps_calls E c r) as [k [Hk [_ [Hreach Hstop]]]].
  destruct (blocks_reclaim c k) as [Hle [Hport [Hpid [Hstart [Hfour Hthree]]]]].
  exists (concat (firstn k (block_calls c))).
  split; [exact Hk |]. split; [exact Hle |]. split.
  { intros [Ha Hb]. rewrite (Hport Ha) in Hpid. specialize (Hpid Hb). discriminate. }
  split.
  { intros args' c' [= <-] Hc'. rewrite Hc in Hc'. injection Hc' as <-.
    split; assumption. }
  split; [exact Hstart |]. split.
  { intros args' c' r3 [= <-] _ Hc' Hbefore. rewrite Hc in Hc'.
    injection Hc' as <-. apply Hfour. exact (Hreach r3 Hbefore). }
  intros Hnot. apply Hthree.
  destruct (before_reclaim E c r) as [[[]|e] r3] eqn:Hbefore.
  - exfalso. apply Hnot. exists args, c, r3. repeat split; assumption.
  - exact (Hstop e r3 eq_refl).
Qed.

Section Abort.
Variable E : Env.

Lemma main_steps_split c r :
  main_steps E c r =
  match up_to_launch E c r with
  | (Ok pid, r5) => after_launch E c pid r5
  | (Throw e, r5) => (Throw e, r5)
  end.
Proof.
  unfold main_steps, up_to_launch, bind.
  destruct (step_validate E c r) as [[[]|e1] r1]; [|reflexivity].
  destruct (step_clearCache E c r1) as [[[]|e2] r2]; [|reflexivity].
  destruct (step_sideload E c r2) as [[[]|e3] r3]; [|reflexivity].
  destruct (step_reclaim E c r3) as [[[]|e4] r4]; [|reflexivity].
  destruct (step_launch E c r4) as [[pid|e5] r5]; reflexivity.
Qed.

Lemma up_to_launch_calls c r pid r5 :
  up_to_launch E c r = (Ok pid, r5) ->
  calls r5 = calls r ++ concat (firstn 5 (block_calls c)).
Proof.
  unfold up_to_launch, bind.
  pose proof (step_validate_calls E c r) as H1.
  destruct (step_validate E c r) as [[[]|e1] r1]; [|discriminate].
  pose proof (step_clearCache_calls E c r1) as H2.
  destruct (step_clearCache E c r1) as [[[]|e2] r2]; [|discriminate].
  pose proof (step_sideload_calls E c r2) as H3.
  destruct (step_sideload E c r2) as [[[]|e3] r3]; [|discriminate].
  pose proof (step_reclaim_calls E c r3) as H4.
  destruct (step_reclaim E c r3) as [[[]|e4] r4]; [|discriminate].
  pose proof (step_launch_calls E c r4) as H5.
  destruct (step_launch E c r4) as [[pid'|e5] r5']; [|discriminate].
  intros [= <- <-]. simpl in *.
  rewrite H5, H4, H3, H2, H1, <- !app_assoc. reflexivity.
Qed.

Lemma no_restart_before_health c :
  ~ In F_restartApps (concat (firstn 5 (block_calls c)) ++ [F_waitForHealth]).
Proof.
  unfold block_calls, validate_calls, clearCache_calls, sideload_calls,
    reclaim_calls.
  destruct (path_given (manifestPath c) && validate c), (clearCache c),
    (sideload c && path_given (manifestPath c)), (killPortFlag c);
    cbn; intuition discriminate.
Qed.

End Abort.

(** C8: the health check fails for good.  Once the blocks up to the
    launch have run, with a child that was created when a server command
    was given, and all twelve attempts of the poll fail, the run exits
    with code 1 after writing the message that names the URL; the poll is
    the last call of the run, so the restart is not executed; and the
    files are as the launch left them, the log being only extended by the
    twelve rounds and the message: nothing is rolled back. *)
Theorem failed_health_check_aborts_before_restart
        (E : Env) (argv : list string) (args : gmap string value)
        (c : Config) (r : Run) (pid : option Z) (r5 : Run) :
  parseArgs argv = Ok args ->
  help_requested args = false ->
  resolveConfig E args = Ok c ->
  up_to_launch E c r = (Ok pid, r5) ->
  child_failed c pid = false ->
  health c = true ->
  (forall j, 1 <= j <= 12 ->
     reply_to_attempt E (world r5) (value_toString (healthUrl c)) j
     <> Resolves true) ->
  exists r' d,
    run E argv r = (1%Z, r') /\
    fs (world r') = fs (world r5) /\
    log (world r') =
      log (world r5)
        ++ failed_rounds (value_toString (healthUrl c)) 400 12
        ++ [Stderr ("server not healthy at " +:+ value_toString (healthUrl c)
                    +:+ nl)] /\
    calls r' = calls r5 ++ [F_waitForHealth] /\
    calls r' = calls r ++ d /\
    ~ In F_restartApps d.
Proof.
  intros Hp Hh Hc Hup Hchild Hhealth Hfail.
  exists (mkRun (calls r5 ++ [F_waitForHealth])
                (mkWorld (fs (world r5))
                   ((log (world r5)
                       ++ failed_rounds
                            (value_toString (healthUrl c)) 400 12)
                      ++ [Stderr ("server not healthy at "
                                  +:+ value_toString (healthUrl c) +:+ nl)]))).
  exists (concat (firstn 5 (block_calls c)) ++ [F_waitForHealth]).
  split.
  - unfold run, main, bind at 1, of_result. rewrite Hp, Hh.
    unfold bind at 1. rewrite Hc, main_steps_split, Hup.
    unfold after_launch. rewrite Hchild.
    unfold bind at 1. unfold step_health. rewrite Hhealth.
    unfold bind at 1. rewrite call_run.
    rewrite (HealthFacts.waitForHealth_all_fail E (healthUrl c) 12 400 (world r5))
      by exact Hfail.
    reflexivity.
  - split; [reflexivity |]. split; [simpl; rewrite <- app_assoc; reflexivity |].
    split; [reflexivity |]. split.
    + simpl. rewrite (up_to_launch_calls E c r pid r5 Hup), <- app_assoc.
      reflexivity.
    + apply no_restart_before_health.
Qed.

Lemma reclaim_at_most_once_and_by_flag_witness :
  exists d,
    calls (snd (main Scenario.quiet_env server_only
                     (Scenario.fresh Scenario.empty_world))) =
      calls (Scenario.fresh Scenario.empty_world) ++ d /\
    count_calls is_reclaim d = 1.
Proof.
  destruct (reclaim_at_most_once_and_by_flag Scenario.quiet_env server_only
              (Scenario.fresh Scenario.empty_world))
    as [d [Hd [_ [_ [_ [_ [H _]]]]]]].
  exists d. split; [exact Hd |].
  assert (parseArgs server_only = Ok (args_of server_only)) as Hp
    by (vm_compute; reflexivity).
  assert (help_requested (args_of server_only) = false) as Hh
    by (vm_compute; reflexivity).
  destruct (resolveConfig Scenario.quiet_env (args_of server_only))
    as [c|e] eqn:Hc; [|vm_compute in Hc; discriminate].
  destruct (before_reclaim Scenario.quiet_env c
              (Scenario.fresh Scenario.empty_world)) as [[[]|e] r3] eqn:Hb.
  - exact (H (args_of server_only) c r3 Hp Hh Hc Hb).
  - vm_compute in Hc. injection Hc as <-. vm_compute in Hb. discriminate.
Defined.

(** A run that stops at the install block: it exits with 1 and has
    attempted neither mechanism. *)
Lemma run_stopping_early_reclaims_nothing :
  fst (run Scenario.quiet_env sideload_without_manifest
           (Scenario.fresh Scenario.empty_world)) = 1%Z /\
  log (world (snd (run Scenario.quiet_env sideload_without_manifest
                       (Scenario.fresh Scenario.empty_world)))) =
    [Stderr ("manifest is required when sideload=true" +:+ nl)] /\
  ~ count_calls is_reclaim
      (calls (snd (run Scenario.quiet_env sideload_without_manifest
                       (Scenario.fresh Scenario.empty_world)))) = 1.
Proof.
  split; [vm_compute; reflexivity |].
  split; [vm_compute; reflexivity |].
  vm_compute. discriminate.
Qed.

End OrchestratorFacts.

(** ** Which errors a function can raise *)

Module ErrorFacts.
Import Js JsFacts JsNumber Os Script Spec.

Section Combinators.
Context {S : Type} (P : exn -> Prop).

Lemma raises_ret {A} (a : A) : raises_only P (ret a : St S A).
Proof. intros w e w' H. discriminate. Qed.

Lemma raises_throw {A} e : P e -> raises_only P (throw e : St S A).
Proof. intros He w e' w' [= <- _]. exact He. Qed.

Lemma raises_bind {A B} (m : St S A) (k : A -> St S B) :
  raises_only P m -> (forall a, raises_only P (k a)) ->
  raises_only P (bind m k).
Proof.
  intros Hm Hk w e w' H. unfold bind in H.
  destruct (m w) as [[a|e0] w0] eqn:Hmw.
  - exact (Hk a _ _ _ H).
  - injection H as <- _. exact (Hm _ _ _ Hmw).
Qed.

Lemma raises_try_catch {A} (m h : St S A) :
  raises_only P h -> raises_only P (try_catch m h).
Proof.
  intros Hh w e w' H. unfold try_catch in H.
  destruct (m w) as [[a|e0] w0]; [discriminate |]. exact (Hh _ _ _ H).
Qed.

Lemma raises_forEach {A} (f : A -> St S unit) xs :
  (forall x, raises_only P (f x)) -> raises_only P (forEach f xs).
Proof.
  intros Hf. induction xs as [|x xs IH]; cbn [forEach].
  - apply raises_ret.
  - apply raises_bind; [apply Hf | intros _; exact IH].
Qed.

Lemma raises_if {A} (b : bool) (m1 m2 : St S A) :
  raises_only P m1 -> raises_only P m2 ->
  raises_only P (if b then m1 else m2).
Proof. destruct b; trivial. Qed.

End Combinators.

Lemma raises_call {A} P f (m : M A) :
  raises_only P m -> raises_only P (call f m).
Proof.
  intros Hm r e r' H. unfold call in H.
  destruct (m (world r)) as [x w'] eqn:Hmw. injection H as -> _.
  exact (Hm _ _ _ Hmw).
Qed.

Lemma raises_direct {A} P (m : M A) :
  raises_only P m -> raises_only P (direct m).
Proof.
  intros Hm r e r' H. unfold direct in H.
  destruct (m (world r)) as [x w'] eqn:Hmw. injection H as -> _.
  exact (Hm _ _ _ Hmw).
Qed.

Create HintDb raises.
#[local] Hint Resolve raises_ret raises_try_catch raises_call raises_direct : raises.

(** Break a computation down into its parts. *)
Ltac raises_step :=
  match goal with
  | |- raises_only _ (bind _ _) => apply raises_bind; [|intros ?]
  | |- raises_only _ (ret _) => apply raises_ret
  | |- raises_only _ (throw _) => apply raises_throw; try exact I; try reflexivity
  | |- raises_only _ (try_catch _ _) => apply raises_try_catch
  | |- raises_only _ (forEach _ _) => apply raises_forEach; intros ?
  | |- raises_only _ (call _ _) => apply raises_call
  | |- raises_only _ (direct _) => apply raises_direct
  | |- raises_only _ (if ?b then _ else _) => destruct b
  | |- raises_only _ (match ?x with _ => _ end) => destruct x
  | |- raises_only _ (fun _ => (Ok _, _)) => intros ? ? ? ?; discriminate
  end.

Ltac raises := repeat raises_step; auto with raises.

Section Functions.
Variable E : Env.
#[local] Abbreviation NV := not_manifest_error.

Lemma raises_syscall ev : raises_only NV (syscall ev).
Proof. intros w e w' H. discriminate. Qed.

Lemma raises_get_node p : raises_only NV (get_node p).
Proof. intros w e w' H. discriminate. Qed.

Lemma raises_set_node p n : raises_only NV (set_node p n).
Proof. intros w e w' H. discriminate. Qed.

Lemma raises_io_check n what : raises_only NV (io_check E n what).
Proof. unfold io_check. raises. Qed.

Hint Resolve raises_syscall raises_get_node raises_set_node raises_io_check
  : raises.

Lemma raises_fileExists v : raises_only NV (fileExists v).
Proof. unfold fileExists. raises. Qed.

Lemma raises_readFileSync p : raises_only NV (readFileSync E p).
Proof. unfold readFileSync. raises. Qed.

Lemma raises_mkdirSync p : raises_only NV (mkdirSync E p).
Proof. unfold mkdirSync, file_among. raises. Qed.

Lemma raises_openSync v : raises_only NV (openSync_append E v).
Proof. unfold openSync_append. raises. Qed.

Lemma raises_writeFileSync v d : raises_only NV (writeFileSync E v d).
Proof. unfold writeFileSync. raises. Qed.

Lemma raises_copyFileSync a b : raises_only NV (copyFileSync E a b).
Proof. unfold copyFileSync. raises. Qed.

Lemma raises_execFileSync f a : raises_only NV (execFileSync E f a).
Proof. unfold execFileSync. raises. Qed.

Lemma raises_process_kill pid : raises_only NV (process_kill E pid).
Proof. unfold process_kill. raises. Qed.

Lemma raises_spawn c o : raises_only NV (spawn_detached E c o).
Proof. unfold spawn_detached. raises. Qed.

Lemma raises_fetch u : raises_only NV (fetch E u).
Proof. intros w e w' H. discriminate. Qed.

Lemma raises_sleep ms : raises_only NV (sleep ms).
Proof. unfold sleep. raises. Qed.

Lemma raises_stdout s : raises_only NV (stdout_write s).
Proof. unfold stdout_write. raises. Qed.

Lemma raises_dirname v : raises_only NV (dirname_of v).
Proof. unfold dirname_of. raises. Qed.

Hint Resolve raises_fileExists raises_readFileSync raises_mkdirSync
  raises_openSync raises_writeFileSync raises_copyFileSync
  raises_execFileSync raises_process_kill raises_spawn raises_fetch
  raises_sleep raises_stdout raises_dirname : raises.

Lemma raises_resolveAppTargets a : raises_only NV (resolveAppTargets a).
Proof. unfold resolveAppTargets. raises. Qed.

Lemma raises_findTrashBin : raises_only NV (findTrashBin E).
Proof. unfold findTrashBin. raises. Qed.

Hint Resolve raises_resolveAppTargets raises_findTrashBin : raises.

Lemma raises_trashPaths l : raises_only NV (trashPaths E l).
Proof. unfold trashPaths. raises. Qed.

Hint Resolve raises_trashPaths : raises.

Lemma raises_clearOfficeCache a : raises_only NV (clearOfficeCache E a).
Proof. unfold clearOfficeCache. raises. Qed.

Lemma raises_sideloadMacManifest p a :
  raises_only NV (sideloadMacManifest E p a).
Proof. unfold sideloadMacManifest, ensureDir. raises. Qed.

Lemma raises_killPort p : raises_only NV (killPort E p).
Proof. unfold killPort. raises. Qed.

Lemma raises_killPidFile v : raises_only NV (killPidFile E v).
Proof. unfold killPidFile. raises. Qed.

Lemma raises_startServerDetached c p l :
  raises_only NV (startServerDetached E c p l).
Proof. unfold startServerDetached, ensureDir. raises. Qed.

Lemma raises_waitForHealth_loop u ms n :
  raises_only NV (waitForHealth_loop E u ms n).
Proof.
  induction n as [|n IH]; cbn [waitForHealth_loop]; raises.
Qed.

Hint Resolve raises_waitForHealth_loop : raises.

Lemma raises_waitForHealth u a d : raises_only NV (waitForHealth E u a d).
Proof. unfold waitForHealth. raises. Qed.

Lemma raises_restartApps a : raises_only NV (restartApps E a).
Proof. unfold restartApps. raises. Qed.

Hint Resolve raises_clearOfficeCache raises_sideloadMacManifest
  raises_killPort raises_killPidFile raises_startServerDetached
  raises_waitForHealth raises_restartApps : raises.

(** Every block after the validation raises other errors only. *)
Lemma raises_after_validation c :
  raises_only NV
    (step_clearCache E c ;;
     step_sideload E c ;;
     step_reclaim E c ;;
     pid <- step_launch E c ;;
     after_launch E c pid)%os.
Proof.
  assert (raises_only NV (step_launch E c)) as Hlaunch.
  { intros r e r' H. unfold step_launch in H.
    destruct (call F_startServerDetached _ r) as [[pid|e0] r0] eqn:Hcall;
      [discriminate |].
    destruct (child_lost E _ _); injection H as <- _; [exact I |].
    revert Hcall. apply raises_call, raises_startServerDetached. }
  assert (forall pid, raises_only NV (after_launch E c pid)) as Hafter.
  { intros pid. unfold after_launch, doomed_steps, then_child_error.
    destruct (child_failed c pid).
    - destruct (health c); intros r e r' [= <- _]; exact I.
    - unfold step_health, step_restart, step_report. raises. }
  unfold step_clearCache, step_sideload, step_reclaim.
  raises.
Qed.

End Functions.
End ErrorFacts.

(** ** Validation needs a manifest *)

Module SkipFacts.
Import Js JsFacts JsNumber Os Script Spec.
Import ConfigFacts OrchestratorFacts ErrorFacts.

Lemma no_validation_in_blocks c k :
  manifestPath c = None ->
  ~ In F_validateManifestFile (concat (firstn k (block_calls c))).
Proof.
  intros Hnone.
  unfold block_calls, validate_calls, clearCache_calls, sideload_calls,
    reclaim_calls, health_calls, restart_calls.
  rewrite Hnone. cbn [path_given andb].
  destruct (clearCache c), (sideload c), (killPortFlag c), (health c),
    (restart c);
    destruct k as [|[|[|[|[|[|[|k]]]]]]]; cbn [firstn];
    rewrite ?firstn_nil; cbn; intuition discriminate.
Qed.

Lemma process_cwd_raises E e :
  process_cwd E = Throw e -> not_manifest_error e.
Proof.
  unfold process_cwd. destruct (cwd E); [discriminate |].
  intros [= <-]. exact I.
Qed.

Lemma resolve_raises E p e :
  resolve E p = Throw e -> not_manifest_error e.
Proof.
  unfold resolve. destruct (startsWith p "/"); [discriminate |].
  destruct (process_cwd E) as [d|e0] eqn:Hd; [discriminate |].
  intros [= <-]. exact (process_cwd_raises E e0 Hd).
Qed.

Lemma or_in_cache_raises E o name e :
  or_in_cache E o name = Throw e -> not_manifest_error e.
Proof.
  unfold or_in_cache. destruct (option_truthy o); [discriminate |].
  destruct (process_cwd E) as [d|e0] eqn:Hd; [discriminate |].
  intros [= <-]. exact (process_cwd_raises E e0 Hd).
Qed.

Lemma resolveConfig_raises E args e :
  resolveConfig E args = Throw e -> not_manifest_error e.
Proof.
  unfold resolveConfig.
  destruct (args !! "manifest") as [v|].
  - destruct (value_truthy v).
    + destruct (resolve E (value_toString v)) as [p|e0] eqn:Hp;
        [|intros [= <-]; exact (resolve_raises E _ e0 Hp)].
      cbn [and_then].
      destruct (value_or (args !! "app") (VStr "word"));
        [|intros [= <-]; exact I | intros [= <-]; exact I].
      destruct (or_in_cache E (args !! "pid-file") "server.pid") as [pp|e1] eqn:H1;
        [|intros [= <-]; exact (or_in_cache_raises E _ _ e1 H1)].
      destruct (or_in_cache E (args !! "log-file") "server.log") as [lp|e2] eqn:H2;
        [discriminate |intros [= <-]; exact (or_in_cache_raises E _ _ e2 H2)].
    + cbn [and_then].
      destruct (value_or (args !! "app") (VStr "word"));
        [|intros [= <-]; exact I | intros [= <-]; exact I].
      destruct (or_in_cache E (args !! "pid-file") "server.pid") as [pp|e1] eqn:H1;
        [|intros [= <-]; exact (or_in_cache_raises E _ _ e1 H1)].
      destruct (or_in_cache E (args !! "log-file") "server.log") as [lp|e2] eqn:H2;
        [discriminate |intros [= <-]; exact (or_in_cache_raises E _ _ e2 H2)].
  - cbn [and_then].
    destruct (value_or (args !! "app") (VStr "word"));
      [|intros [= <-]; exact I | intros [= <-]; exact I].
    destruct (or_in_cache E (args !! "pid-file") "server.pid") as [pp|e1] eqn:H1;
      [|intros [= <-]; exact (or_in_cache_raises E _ _ e1 H1)].
    destruct (or_in_cache E (args !! "log-file") "server.log") as [lp|e2] eqn:H2;
      [discriminate |intros [= <-]; exact (or_in_cache_raises E _ _ e2 H2)].
Qed.

Lemma parseArgs_loop_raises n :
  forall args out e,
    length args <= n ->
    parseArgs_loop args out = Throw e -> not_manifest_error e.
Proof.
  induction n as [|n IH]; intros args out e Hlen Hres.
  - destruct args; [discriminate | simpl in Hlen; lia].
  - destruct args as [|token rest]; [discriminate |].
    simpl in Hlen. cbn [parseArgs_loop] in Hres.
    destruct (startsWith token "--").
    + destruct rest as [|next rest']; [discriminate |].
      destruct (is_nonempty next && negb (startsWith next "--"));
        eapply IH; try exact Hres; simpl in *; lia.
    + destruct (out !! "_") as [[s| |l]|];
        try (injection Hres as <-; exact I).
      eapply IH; try exact Hres; lia.
Qed.

Lemma main_unfold E argv r :
  main E argv r =
  match parseArgs argv with
  | Ok args =>
      if help_requested args then direct (stdout_write (usage +:+ nl)) r
      else match resolveConfig E args with
           | Ok c => main_steps E c r
           | Throw e => (Throw e, r)
           end
  | Throw e => (Throw e, r)
  end.
Proof.
  unfold main, bind, of_result.
  destruct (parseArgs argv) as [args|e]; [|reflexivity].
  destruct (help_requested args); [reflexivity |].
  destruct (resolveConfig E args); reflexivity.
Qed.

(** C10: without a [--manifest] argument the validation block does
    nothing, whatever the validate flag: it returns normally and leaves
    the run as it found it, so the run goes on with the next block;
    [validateManifestFile] is not called anywhere in the run, and no error
    the run raises is a validation error. *)
Theorem validation_skipped_without_manifest
        (E : Env) (argv : list string) (r : Run) :
  ~ In "--manifest" argv ->
  (forall args c,
     parseArgs argv = Ok args -> resolveConfig E args = Ok c ->
     manifestPath c = None /\
     forall r0, step_validate E c r0 = (Ok tt, r0)) /\
  (exists d, calls (snd (main E argv r)) = calls r ++ d /\
             ~ In F_validateManifestFile d) /\
  (forall e r', main E argv r = (Throw e, r') -> not_manifest_error e).
Proof.
  intros Hno.
  assert (forall args c,
            parseArgs argv = Ok args -> resolveConfig E args = Ok c ->
            manifestPath c = None) as Hm.
  { intros args c Hp Hc.
    rewrite (resolveConfig_manifestPath E _ _ Hc).
    rewrite (parseArgs_missing argv args "manifest"
               ltac:(discriminate) ltac:(discriminate) Hp Hno).
    reflexivity. }
  assert (forall args c,
            parseArgs argv = Ok args -> resolveConfig E args = Ok c ->
            forall r0, step_validate E c r0 = (Ok tt, r0)) as Hskip.
  { intros args c Hp Hc r0. unfold step_validate.
    rewrite (Hm args c Hp Hc). reflexivity. }
  split; [intros args c Hp Hc; split; eauto |].
  rewrite main_unfold.
  destruct (parseArgs argv) as [args|e0] eqn:Hp.
  2:{ split; [exists []; simpl; rewrite app_nil_r; split; [reflexivity | tauto] |].
      intros e r' [= <- _]. unfold parseArgs in Hp.
      exact (parseArgs_loop_raises _ _ _ _ (le_n _) Hp). }
  destruct (help_requested args).
  { split; [exists []; simpl; rewrite app_nil_r; split; [reflexivity | tauto] |].
    intros e r' H. discriminate. }
  destruct (resolveConfig E args) as [c|e0] eqn:Hc.
  2:{ split; [exists []; simpl; rewrite app_nil_r; split; [reflexivity | tauto] |].
      intros e r' [= <- _]. exact (resolveConfig_raises E args e0 Hc). }
  split.
  - destruct (main_steps_calls E c r) as [k [Hk _]].
    exists (concat (firstn k (block_calls c))).
    split; [exact Hk | apply no_validation_in_blocks; eauto].
  - intros e r' H. unfold main_steps, bind at 1 in H.
    rewrite (Hskip args c eq_refl Hc r) in H.
    exact (raises_after_validation E c _ _ _ H).
Qed.

Lemma validation_skipped_without_manifest_witness :
  exists d,
    calls (snd (main Scenario.quiet_env server_only
                     (Scenario.fresh Scenario.empty_world))) =
      calls (Scenario.fresh Scenario.empty_world) ++ d /\
    ~ In F_validateManifestFile d.
Proof.
  refine (proj1 (proj2 (validation_skipped_without_manifest
                          Scenario.quiet_env server_only
                          (Scenario.fresh Scenario.empty_world) _))).
  simpl. intros [H | [H | []]]; discriminate.
Defined.

(** The run of scenario D: a server that never becomes healthy, on a
    command line that asks for the restart. *)
Lemma failed_health_check_aborts_before_restart_witness :
  option_map restart (config_of Scenario.quiet_env server_and_restart)
    = Some true /\
  exists r' d,
    run Scenario.quiet_env server_and_restart
        (Scenario.fresh Scenario.empty_world)
      = (1%Z, r') /\
    calls r' = calls (Scenario.fresh Scenario.empty_world) ++ d /\
    ~ In F_restartApps d.
Proof.
  split; [vm_compute; reflexivity |].
  assert (parseArgs server_and_restart = Ok (args_of server_and_restart)) as Hp
    by (vm_compute; reflexivity).
  assert (help_requested (args_of server_and_restart) = false) as Hh
    by (vm_compute; reflexivity).
  destruct (resolveConfig Scenario.quiet_env (args_of server_and_restart))
    as [c|e] eqn:Hc; [|vm_compute in Hc; discriminate].
  assert (health c = true) as Hhealth.
  { vm_compute in Hc. injection Hc as <-. reflexivity. }
  destruct (up_to_launch Scenario.quiet_env c
              (Scenario.fresh Scenario.empty_world)) as [[pid|e] r5] eqn:Hup.
  2:{ vm_compute in Hc. injection Hc as <-. vm_compute in Hup. discriminate. }
  assert (child_failed c pid = false) as Hchild.
  { vm_compute in Hc. injection Hc as <-. vm_compute in Hup.
    injection Hup as <- _. reflexivity. }
  destruct (failed_health_check_aborts_before_restart
              Scenario.quiet_env server_and_restart
              (args_of server_and_restart) c
              (Scenario.fresh Scenario.empty_world) pid r5
              Hp Hh Hc Hup Hchild Hhealth)
    as [r' [d [Hrun [_ [_ [_ [Hcalls Hno]]]]]]].
  - intros j _. unfold reply_to_attempt. simpl. discriminate.
  - exists r', d. split; [exact Hrun |]. split; [exact Hcalls | exact Hno].
Defined.

End SkipFacts.

(** ** Numbers written in decimal and read back *)

Module NumberFacts.
Import Js JsFacts JsNumber Os Script Spec.

Lemma digit_of_digit c :
  is_digit c = true ->
  digit_of 10 c = Some (N_of_ascii c - 48)%N.
Proof.
  destruct c as [[] [] [] [] [] [] [] []]; try discriminate; intros _; reflexivity.
Qed.

Lemma digits_string_of_uint d acc count :
  digits 10 (NilEmpty.string_of_uint d) acc count =
  (uint_value d acc, count + Decimal.nb_digits d, EmptyString).
Proof.
  revert acc count.
  induction d; intros acc count; cbn [NilEmpty.string_of_uint digits uint_value
                                        Decimal.nb_digits];
    [f_equal; f_equal; lia | ..];
    (change (digit_of 10 _) with (Some 0%N)
     || change (digit_of 10 _) with (Some 1%N)
     || change (digit_of 10 _) with (Some 2%N)
     || change (digit_of 10 _) with (Some 3%N)
     || change (digit_of 10 _) with (Some 4%N)
     || change (digit_of 10 _) with (Some 5%N)
     || change (digit_of 10 _) with (Some 6%N)
     || change (digit_of 10 _) with (Some 7%N)
     || change (digit_of 10 _) with (Some 8%N)
     || change (digit_of 10 _) with (Some 9%N));
    cbv iota; rewrite IHd; f_equal; f_equal; lia.
Qed.

Lemma uint_value_pos d acc :
  uint_value d (Npos acc) = Npos (Pos.of_uint_acc d acc).
Proof.
  revert acc. induction d; intros acc; cbn [uint_value Pos.of_uint_acc];
    [reflexivity | ..];
    match goal with
    | |- uint_value _ ?a = Npos (Pos.of_uint_acc _ ?b) =>
        replace a with (Npos b) by lia
    end; apply IHd.
Qed.

Lemma uint_value_0 d : uint_value d 0 = Pos.of_uint d.
Proof.
  induction d; cbn [uint_value Pos.of_uint]; [reflexivity | exact IHd | ..];
    apply uint_value_pos.
Qed.

Lemma all_digits_string_of_uint d : all_digits (NilEmpty.string_of_uint d) = true.
Proof. induction d; [reflexivity | ..]; exact IHd. Qed.

(** The digits of a positive number are read back as that number. *)
Lemma digits_of_positive p :
  exists n,
    digits 10 (NilEmpty.string_of_uint (Pos.to_uint p)) 0 0 =
    (Npos p, S n, EmptyString).
Proof.
  rewrite digits_string_of_uint, uint_value_0, Unsigned.of_to.
  pose proof (Unsigned.to_uint_nonnil p) as Hnil.
  destruct (Pos.to_uint p); [congruence | ..]; eexists; reflexivity.
Qed.

Lemma digit_not_space c : is_digit c = true -> is_space c = false.
Proof.
  destruct c as [[] [] [] [] [] [] [] []]; try discriminate; intros _; reflexivity.
Qed.

Lemma digit_differs a c :
  is_digit c = true -> is_digit a = false -> Ascii.eqb a c = false.
Proof.
  intros Hc Ha. destruct (Ascii.eqb_spec a c) as [->|]; [congruence | reflexivity].
Qed.

Lemma digit_differs_sym a c :
  is_digit c = true -> is_digit a = false -> Ascii.eqb c a = false.
Proof.
  intros Hc Ha. destruct (Ascii.eqb_spec c a) as [<-|]; [congruence | reflexivity].
Qed.

Lemma trimEnd_cons c s :
  trimEnd (String c s) =
  match trimEnd s with
  | EmptyString => if is_space c then EmptyString else String c EmptyString
  | t => String c t
  end.
Proof. reflexivity. Qed.

Lemma trimEnd_id s : ends_nonspace s = true -> trimEnd s = s.
Proof.
  induction s as [|c s IH]; [discriminate |].
  destruct s as [|c' s'].
  - simpl. destruct (is_space c); [discriminate | reflexivity].
  - intros H. change (ends_nonspace (String c' s') = true) in H.
    rewrite trimEnd_cons, (IH H). reflexivity.
Qed.

Lemma trimEnd_space s c :
  is_space c = true -> trimEnd (s +:+ String c EmptyString) = trimEnd s.
Proof.
  intros Hc. induction s as [|a s IH].
  - cbv [String.append]. rewrite trimEnd_cons. cbn [trimEnd]. rewrite Hc. reflexivity.
  - change (String a s +:+ String c EmptyString)
      with (String a (s +:+ String c EmptyString)).
    rewrite !trimEnd_cons, IH. reflexivity.
Qed.

Lemma all_digits_ends s :
  all_digits s = true -> s <> EmptyString -> ends_nonspace s = true.
Proof.
  induction s as [|c s IH]; [congruence |].
  intros H _. cbn [all_digits] in H. apply andb_true_iff in H. destruct H as [Hc Hs].
  destruct s as [|c' s'].
  - simpl. rewrite (digit_not_space c Hc). reflexivity.
  - apply IH; [exact Hs | discriminate].
Qed.

Lemma trim_digits s : all_digits s = true -> trim s = s.
Proof.
  intros H. destruct s as [|c r]; [reflexivity |].
  assert (is_space c = false) as Hc.
  { cbn [all_digits] in H. apply andb_true_iff in H. apply digit_not_space, H. }
  unfold trim. cbn [trimStart]. rewrite Hc.
  apply trimEnd_id, all_digits_ends; [exact H | discriminate].
Qed.

(** A run of digits converts to the integer it denotes, rounded. *)
Lemma StringToNumber_digits s v n :
  all_digits s = true ->
  digits 10 s 0 0 = (v, S n, EmptyString) ->
  StringToNumber s =
  round_magnitude false (Qmult (inject_Z (Z.of_N v)) (pow10 0)).
Proof.
  intros Hs Hd. unfold StringToNumber. rewrite (trim_digits s Hs).
  destruct s as [|c r]; [discriminate |].
  cbn [all_digits] in Hs. apply andb_true_iff in Hs. destruct Hs as [Hc Hr].
  assert (forall a b, is_digit b = false ->
                      startsWith (String c r) (String a (String b EmptyString))
                      = false) as Hpre.
  { intros a b Hb. cbn [startsWith].
    destruct r as [|c2 r2]; [apply andb_false_r |].
    cbn [all_digits] in Hr. apply andb_true_iff in Hr. destruct Hr as [Hc2 _].
    rewrite (digit_differs b c2 Hc2 Hb), andb_false_r. reflexivity. }
  rewrite !Hpre by reflexivity. cbn [orb].
  rewrite (digit_differs_sym "-" c Hc eq_refl), (digit_differs_sym "+" c Hc eq_refl).
  assert (String.eqb (String c r) "Infinity" = false) as Hinf.
  { cbn [String.eqb]. rewrite (digit_differs_sym "I" c Hc eq_refl). reflexivity. }
  rewrite Hinf. unfold parse_unsigned_decimal. rewrite Hd. reflexivity.
Qed.

Lemma round_integer v :
  (0 < Z.of_N v)%Z ->
  round_magnitude false (Qmult (inject_Z (Z.of_N v)) (pow10 0)) = of_Z (Z.of_N v).
Proof.
  intros Hpos.
  assert (Qmult (inject_Z (Z.of_N v)) (pow10 0) = inject_Z (Z.of_N v)) as ->.
  { unfold pow10, Qmult, inject_Z. simpl. rewrite Z.mul_1_r. reflexivity. }
  destruct v as [|p]; [lia | reflexivity].
Qed.

(** An integer below the overflow bound is a finite Number. *)
Lemma of_Z_finite n :
  (0 <= n < finite_bound)%Z -> isFinite (of_Z n) = true.
Proof.
  intros [H0 Hb]. destruct n as [|p|p]; [reflexivity | | lia].
  cbn [of_Z]. unfold round_magnitude.
  assert (Qle_bool overflow_bound (inject_Z (Z.pos p)) = false) as ->.
  { apply not_true_is_false. rewrite Qle_bool_iff. unfold overflow_bound.
    rewrite <- Zle_Qle. unfold finite_bound in Hb. lia. }
  destruct (Qle_bool (inject_Z (Z.pos p)) underflow_bound); reflexivity.
Qed.

Lemma pow2_nonneg e : (0 <= e)%Z -> pow2 e = inject_Z (2 ^ e).
Proof.
  intros He. unfold pow2.
  destruct (0 <=? e)%Z eqn:H; [reflexivity | apply Z.leb_gt in H; lia].
Qed.

Lemma pow2_inverse e :
  (0 <= e)%Z -> Qeq (Qmult (inject_Z (2 ^ e)) (pow2 (- e))) 1.
Proof.
  intros He. unfold pow2. destruct (0 <=? - e)%Z eqn:H.
  - apply Z.leb_le in H. assert (e = 0%Z) as -> by lia. reflexivity.
  - rewrite Z.opp_involutive. unfold Qeq, Qmult, inject_Z.
    cbn [Qnum Qden]. rewrite Pos.mul_1_l.
    rewrite Z2Pos.id by (apply Z.pow_pos_nonneg; lia). lia.
Qed.

(** An integer is its own nearest integer. *)
Lemma round_half_even_integer v k :
  Qeq v (inject_Z k) -> round_half_even v = k.
Proof.
  intros Hv. unfold round_half_even.
  assert (Qfloor v = k) as ->
    by (rewrite (Qfloor_comp _ _ Hv); apply Qfloor_Z).
  assert (Qcompare (Qminus v (inject_Z k)) (Qmake 1 2) = Lt) as ->; [|reflexivity].
  rewrite <- Qlt_alt. rewrite Hv. unfold Qminus. rewrite Qplus_opp_r. reflexivity.
Qed.

Lemma exponent_of_integer p :
  exponent_of (inject_Z (Z.pos p)) = Z.log2 (Z.pos p).
Proof.
  unfold exponent_of. cbn [Qnum Qden inject_Z].
  change (Z.log2 1) with 0%Z. rewrite Z.sub_0_r.
  rewrite pow2_nonneg by apply Z.log2_nonneg.
  assert (Qle_bool (inject_Z (2 ^ Z.log2 (Z.pos p))) (inject_Z (Z.pos p)) = true)
    as ->; [|reflexivity].
  rewrite Qle_bool_iff, <- Zle_Qle.
  apply (proj1 (Z.log2_spec (Z.pos p) ltac:(lia))).
Qed.

(** Up to [2^53] an integer is a Number. *)
Lemma nearest_integer p :
  (Z.pos p <= 2 ^ 53)%Z ->
  Qeq (nearest (inject_Z (Z.pos p))) (inject_Z (Z.pos p)).
Proof.
  intros Hp. unfold nearest. rewrite exponent_of_integer.
  pose proof (Z.log2_nonneg (Z.pos p)) as Hl0.
  pose proof (Z.log2_spec (Z.pos p) ltac:(lia)) as [Hlow Hhigh].
  assert (Z.log2 (Z.pos p) <= 53)%Z as Hl.
  { destruct (Z_le_gt_dec (Z.log2 (Z.pos p)) 53) as [H | H]; [exact H |].
    assert (2 ^ 54 <= 2 ^ Z.log2 (Z.pos p))%Z
      by (apply Z.pow_le_mono_r; lia).
    assert (2 ^ 53 < 2 ^ 54)%Z by (apply Z.pow_lt_mono_r; lia). lia. }
  rewrite Z.max_l by lia.
  destruct (Z_le_gt_dec (Z.log2 (Z.pos p)) 52) as [Hsmall | Hbig].
  - set (e := (52 - Z.log2 (Z.pos p))%Z).
    assert (0 <= e)%Z as He by (subst e; lia).
    replace (- (Z.log2 (Z.pos p) - 52))%Z with e by (subst e; lia).
    replace (Z.log2 (Z.pos p) - 52)%Z with (- e)%Z by (subst e; lia).
    rewrite (round_half_even_integer _ (Z.pos p * 2 ^ e)).
    + rewrite inject_Z_mult, <- Qmult_assoc, pow2_inverse by exact He.
      apply Qmult_1_r.
    + rewrite pow2_nonneg by exact He. rewrite inject_Z_mult. reflexivity.
  - assert (Z.log2 (Z.pos p) = 53%Z) as Hl53 by lia.
    assert (Z.pos p = (2 ^ 53)%Z) as Hp53.
    { rewrite Hl53 in Hlow. lia. }
    rewrite Hl53. injection Hp53 as ->. vm_compute. reflexivity.
Qed.

Lemma of_Z_exact n :
  (0 <= n <= max_exact)%Z -> of_Z n = Fin (inject_Z n).
Proof.
  intros [H0 Hb]. unfold max_exact in Hb.
  destruct n as [|p|p]; [reflexivity | | lia].
  cbn [of_Z]. unfold round_magnitude.
  assert (Qle_bool overflow_bound (inject_Z (Z.pos p)) = false) as ->.
  { apply not_true_is_false. rewrite Qle_bool_iff. unfold overflow_bound.
    rewrite <- Zle_Qle. lia. }
  assert (Qle_bool (inject_Z (Z.pos p)) underflow_bound = false) as ->.
  { apply not_true_is_false. rewrite Qle_bool_iff. unfold underflow_bound, Qle.
    cbn [Qnum Qden inject_Z]. nia. }
  cbv zeta. f_equal.
  rewrite (Qred_complete _ _ (nearest_integer p Hb)).
  apply Qred_identity. cbn [Qnum Qden inject_Z]. apply Z.gcd_1_r.
Qed.

(** Beyond [2^53] the digits of an odd integer read back as a
    neighbour. *)
Example number_beyond_max_exact :
  StringToNumber "9007199254740993" = Fin (inject_Z 9007199254740992).
Proof. vm_compute. reflexivity. Qed.

(** The digits of a non-negative integer [n] below the overflow bound read
    back as the Number nearest to [n]. *)
Lemma Number_of_decimal n :
  (0 <= n < finite_bound)%Z -> StringToNumber (Z_toString n) = of_Z n.
Proof.
  intros [H0 Hb]. destruct n as [|p|p]; [reflexivity | | lia].
  unfold Z_toString. cbn [Z.to_int NilZero.string_of_int].
  assert (NilZero.string_of_uint (Pos.to_uint p) =
          NilEmpty.string_of_uint (Pos.to_uint p)) as ->.
  { pose proof (Unsigned.to_uint_nonnil p).
    unfold NilZero.string_of_uint. destruct (Pos.to_uint p); congruence. }
  destruct (digits_of_positive p) as [n Hd].
  rewrite (StringToNumber_digits _ _ _ (all_digits_string_of_uint _) Hd).
  change (Z.pos p) with (Z.of_N (Npos p)). apply round_integer.
  simpl. lia.
Qed.

End NumberFacts.

(** ** The output of [lsof -t] read as pids *)

Module LinesFacts.
Import Js JsFacts JsNumber Os Script Spec NumberFacts.

Lemma digit_not_break c :
  is_digit c = true -> Ascii.eqb c lf = false /\ Ascii.eqb c cr = false.
Proof.
  destruct c as [[] [] [] [] [] [] [] []]; try discriminate; intros _;
    split; reflexivity.
Qed.

Lemma split_lines_cons c s :
  Ascii.eqb c lf = false -> Ascii.eqb c cr = false ->
  split_lines (String c s) =
  match split_lines s with
  | l :: ls => String c l :: ls
  | [] => [String c EmptyString]
  end.
Proof. intros H1 H2. cbn [split_lines]. rewrite H1, H2. reflexivity. Qed.

Lemma split_lines_plain s : all_digits s = true -> split_lines s = [s].
Proof.
  induction s as [|c s IH]; [reflexivity |].
  intros H. cbn [all_digits] in H. apply andb_true_iff in H. destruct H as [Hc Hs].
  destruct (digit_not_break c Hc) as [H1 H2].
  rewrite (split_lines_cons c s H1 H2), (IH Hs). reflexivity.
Qed.

Lemma split_lines_line s rest :
  all_digits s = true ->
  split_lines (s +:+ String lf rest) = s :: split_lines rest.
Proof.
  induction s as [|c s IH]; intros H.
  - cbv [String.append]. cbn [split_lines]. rewrite Ascii.eqb_refl. reflexivity.
  - cbn [all_digits] in H. apply andb_true_iff in H. destruct H as [Hc Hs].
    destruct (digit_not_break c Hc) as [H1 H2].
    change (String c s +:+ String lf rest) with (String c (s +:+ String lf rest)).
    rewrite (split_lines_cons c _ H1 H2), (IH Hs). reflexivity.
Qed.

Lemma join_lines a b rest :
  join nl (a :: b :: rest) = a +:+ String lf (join nl (b :: rest)).
Proof. reflexivity. Qed.

Lemma split_lines_join strs :
  strs <> [] ->
  Forall (fun s => all_digits s = true) strs ->
  split_lines (join nl strs) = strs.
Proof.
  intros Hne Hall. induction Hall as [|a rest Ha Hrest IH]; [congruence |].
  destruct rest as [|b rest'].
  - simpl. apply split_lines_plain, Ha.
  - rewrite join_lines, (split_lines_line a _ Ha), IH by discriminate.
    reflexivity.
Qed.

Lemma ends_nonspace_app a b :
  b <> EmptyString -> ends_nonspace (a +:+ b) = ends_nonspace b.
Proof.
  intros Hb. induction a as [|c a IH]; [reflexivity |].
  change (String c a +:+ b) with (String c (a +:+ b)).
  destruct (a +:+ b) as [|c' t] eqn:Hab.
  - destruct a; [cbv [String.append] in Hab; congruence | discriminate].
  - exact IH.
Qed.

Lemma join_ends strs :
  strs <> [] ->
  Forall (fun s => all_digits s = true /\ s <> EmptyString) strs ->
  ends_nonspace (join nl strs) = true.
Proof.
  intros Hne Hall. induction Hall as [|a rest [Ha Hna] Hrest IH]; [congruence |].
  destruct rest as [|b rest'].
  - simpl. apply all_digits_ends; assumption.
  - rewrite join_lines, ends_nonspace_app by discriminate.
    change (ends_nonspace (String lf (join nl (b :: rest'))))
      with (match join nl (b :: rest') with
            | EmptyString => negb (is_space lf)
            | _ => ends_nonspace (join nl (b :: rest'))
            end).
    specialize (IH ltac:(discriminate)).
    destruct (join nl (b :: rest')); [discriminate | exact IH].
Qed.

(** The output of [lsof -t], one pid per line, trims to the lines joined. *)
Lemma trim_lsof_output strs :
  strs <> [] ->
  Forall (fun s => all_digits s = true /\ s <> EmptyString) strs ->
  trim (join nl strs +:+ nl) = join nl strs.
Proof.
  intros Hne Hall. pose proof (join_ends strs Hne Hall) as Hends.
  unfold trim.
  assert (trimStart (join nl strs +:+ nl) = join nl strs +:+ nl) as ->.
  { destruct strs as [|a rest]; [congruence |].
    inversion Hall as [|? ? [Ha Hna] _]; subst.
    destruct a as [|c a']; [congruence |].
    cbn [all_digits] in Ha. apply andb_true_iff in Ha. destruct Ha as [Hc _].
    assert (exists t, join nl (String c a' :: rest) = String c t) as [t ->].
    { destruct rest; [eexists; reflexivity |].
      rewrite join_lines. eexists. reflexivity. }
    change (String c t +:+ nl) with (String c (t +:+ nl)).
    cbn [trimStart]. rewrite (digit_not_space c Hc). reflexivity. }
  unfold nl. rewrite trimEnd_space by reflexivity. apply trimEnd_id, Hends.
Qed.

Lemma decimal_is_digits n :
  (0 < n)%Z -> all_digits (Z_toString n) = true /\ Z_toString n <> EmptyString.
Proof.
  intros Hn. destruct n as [|p|p]; try lia.
  unfold Z_toString. cbn [Z.to_int NilZero.string_of_int].
  pose proof (Unsigned.to_uint_nonnil p) as Hnil.
  assert (NilZero.string_of_uint (Pos.to_uint p) =
          NilEmpty.string_of_uint (Pos.to_uint p)) as ->
    by (unfold NilZero.string_of_uint; destruct (Pos.to_uint p); congruence).
  split; [apply all_digits_string_of_uint |].
  destruct (Pos.to_uint p); [congruence | ..]; discriminate.
Qed.

Lemma listed_pids_decimal pids :
  pids <> [] ->
  Forall (fun n => (0 < n < finite_bound)%Z) pids ->
  listed_pids (join nl (map Z_toString pids) +:+ nl) = map of_Z pids.
Proof.
  intros Hne Hall. unfold listed_pids.
  assert (Forall (fun s => all_digits s = true /\ s <> EmptyString)
                 (map Z_toString pids)) as Hstrs.
  { clear Hne. induction Hall as [|n rest [Hn _] _ IH]; constructor;
      [apply decimal_is_digits, Hn | exact IH]. }
  assert (Forall (fun s => all_digits s = true) (map Z_toString pids)) as Hdig.
  { clear Hne Hstrs. induction Hall as [|n rest [Hn _] _ IH]; constructor;
      [apply decimal_is_digits, Hn | exact IH]. }
  rewrite trim_lsof_output;
    [| destruct pids; [congruence | discriminate] | exact Hstrs].
  rewrite split_lines_join;
    [| destruct pids; [congruence | discriminate] | exact Hdig].
  clear Hdig.
  clear Hne Hstrs. induction Hall as [|n rest [Hn Hb] _ IH]; [reflexivity |].
  cbn [map]. rewrite (trim_digits _ (proj1 (decimal_is_digits n Hn))).
  rewrite Number_of_decimal by lia.
  rewrite filter_cons_True by (apply of_Z_finite; lia).
  rewrite IH. reflexivity.
Qed.

End LinesFacts.

(** ** The primitives, step by step *)

Module PrimFacts.
Import Js JsFacts JsNumber Os Script Spec.

Lemma bind_Ok {S A B} (m : St S A) (k : A -> St S B) w b w' :
  bind m k w = (Ok b, w') ->
  exists a w1, m w = (Ok a, w1) /\ k a w1 = (Ok b, w').
Proof.
  unfold bind. destruct (m w) as [[a|e] w1]; [eauto | discriminate].
Qed.

Lemma bind_Throw {S A B} (m : St S A) (k : A -> St S B) w e w' :
  bind m k w = (Throw e, w') ->
  m w = (Throw e, w') \/ exists a w1, m w = (Ok a, w1) /\ k a w1 = (Throw e, w').
Proof.
  unfold bind. destruct (m w) as [[a|e0] w1]; [eauto |].
  intros [= <- <-]. left. reflexivity.
Qed.

Section Prims.
Variable E : Env.

(** Making the directories [ds]. *)
Lemma make_dirs_run ds :
  forall w, exists w',
    forEach (fun d => set_node d Dir) ds w = (Ok tt, w') /\
    log w' = log w /\
    (forall k, In k ds -> fs w' !! k = Some Dir) /\
    (forall k, ~ In k ds -> fs w' !! k = fs w !! k).
Proof.
  induction ds as [|d ds IH]; intros w.
  - exists w. cbn. repeat split; tauto.
  - cbn [forEach]. unfold bind, set_node at 1.
    destruct (IH (mkWorld (<[d := Dir]> (fs w)) (log w)))
      as (w' & Hrun & Hlog & Hin & Hout).
    exists w'. split; [exact Hrun |]. split; [exact Hlog |]. split.
    + intros k [<- | Hk]; [|exact (Hin k Hk)].
      destruct (in_dec String.string_dec d ds) as [Hd | Hd]; [exact (Hin d Hd) |].
      rewrite (Hout d Hd). cbn. apply lookup_insert_eq.
    + intros k Hk. rewrite Hout by (intros H; apply Hk; right; exact H).
      cbn. apply lookup_insert_ne. intros ->. apply Hk. left. reflexivity.
Qed.

(** Every primitive extends the log by the one call it makes.  A
    recursive [mkdir] keeps every node there is and adds directories
    only. *)
Lemma mkdirSync_run d w r w' :
  mkdirSync E d w = (r, w') ->
  log w' = log w ++ [Mkdir d] /\
  (forall k, fs w' !! k = fs w !! k \/
             (fs w !! k = None /\ fs w' !! k = Some Dir)) /\
  (forall k n, fs w !! k = Some n -> fs w' !! k = Some n) /\
  (r = Ok tt -> fs w' !! d = Some Dir) /\
  (forall e, r = Throw e -> fs w' = fs w).
Proof.
  intros H.
  assert (log w' = log w ++ [Mkdir d] /\
          (forall k, fs w' !! k = fs w !! k \/
                     (fs w !! k = None /\ fs w' !! k = Some Dir)) /\
          (r = Ok tt -> fs w' !! d = Some Dir) /\
          (forall e, r = Throw e -> fs w' = fs w)) as (HL & HK & HO & HT).
  { revert H. unfold mkdirSync, io_check.
    unfold bind at 1. unfold syscall at 1. unfold bind at 1.
    destruct (io_fails E (length (log w))).
    { unfold throw. intros [= <- <-]. cbn.
      repeat split; try discriminate; auto. }
    unfold ret at 1. unfold bind at 1. unfold get_node at 1. cbn [fs log].
    destruct (is_file (fs w !! d)) eqn:Hd.
    { unfold throw. intros [= <- <-]. cbn.
      repeat split; try discriminate; auto. }
    unfold bind at 1. unfold file_among at 1. cbn [fs log].
    destruct (existsb (fun a => is_file (fs w !! a))
                (ancestors (String.length d) d)) eqn:Hab.
    { unfold throw. intros [= <- <-]. cbn.
      repeat split; try discriminate; auto. }
    destruct (make_dirs_run (d :: ancestors (String.length d) d)
                (mkWorld (fs w) (log w ++ [Mkdir d])))
      as (w1 & Hrun & Hlog & Hin & Hout).
    rewrite Hrun. intros [= <- <-]. cbn [fs log] in *.
    split; [exact Hlog |]. split.
    - intros k.
      destruct (in_dec String.string_dec k
                  (d :: ancestors (String.length d) d))
        as [Hk | Hk]; [|left; exact (Hout k Hk)].
      rewrite (Hin k Hk).
      assert (is_file (fs w !! k) = false) as Hnf.
      { destruct Hk as [<- | Hk]; [exact Hd |].
        destruct (is_file (fs w !! k)) eqn:Hf; [|reflexivity].
        assert (existsb (fun a => is_file (fs w !! a))
                  (ancestors (String.length d) d) = true) as Hex
          by (apply existsb_exists; exists k; split; assumption).
        congruence. }
      destruct (fs w !! k) as [[c|]|]; [discriminate | left | right]; auto.
    - split; [|discriminate]. intros _. apply Hin. left. reflexivity. }
  split; [exact HL |]. split; [exact HK |]. split; [|split; assumption].
  intros k n Hk. destruct (HK k) as [-> | [Hnone _]]; congruence.
Qed.

Lemma openSync_run v w r w' :
  openSync_append E v w = (r, w') ->
  (forall s, r = Ok s ->
     v = VStr s /\ log w' = log w ++ [OpenAppend s] /\
     (forall k, k <> s -> fs w' !! k = fs w !! k) /\
     exists c, fs w' !! s = Some (File c)) /\
  (forall e, r = Throw e -> fs w' = fs w).
Proof.
  destruct v as [s| |l]; cbn [openSync_append];
    try (unfold throw; intros [= <- <-]; split; [discriminate | reflexivity]).
  unfold io_check. unfold bind, syscall, get_node, set_node, ret, throw.
  cbn [fs log]. destruct (io_fails E (length (log w))); cbn.
  - intros [= <- <-]. cbn. split; [discriminate | reflexivity].
  - destruct (fs w !! s) as [[c|]|] eqn:Hs; cbn; intros [= <- <-]; cbn.
    + split; [|discriminate]. intros s' [= <-]. repeat split; eauto.
    + split; [discriminate | reflexivity].
    + split; [|discriminate]. intros s' [= <-].
      split; [reflexivity |]. split; [reflexivity |]. split.
      * intros k Hk. rewrite lookup_insert_ne by congruence. reflexivity.
      * exists EmptyString. apply lookup_insert_eq.
Qed.

Lemma spawn_run cmd out w r w' :
  spawn_detached E cmd out w = (r, w') ->
  fs w' = fs w /\ log w' = log w ++ [Spawn cmd out].
Proof.
  unfold spawn_detached. unfold bind, syscall, ret, throw. cbn [fs log].
  destruct (spawn_reply E (length (log w)) cmd); cbn; intros [= <- <-];
    split; reflexivity.
Qed.

(** A write that fails leaves the file as it was, or with a part of the
    data. *)
Lemma writeFileSync_run p data w r w' :
  writeFileSync E (VStr p) data w = (r, w') ->
  log w' = log w ++ [WriteFile p data] /\
  (forall k, k <> p -> fs w' !! k = fs w !! k) /\
  (r = Ok tt -> fs w' !! p = Some (File data)) /\
  (forall e, r = Throw e ->
     fs w' !! p = fs w !! p \/
     exists k, fs w' !! p = Some (File (take k data))).
Proof.
  cbn [writeFileSync].
  unfold bind, syscall, get_node, set_node, ret, throw.
  cbn [fs log].
  destruct (fs w !! p) as [[c|]|] eqn:Hp; cbn;
    try (intros [= <- <-]; cbn; repeat split; try discriminate; auto; fail);
    (destruct (io_fails E (length (log w))); cbn;
     [destruct (written E (length (log w))) as [k|]; cbn |]);
    intros [= <- <-]; cbn;
    (split; [reflexivity |]);
    (split; [intros k' Hk;
             try (rewrite lookup_insert_ne by congruence); reflexivity |]);
    (split; [try discriminate; intros _; apply lookup_insert_eq |]);
    try discriminate;
    intros e _;
    try (right; eexists; apply lookup_insert_eq);
    left; first [exact Hp | symmetry; exact Hp | reflexivity].
Qed.

Lemma copyFileSync_run src dst w r w' :
  copyFileSync E src dst w = (r, w') ->
  log w' = log w ++ [CopyFile src dst] /\
  (forall k, k <> dst -> fs w' !! k = fs w !! k) /\
  (r = Ok tt ->
   exists c, fs w !! src = Some (File c) /\ fs w' !! dst = Some (File c)) /\
  (forall e, r = Throw e -> fs w' = fs w).
Proof.
  unfold copyFileSync, io_check.
  unfold bind, syscall, get_node, set_node, ret, throw.
  cbn [fs log]. destruct (io_fails E (length (log w))); cbn.
  - intros [= <- <-]. cbn. repeat split; try discriminate; reflexivity.
  - destruct (fs w !! src) as [[c|]|] eqn:Hsrc; cbn;
      [destruct (fs w !! dst) as [[c'|]|] eqn:Hdst | |];
      cbn; intros [= <- <-]; cbn;
      repeat split; try discriminate; try reflexivity;
      try (intros k Hk; rewrite lookup_insert_ne by congruence; reflexivity);
      intros _; exists c; (split; [reflexivity | apply lookup_insert_eq]).
Qed.

Lemma readFileSync_run p w r w' :
  readFileSync E p w = (r, w') ->
  fs w' = fs w /\ log w' = log w ++ [ReadFile p] /\
  (forall c, r = Ok c -> fs w !! p = Some (File c)).
Proof.
  unfold readFileSync, io_check. unfold bind, syscall, get_node, ret, throw.
  cbn [fs log]. destruct (io_fails E (length (log w))); cbn.
  - intros [= <- <-]. cbn. repeat split. discriminate.
  - destruct (fs w !! p) as [[c|]|]; cbn; intros [= <- <-]; cbn;
      repeat split; try discriminate. intros c' [= <-]. reflexivity.
Qed.

Lemma execFileSync_run file args w r w' :
  execFileSync E file args w = (r, w') ->
  fs w' = fs w /\ log w' = log w ++ [ExecFile file args] /\
  r = match exec_reply E (length (log w)) file args with
      | Some out => Ok out
      | None => Throw (SysError "execFileSync")
      end.
Proof.
  unfold execFileSync. unfold bind, syscall, ret, throw. cbn [fs log].
  destruct (exec_reply E (length (log w)) file args); cbn; intros [= <- <-];
    repeat split.
Qed.

End Prims.
End PrimFacts.

(** ** Launching, and reaping what was launched *)

Module LaunchFacts.
Import Js JsFacts JsNumber Os Script Spec NumberFacts LinesFacts ReclaimFacts.
Import PrimFacts.

Lemma max_exact_finite : (max_exact < finite_bound)%Z.
Proof. unfold max_exact, finite_bound. lia. Qed.

(** X1: a non-negative integer up to 2^53 is a Number as it is, no
    rounding taking place; written in decimal, as [String(n)] does in this
    range, and read back by [Number(...)], it is [n] again. *)
Theorem number_of_decimal_string (n : Z) :
  (0 <= n <= max_exact)%Z ->
  of_Z n = Fin (inject_Z n) /\
  StringToNumber (Z_toString n) = Fin (inject_Z n).
Proof.
  intros Hn. split; [apply of_Z_exact; exact Hn |].
  rewrite <- (of_Z_exact n Hn).
  apply Number_of_decimal. pose proof max_exact_finite. lia.
Qed.

Lemma number_of_decimal_string_witness :
  of_Z 4242 = Fin (inject_Z 4242) /\
  StringToNumber (Z_toString 4242) = Fin (inject_Z 4242).
Proof. apply (number_of_decimal_string 4242). unfold max_exact. lia. Defined.

Section Launch.
Variable E : Env.

(** X2: when [lsof] prints pids one per line, each a positive integer up
    to 2^53 in decimal, [killPort] signals exactly these pids, in the
    order printed and whether or not a signal fails, and does nothing else
    after the lookup. *)
Theorem killPort_signals_listed_pids
        (port : jsnum) (pids : list Z) (w : World) :
  truthy port = true ->
  pids <> [] ->
  Forall (fun n => (0 < n <= max_exact)%Z) pids ->
  exec_reply E (length (log w)) "lsof" (lsof_args E port) =
    Some (join nl (map Z_toString pids) +:+ nl) ->
  killPort E port w =
  (Ok tt,
   mkWorld (fs w)
           (log w ++ ExecFile "lsof" (lsof_args E port)
                  :: map (fun n => Kill (Fin (inject_Z n))) pids)).
Proof.
  intros Hport Hne Hexact Hout.
  assert (Forall (fun n => (0 < n < finite_bound)%Z) pids) as Hall.
  { eapply Forall_impl; [exact Hexact |]. cbn beta.
    intros n Hn. pose proof max_exact_finite. lia. }
  assert (map Kill (map of_Z pids)
          = map (fun n => Kill (Fin (inject_Z n))) pids) as <-.
  { clear Hne Hout Hall. induction Hexact as [|n rest Hn _ IH]; [reflexivity |].
    cbn [map]. rewrite IH, of_Z_exact by lia. reflexivity. }
  clear Hexact. rewrite killPort_cases, Hport, Hout.
  rewrite trim_lsof_output.
  - assert (is_nonempty (join nl (map Z_toString pids)) = true) as ->.
    { destruct pids as [|n rest]; [congruence |].
      inversion Hall as [|? ? [Hn _] _]; subst.
      destruct (decimal_is_digits n Hn) as [_ Hs].
      destruct rest; cbn [map join];
        [destruct (Z_toString n); [congruence | reflexivity] |].
      destruct (Z_toString n); [congruence | reflexivity]. }
    rewrite listed_pids_decimal by assumption. reflexivity.
  - destruct pids; [congruence | discriminate].
  - clear Hne Hout. induction Hall as [|n rest [Hn _] _ IH]; constructor;
      [apply decimal_is_digits, Hn | exact IH].
Qed.

(** What [startServerDetached] has done when it returns. *)
Lemma startServerDetached_done c cmd p logPath pid w w' :
  startServerDetached E (Some (String c cmd)) (VStr p) logPath w = (Ok pid, w') ->
  exists lp,
    logPath = VStr lp /\
    fs w' !! p = Some (File (pid_toString pid)) /\
    (exists content, fs w' !! lp = Some (File content)) /\
    log w' = log w ++ [Mkdir (path_dirname p); Mkdir (path_dirname lp);
                       OpenAppend lp; Spawn (String c cmd) lp;
                       WriteFile p (pid_toString pid)].
Proof.
  cbn [startServerDetached]. intros H.
  apply bind_Ok in H. destruct H as [d1 [w1 [H1 H]]].
  cbn [dirname_of] in H1. injection H1 as <- <-.
  apply bind_Ok in H. destruct H as [[] [w2 [H2 H]]].
  apply mkdirSync_run in H2. destruct H2 as [L2 _].
  apply bind_Ok in H. destruct H as [d2 [w3 [H3 H]]].
  destruct logPath as [lp| |l]; try discriminate.
  cbn [dirname_of] in H3. injection H3 as <- <-.
  apply bind_Ok in H. destruct H as [[] [w4 [H4 H]]].
  apply mkdirSync_run in H4. destruct H4 as [L4 _].
  apply bind_Ok in H. destruct H as [out [w5 [H5 H]]].
  apply openSync_run in H5. destruct H5 as [H5 _].
  destruct (H5 out eq_refl) as [Hout [L5 [_ [content Hlog]]]]. injection Hout as <-.
  apply bind_Ok in H. destruct H as [pid' [w6 [H6 H]]].
  apply spawn_run in H6. destruct H6 as [F6 L6].
  apply bind_Ok in H. destruct H as [[] [w7 [H7 H]]].
  injection H as <- <-.
  apply writeFileSync_run in H7. destruct H7 as [L7 [K7 [F7 _]]].
  exists lp. split; [reflexivity |]. split; [exact (F7 eq_refl) |]. split.
  - destruct (decide (lp = p)) as [->|Hne].
    + eexists. exact (F7 eq_refl).
    + exists content. rewrite (K7 lp Hne), F6. exact Hlog.
  - rewrite L7, L6, L5, L4, L2, <- !app_assoc. reflexivity.
Qed.

(** X3: when [startServerDetached] returns for a non-empty command, the
    pid file holds the child's pid in decimal (or the text [undefined] when
    the child has none), the log file exists, and the calls made are, in
    order: the two [mkdir], the opening of the log, the spawn and the
    writing of the pid file. *)
Theorem startServerDetached_records_pid
        (c : ascii) (cmd p : string) (logPath : value) (pid : option Z)
        (w w' : World) :
  startServerDetached E (Some (String c cmd)) (VStr p) logPath w = (Ok pid, w') ->
  exists lp,
    logPath = VStr lp /\
    fs w' !! p = Some (File (pid_toString pid)) /\
    (exists content, fs w' !! lp = Some (File content)) /\
    log w' = log w ++ [Mkdir (path_dirname p); Mkdir (path_dirname lp);
                       OpenAppend lp; Spawn (String c cmd) lp;
                       WriteFile p (pid_toString pid)].
Proof. apply startServerDetached_done. Qed.

(** When [startServerDetached] throws, a file at [p] is as it was, or it
    is the writing of it that failed. *)
Lemma startServerDetached_failed cmd p logPath old e w w' :
  startServerDetached E cmd (VStr p) logPath w = (Throw e, w') ->
  logPath <> VStr p ->
  fs w !! p = Some (File old) ->
  fs w' !! p = Some (File old) \/
  exists pid k,
    last (log w') = Some (WriteFile p (pid_toString pid)) /\
    fs w' !! p = Some (File (take k (pid_toString pid))).
Proof.
  intros H Hl Hold. destruct cmd as [[|c cmd]|]; try discriminate.
  cbn [startServerDetached dirname_of] in H. unfold bind at 1 in H.
  cbn [ret] in H. unfold bind at 1 in H.
  destruct (ensureDir E (path_dirname p) w) as [r1 w1] eqn:H1.
  apply mkdirSync_run in H1. destruct H1 as (_ & _ & K1 & _).
  apply K1 in Hold.
  destruct r1 as [[]|e1]; [|injection H as <- <-; left; exact Hold].
  destruct logPath as [lp| |l];
    try (injection H as <- <-; left; exact Hold).
  assert (lp <> p) as Hlp by congruence.
  cbn [dirname_of] in H. unfold bind at 1 in H. cbn [ret] in H.
  unfold bind at 1 in H.
  destruct (ensureDir E (path_dirname lp) w1) as [r2 w2] eqn:H2.
  apply mkdirSync_run in H2. destruct H2 as (_ & _ & K2 & _).
  apply K2 in Hold.
  destruct r2 as [[]|e2]; [|injection H as <- <-; left; exact Hold].
  unfold bind at 1 in H.
  destruct (openSync_append E (VStr lp) w2) as [r3 w3] eqn:H3.
  apply openSync_run in H3. destruct H3 as [O3 T3].
  destruct r3 as [out|e3].
  2:{ injection H as <- <-. rewrite (T3 e3 eq_refl). left. exact Hold. }
  destruct (O3 out eq_refl) as [Hout [_ [K3 _]]]. injection Hout as <-.
  rewrite <- (K3 p) in Hold by congruence.
  unfold bind at 1 in H.
  destruct (spawn_detached E (String c cmd) lp w3) as [r4 w4] eqn:H4.
  apply spawn_run in H4. destruct H4 as [F4 _]. rewrite <- F4 in Hold.
  destruct r4 as [pid|e4]; [|injection H as <- <-; left; exact Hold].
  unfold bind at 1 in H.
  destruct (writeFileSync E (VStr p) (pid_toString pid) w4) as [r5 w5] eqn:H5.
  apply writeFileSync_run in H5. destruct H5 as (L5 & _ & _ & T5).
  destruct r5 as [[]|e5]; [discriminate |].
  injection H as <- <-. destruct (T5 e5 eq_refl) as [Hsame | [k Hk]].
  - left. rewrite Hsame. exact Hold.
  - right. exists pid, k. split; [|exact Hk]. rewrite L5. apply last_snoc.
Qed.

(** X4: when [startServerDetached] throws, the pid file an earlier
    launch has left is as it was, whatever the step that failed, with one
    exception: when the last call is the writing of the pid file and it
    fails after the file was opened, the file holds a part of the new
    text.  The log path is another path than the pid path. *)
Theorem failed_launch_keeps_or_truncates_pid_file
        (cmd : option string) (p : string) (logPath : value) (old : string)
        (e : exn) (w w' : World) :
  startServerDetached E cmd (VStr p) logPath w = (Throw e, w') ->
  logPath <> VStr p ->
  fs w !! p = Some (File old) ->
  fs w' !! p = Some (File old) \/
  exists pid k,
    last (log w') = Some (WriteFile p (pid_toString pid)) /\
    fs w' !! p = Some (File (take k (pid_toString pid))).
Proof. apply startServerDetached_failed. Qed.

End Launch.

(** X5: the pid a launch records is the pid the next run signals.  After
    [startServerDetached] has returned the pid [n], [killPidFile] on the
    same path, in any later world where the pid file is unchanged and can
    be read, sends exactly one signal, to [n]. *)
Theorem killPidFile_reaps_launched_server
        (E1 E2 : Env) (c : ascii) (cmd p : string) (logPath : value) (n : Z)
        (w w' w2 : World) :
  startServerDetached E1 (Some (String c cmd)) (VStr p) logPath w
    = (Ok (Some n), w') ->
  is_nonempty p = true ->
  (0 < n < finite_bound)%Z ->
  fs w2 !! p = fs w' !! p ->
  io_fails E2 (S (length (log w2))) = false ->
  killPidFile E2 (VStr p) w2 =
  (Ok tt, mkWorld (fs w2) (log w2 ++ [Access p; ReadFile p; Kill (of_Z n)])).
Proof.
  intros Hstart Hp Hn Hsame Hio.
  destruct (startServerDetached_done E1 _ _ _ _ _ _ _ Hstart)
    as [lp [_ [Hfile _]]].
  rewrite <- Hsame in Hfile. cbn [pid_toString] in Hfile.
  rewrite (killPidFile_existing_file E2 p (Z_toString n) w2 Hp Hfile Hio).
  rewrite (trim_digits _ (proj1 (decimal_is_digits n (proj1 Hn)))).
  rewrite Number_of_decimal by lia.
  rewrite of_Z_finite by lia. reflexivity.
Qed.

Lemma killPidFile_run E v w r w' :
  killPidFile E v w = (r, w') ->
  exists new,
    w' = mkWorld (fs w) (log w ++ new) /\
    length (kills new) <= 1 /\
    (forall e, r = Throw e -> kills new = []).
Proof.
  unfold killPidFile. destruct (value_truthy v) eqn:Hv; cbn [negb].
  2:{ intros [= <- <-]. exists []. rewrite app_nil_r, world_eta. cbn.
      repeat split; try lia. }
  destruct v as [p| |l].
  2,3: (unfold bind; rewrite fileExists_not_string by discriminate; cbn;
        intros [= <- <-]; exists []; rewrite app_nil_r, world_eta; cbn;
        repeat split; lia).
  unfold bind at 1. rewrite fileExists_string.
  destruct (bool_decide (is_Some (fs w !! p))); cbn [negb].
  2:{ intros [= <- <-]. exists [Access p]. cbn. repeat split; lia. }
  unfold bind at 1.
  destruct (readFileSync E p (mkWorld (fs w) (log w ++ [Access p])))
    as [r1 w1] eqn:Hr.
  apply readFileSync_run in Hr. cbn [fs log] in Hr. destruct Hr as [F1 [L1 _]].
  destruct r1 as [content|e].
  2:{ intros [= <- <-]. exists [Access p; ReadFile p].
      rewrite <- (world_eta w1), F1, L1, <- app_assoc.
      cbn. repeat split; lia. }
  destruct (isFinite (StringToNumber (trim content))); cbn [negb].
  - unfold try_catch, process_kill. unfold bind, syscall, ret, throw. cbn [fs log].
    destruct (kill_throws E _ _); cbn; intros [= <- <-];
      exists [Access p; ReadFile p; Kill (StringToNumber (trim content))];
      rewrite F1, L1, <- !app_assoc; cbn; repeat split; try lia; discriminate.
  - cbn [ret]. intros [= <- <-]. exists [Access p; ReadFile p].
    rewrite <- (world_eta w1), F1, L1, <- app_assoc.
    cbn. repeat split; lia.
Qed.

Lemma killPidFile_reaps_launched_server_witness :
  exists w',
    startServerDetached Scenario.quiet_env (Some "node serve")
                        (VStr Scenario.pid_file) (VStr log_file)
                        Scenario.empty_world = (Ok (Some 4242%Z), w') /\
    killPidFile Scenario.quiet_env (VStr Scenario.pid_file) w' =
    (Ok tt,
     mkWorld (fs w')
             (log w' ++ [Access Scenario.pid_file; ReadFile Scenario.pid_file;
                         Kill (of_Z 4242)])).
Proof.
  destruct (startServerDetached Scenario.quiet_env (Some "node serve")
              (VStr Scenario.pid_file) (VStr log_file) Scenario.empty_world)
    as [[pid|e] w'] eqn:H; [|vm_compute in H; discriminate].
  assert (pid = Some 4242%Z) as ->.
  { pose proof H as H'. vm_compute in H'. injection H' as <- _. reflexivity. }
  exists w'. split; [reflexivity |].
  apply (killPidFile_reaps_launched_server Scenario.quiet_env Scenario.quiet_env
           "n"%char "ode serve" Scenario.pid_file (VStr log_file) 4242
           Scenario.empty_world w' w' H).
  - reflexivity.
  - unfold finite_bound. lia.
  - reflexivity.
  - reflexivity.
Defined.

(** X6: whatever the path, the host and the world, [killPidFile] changes
    no file and sends at most one signal, and none at all when it throws. *)
Theorem killPidFile_at_most_one_signal (E : Env) (v : value) (w : World) :
  exists new,
    snd (killPidFile E v w) = mkWorld (fs w) (log w ++ new) /\
    length (kills new) <= 1 /\
    (forall e, fst (killPidFile E v w) = Throw e -> kills new = []).
Proof.
  destruct (killPidFile E v w) as [r w'] eqn:H.
  destruct (killPidFile_run E v w r w' H) as [new [-> [Hle Hthrow]]].
  exists new. cbn. repeat split; assumption.
Qed.

(** X7: a pid path that names a directory passes the existence test, so
    [killPidFile] tries to read it and throws; no signal is sent. *)
Theorem killPidFile_on_directory_throws (E : Env) (p : string) (w : World) :
  is_nonempty p = true ->
  fs w !! p = Some Dir ->
  io_fails E (S (length (log w))) = false ->
  killPidFile E (VStr p) w =
  (Throw (SysError "EISDIR"), mkWorld (fs w) (log w ++ [Access p; ReadFile p])).
Proof.
  intros Hne Hp Hio. unfold killPidFile. cbn [value_truthy]. rewrite Hne. cbn [negb].
  unfold bind at 1. rewrite fileExists_string, Hp.
  rewrite bool_decide_eq_true_2 by eauto. cbn [negb].
  unfold readFileSync, io_check. unfold bind, syscall, get_node, ret, throw.
  cbn [fs log]. rewrite length_app. cbn [length]. rewrite Nat.add_1_r, Hio.
  cbn. rewrite Hp. cbn. rewrite <- app_assoc. reflexivity.
Qed.

Lemma killPidFile_on_directory_throws_witness :
  killPidFile Scenario.quiet_env (VStr Scenario.pid_file)
              world_with_pid_directory =
  (Throw (SysError "EISDIR"),
   mkWorld (fs world_with_pid_directory)
           (log world_with_pid_directory
              ++ [Access Scenario.pid_file; ReadFile Scenario.pid_file])).
Proof.
  apply (killPidFile_on_directory_throws Scenario.quiet_env Scenario.pid_file
           world_with_pid_directory); reflexivity.
Defined.

Lemma killPort_signals_listed_pids_witness :
  killPort listening_env (of_Z 4321) Scenario.empty_world =
  (Ok tt,
   mkWorld (fs Scenario.empty_world)
           (log Scenario.empty_world
              ++ ExecFile "lsof" (lsof_args listening_env (of_Z 4321))
              :: map (fun n => Kill (Fin (inject_Z n))) [101%Z; 202%Z])).
Proof.
  apply (killPort_signals_listed_pids listening_env (of_Z 4321) [101%Z; 202%Z]
           Scenario.empty_world).
  - reflexivity.
  - discriminate.
  - unfold max_exact. repeat constructor; lia.
  - reflexivity.
Defined.

Lemma startServerDetached_records_pid_witness :
  exists w',
    startServerDetached Scenario.quiet_env (Some "node serve")
                        (VStr Scenario.pid_file) (VStr log_file)
                        Scenario.empty_world = (Ok (Some 4242%Z), w') /\
    fs w' !! Scenario.pid_file = Some (File "4242").
Proof.
  destruct (startServerDetached Scenario.quiet_env (Some "node serve")
              (VStr Scenario.pid_file) (VStr log_file) Scenario.empty_world)
    as [[pid|e] w'] eqn:H; [|vm_compute in H; discriminate].
  assert (pid = Some 4242%Z) as ->.
  { pose proof H as H'. vm_compute in H'. injection H' as <- _. reflexivity. }
  exists w'. split; [reflexivity |].
  destruct (startServerDetached_records_pid Scenario.quiet_env "n"%char
              "ode serve" Scenario.pid_file (VStr log_file) (Some 4242%Z)
              Scenario.empty_world w' H) as [lp [_ [Hf _]]].
  exact Hf.
Defined.

Lemma failed_launch_keeps_or_truncates_pid_file_witness :
  exists e w',
    startServerDetached env_write_fails (Some "node serve")
                        (VStr Scenario.pid_file) (VStr log_file)
                        world_with_old_pid = (Throw e, w') /\
    (fs w' !! Scenario.pid_file = Some (File "123") \/
     exists pid k,
       last (log w') = Some (WriteFile Scenario.pid_file (pid_toString pid)) /\
       fs w' !! Scenario.pid_file = Some (File (take k (pid_toString pid)))).
Proof.
  destruct (startServerDetached env_write_fails (Some "node serve")
              (VStr Scenario.pid_file) (VStr log_file) world_with_old_pid)
    as [[pid|e] w'] eqn:H; [vm_compute in H; discriminate |].
  exists e, w'. split; [reflexivity |].
  apply (failed_launch_keeps_or_truncates_pid_file env_write_fails
           (Some "node serve") Scenario.pid_file (VStr log_file) "123" e
           world_with_old_pid w' H).
  - discriminate.
  - reflexivity.
Defined.

End LaunchFacts.

(** ** The poll, whatever the endpoint answers *)

Module PollFacts.
Import Js JsFacts JsNumber Os Script Spec HealthFacts ReclaimFacts.

Section Poll.
Variable E : Env.
Variables (url : string) (waitMs : Z).

Lemma waitForHealth_loop_outcome n w :
  exists b new,
    waitForHealth_loop E url waitMs n w =
      (Ok b, mkWorld (fs w) (log w ++ new)) /\
    length (fetches new) <= n /\
    length (sleeps new) <= length (fetches new) /\
    kills new = [] /\
    (b = true <->
     exists j, j < n /\
               fetch_reply E (count_fetches (log w) + j) url = Resolves true).
Proof.
  revert w. induction n as [|n IH]; intros w.
  - exists false, []. cbn. rewrite app_nil_r, world_eta.
    repeat split; try lia; try discriminate. intros [j [Hj _]]. lia.
  - cbn [waitForHealth_loop]. unfold bind at 1. unfold fetch at 1.
    destruct (fetch_reply E (count_fetches (log w)) url) as [[|]|] eqn:Hr.
    + exists true, [Fetch url]. cbn. repeat split; try lia.
      intros _. exists 0. rewrite Nat.add_0_r. split; [lia | exact Hr].
    + unfold bind, sleep, syscall, ret. simpl.
      destruct (IH (mkWorld (fs w) ((log w ++ [Fetch url]) ++ [Sleep waitMs])))
        as [b [new [Hrun [Hf [Hs [Hk Hb]]]]]].
      cbn [fs log] in Hrun, Hb. rewrite Hrun.
      exists b, ([Fetch url; Sleep waitMs] ++ new).
      rewrite fetches_app, sleeps_app, kills_app, !length_app, Hk.
      cbn. rewrite <- !app_assoc. repeat split; try lia; try reflexivity.
      * intros Hbt. destruct (proj1 Hb Hbt) as [j [Hj Hj']].
        exists (S j). split; [lia |].
        rewrite !count_fetches_app in Hj'. cbn in Hj'.
        replace (count_fetches (log w) + S j)
          with (count_fetches (log w) + 1 + 0 + j) by lia. exact Hj'.
      * intros [j [Hj Hj']]. apply Hb. destruct j as [|j].
        { rewrite Nat.add_0_r in Hj'. congruence. }
        exists j. split; [lia |].
        rewrite !count_fetches_app. cbn.
        replace (count_fetches (log w) + 1 + 0 + j)
          with (count_fetches (log w) + S j) by lia. exact Hj'.
    + unfold bind, sleep, syscall, ret. simpl.
      destruct (IH (mkWorld (fs w) ((log w ++ [Fetch url]) ++ [Sleep waitMs])))
        as [b [new [Hrun [Hf [Hs [Hk Hb]]]]]].
      cbn [fs log] in Hrun, Hb. rewrite Hrun.
      exists b, ([Fetch url; Sleep waitMs] ++ new).
      rewrite fetches_app, sleeps_app, kills_app, !length_app, Hk.
      cbn. rewrite <- !app_assoc. repeat split; try lia; try reflexivity.
      * intros Hbt. destruct (proj1 Hb Hbt) as [j [Hj Hj']].
        exists (S j). split; [lia |].
        rewrite !count_fetches_app in Hj'. cbn in Hj'.
        replace (count_fetches (log w) + S j)
          with (count_fetches (log w) + 1 + 0 + j) by lia. exact Hj'.
      * intros [j [Hj Hj']]. apply Hb. destruct j as [|j].
        { rewrite Nat.add_0_r in Hj'. congruence. }
        exists j. split; [lia |].
        rewrite !count_fetches_app. cbn.
        replace (count_fetches (log w) + 1 + 0 + j)
          with (count_fetches (log w) + S j) by lia. exact Hj'.
Qed.

End Poll.

(** X8: whatever the endpoint answers, [waitForHealth] makes at most
    [maxAttempts] requests, pauses at most once per request, signals no
    process and changes no file; it returns [true] exactly when one of the
    first [maxAttempts] answers is ok, and otherwise throws the error that
    names the URL. *)
Theorem waitForHealth_outcome
        (E : Env) (url : value) (attempts delayMs : Z) (w : World) :
  exists new,
    snd (waitForHealth E url attempts delayMs w) = mkWorld (fs w) (log w ++ new) /\
    length (fetches new) <= Z.to_nat (budget attempts) /\
    length (sleeps new) <= length (fetches new) /\
    kills new = [] /\
    (fst (waitForHealth E url attempts delayMs w) = Ok true <->
     exists j, 1 <= j <= Z.to_nat (budget attempts) /\
               reply_to_attempt E w (value_toString url) j = Resolves true) /\
    (fst (waitForHealth E url attempts delayMs w) = Ok true \/
     fst (waitForHealth E url attempts delayMs w) =
       Throw (Error ("server not healthy at " +:+ value_toString url))).
Proof.
  unfold waitForHealth. fold (budget attempts). fold (pause delayMs).
  unfold bind.
  destruct (waitForHealth_loop_outcome E (value_toString url) (pause delayMs)
              (Z.to_nat (budget attempts)) w)
    as [b [new [Hrun [Hf [Hs [Hk Hb]]]]]].
  rewrite Hrun. exists new.
  assert (b = true <->
          exists j, 1 <= j <= Z.to_nat (budget attempts) /\
                    reply_to_attempt E w (value_toString url) j = Resolves true)
    as Hb'.
  { rewrite Hb. unfold reply_to_attempt. split.
    - intros [j [Hj Hr]]. exists (S j). split; [lia |].
      replace (S j - 1) with j by lia. exact Hr.
    - intros [j [Hj Hr]]. exists (j - 1). split; [lia | exact Hr]. }
  split; [destruct b; reflexivity |].
  split; [exact Hf |]. split; [exact Hs |]. split; [exact Hk |].
  destruct b; cbn.
  - split; [|left; reflexivity].
    split; [intros _; apply Hb'; reflexivity | reflexivity].
  - split; [|right; reflexivity].
    split; [discriminate | intros H; apply Hb' in H; discriminate].
Qed.

(** X9: a negative attempt count is not replaced by the default (only 0
    is): the loop body never runs and [waitForHealth] throws at once,
    without a single request. *)
Theorem waitForHealth_negative_budget
        (E : Env) (url : value) (attempts delayMs : Z) (w : World) :
  (attempts < 0)%Z ->
  waitForHealth E url attempts delayMs w =
  (Throw (Error ("server not healthy at " +:+ value_toString url)), w).
Proof.
  intros Hneg. unfold waitForHealth.
  destruct (attempts =? 0)%Z eqn:H0; [apply Z.eqb_eq in H0; lia |].
  destruct attempts as [|p|p]; try lia. reflexivity.
Qed.

Lemma waitForHealth_negative_budget_witness :
  waitForHealth Scenario.quiet_env (VStr "http://localhost:4321/api/health")
                (-1) 400 Scenario.empty_world =
  (Throw (Error "server not healthy at http://localhost:4321/api/health"),
   Scenario.empty_world).
Proof.
  apply (waitForHealth_negative_budget Scenario.quiet_env
           (VStr "http://localhost:4321/api/health") (-1) 400
           Scenario.empty_world).
  lia.
Defined.

End PollFacts.

(** ** The manifest *)

Module ManifestFacts.
Import Js JsFacts JsNumber Validator Os Script Spec ValidatorFacts PrimFacts.

(** X10: [hasUnescapedAmp] returns [true] exactly for the values that
    contain an ampersand whose suffix starts with none of [&amp;], [&lt;],
    [&gt;], [&quot;] and [&apos;]. *)
Theorem hasUnescapedAmp_finds_bare_ampersand (v : string) :
  hasUnescapedAmp v = true <-> bare_amp v.
Proof. apply hasUnescapedAmp_spec. Qed.

Lemma occurs_includes needle text :
  occurs needle text <-> includes text needle = true.
Proof. symmetry. apply includes_spec. Qed.

Lemma scan_empty vals :
  fst (scan vals) = [] <-> Forall (fun v => ~ bare_amp v) vals.
Proof.
  split; [|intros H; rewrite scan_clean by exact H; reflexivity].
  induction vals as [|v vals IH]; [constructor |].
  cbn [scan]. destruct (hasUnescapedAmp v) eqn:Hv; [discriminate |].
  destruct (scan vals) as [found n]. cbn in *. intros H.
  constructor; [apply hasUnescapedAmp_false; exact Hv | apply IH; exact H].
Qed.

Lemma validateManifestText_empty text :
  validateManifestText text = [] <-> well_formed text.
Proof.
  rewrite validateManifestText_scan. unfold well_formed.
  rewrite !occurs_includes, <- scan_empty. unfold required_checks.
  destruct (includes text "<OfficeApp"), (includes text "<Id>"),
    (includes text "SourceLocation"); cbn;
    destruct (fst (scan (defaultValues text)));
    split; try discriminate; try tauto; intros [? [? [? ?]]]; discriminate.
Qed.

(** X11: [validateManifestText] returns the empty list exactly for the
    texts in which the three required substrings occur and no extracted
    value has a bare ampersand. *)
Theorem validateManifestText_accepts_well_formed (text : string) :
  validateManifestText text = [] <-> well_formed text.
Proof. apply validateManifestText_empty. Qed.

Lemma append_assoc (a b c : string) : (a +:+ b) +:+ c = a +:+ (b +:+ c).
Proof.
  induction a as [|x a IH]; [reflexivity |].
  change (String x (a +:+ b) +:+ c = String x (a +:+ (b +:+ c))).
  change (String x ((a +:+ b) +:+ c) = String x (a +:+ (b +:+ c))).
  rewrite IH. reflexivity.
Qed.

Lemma take_drop i s : take i s +:+ drop i s = s.
Proof.
  revert s. induction i as [|i IH]; intros s.
  - destruct s; reflexivity.
  - destruct s as [|c s]; [reflexivity |].
    change (String c (take i s +:+ drop i s) = String c s). rewrite IH. reflexivity.
Qed.

Lemma attr_open_length : String.length attr_open = 14.
Proof. reflexivity. Qed.

(** A match found from position [i] on stands in the text, and its end is
    at least 15 characters after [i]. *)
Lemma exec_at_value s i v j :
  exec_at s i = Some (v, j) ->
  attribute_value_of s v /\ i + 15 <= j.
Proof.
  revert i. induction s as [|c s IH]; intros i; cbn [exec_at].
  - destruct (match_here EmptyString) as [u|] eqn:Hm; [|discriminate].
    apply match_here_length in Hm. unfold match_length in Hm. simpl in Hm. lia.
  - destruct (match_here (String c s)) as [u|] eqn:Hm.
    + intros [= <- <-]. apply match_here_spec in Hm. destruct Hm as [Hq [post Hs]].
      split; [|unfold match_length; rewrite attr_open_length; lia].
      split; [exact Hq |]. exists EmptyString, post. exact Hs.
    + intros H. apply IH in H. destruct H as [[Hq [pre [post Hs]]] Hj].
      split; [|lia]. split; [exact Hq |].
      exists (String c pre), post. rewrite Hs. reflexivity.
Qed.

Lemma attrRegex_exec_value text i v j :
  attrRegex_exec text i = Some (v, j) ->
  attribute_value_of text v /\ i + 15 <= j /\ j <= String.length text.
Proof.
  intros H. pose proof (attrRegex_exec_bounds _ _ _ _ H) as [_ Hj].
  unfold attrRegex_exec in H.
  destruct (String.length text <? i); [discriminate |].
  apply exec_at_value in H. destruct H as [[Hq [pre [post Hs]]] Hmin].
  split; [|lia]. split; [exact Hq |].
  exists (take i text +:+ pre), post.
  rewrite append_assoc, <- Hs. symmetry. apply take_drop.
Qed.

Lemma matches_from_values fuel text i :
  i <= String.length text ->
  Forall (attribute_value_of text) (matches_from fuel text i) /\
  15 * length (matches_from fuel text i) + i <= String.length text.
Proof.
  revert i. induction fuel as [|fuel IH]; intros i Hi.
  - cbn. split; [constructor | lia].
  - rewrite matches_from_S.
    destruct (attrRegex_exec text i) as [[v j]|] eqn:Hx; [|cbn; split; [constructor | lia]].
    apply attrRegex_exec_value in Hx. destruct Hx as [Hv [Hmin Hmax]].
    destruct (IH j Hmax) as [Hall Hlen].
    split; [constructor; assumption | cbn [length]; lia].
Qed.

(** X12: every value the [DefaultValue] pattern extracts is free of
    double quotes and stands in the text between the opening
    [DefaultValue=] with its quote and a closing quote; the matches do not
    overlap, so there are at most a fifteenth of the text's length. *)
Theorem defaultValues_are_attribute_values (text : string) :
  Forall (attribute_value_of text) (defaultValues text) /\
  15 * length (defaultValues text) <= String.length text.
Proof.
  unfold defaultValues.
  destruct (matches_from_values (S (String.length text)) text 0 ltac:(lia))
    as [Hall Hlen].
  split; [exact Hall | lia].
Qed.

Section File.
Variable E : Env.

Lemma validateManifestFile_run p text w :
  fs w !! p = Some (File text) ->
  io_fails E (length (log w)) = false ->
  validateManifestFile E p w =
  (match validateManifestText text with
   | [] => Ok tt
   | issues => Throw (Error ("Manifest invalid: " +:+ join "; " issues))
   end,
   mkWorld (fs w) (log w ++ [ReadFile p])).
Proof.
  intros Hp Hio. unfold validateManifestFile, readFileSync, io_check.
  unfold bind, syscall, get_node, ret, throw. cbn [fs log].
  rewrite Hio. cbn. rewrite Hp. cbn.
  destruct (validateManifestText text); reflexivity.
Qed.

Lemma validateManifestFile_verdict p text w :
  fs w !! p = Some (File text) ->
  io_fails E (length (log w)) = false ->
  (well_formed text ->
   validateManifestFile E p w = (Ok tt, mkWorld (fs w) (log w ++ [ReadFile p]))) /\
  (~ well_formed text ->
   validateManifestFile E p w =
   (Throw (Error ("Manifest invalid: "
                  +:+ join "; " (validateManifestText text))),
    mkWorld (fs w) (log w ++ [ReadFile p]))).
Proof.
  intros Hp Hio. rewrite (validateManifestFile_run p text w Hp Hio).
  rewrite <- validateManifestText_empty.
  destruct (validateManifestText text) as [|i l]; split; intros H;
    try reflexivity; congruence.
Qed.

(** X13: on a manifest file that can be read, [validateManifestFile]
    returns normally exactly when the text is well formed; otherwise it
    throws the error listing every defect, joined by a semicolon and a
    space.  Either way the only effect is the reading of the file. *)
Theorem validateManifestFile_accepts_iff_well_formed
        (p text : string) (w : World) :
  fs w !! p = Some (File text) ->
  io_fails E (length (log w)) = false ->
  (well_formed text ->
   validateManifestFile E p w = (Ok tt, mkWorld (fs w) (log w ++ [ReadFile p]))) /\
  (~ well_formed text ->
   validateManifestFile E p w =
   (Throw (Error ("Manifest invalid: "
                  +:+ join "; " (validateManifestText text))),
    mkWorld (fs w) (log w ++ [ReadFile p]))).
Proof. apply validateManifestFile_verdict. Qed.

End File.

Lemma validateManifestFile_accepts_iff_well_formed_witness :
  validateManifestFile Scenario.quiet_env manifest_file
    (mkWorld {[ manifest_file := File good_manifest ]} []) =
    (Ok tt, mkWorld {[ manifest_file := File good_manifest ]}
                    [ReadFile manifest_file]) /\
  validateManifestFile Scenario.quiet_env manifest_file
    (mkWorld {[ manifest_file := File bad_manifest ]} []) =
    (Throw (Error "Manifest invalid: missing <Id>; unescaped & in DefaultValue: A & B"),
     mkWorld {[ manifest_file := File bad_manifest ]} [ReadFile manifest_file]).
Proof.
  split.
  - refine (proj1 (validateManifestFile_accepts_iff_well_formed
                     Scenario.quiet_env manifest_file good_manifest
                     (mkWorld {[ manifest_file := File good_manifest ]} [])
                     _ _) _); [reflexivity | reflexivity |].
    apply validateManifestText_empty. vm_compute. reflexivity.
  - refine (proj2 (validateManifestFile_accepts_iff_well_formed
                     Scenario.quiet_env manifest_file bad_manifest
                     (mkWorld {[ manifest_file := File bad_manifest ]} [])
                     _ _) _); [reflexivity | reflexivity |].
    intros H. apply validateManifestText_empty in H. vm_compute in H. discriminate.
Defined.

End ManifestFacts.

(** ** The command line *)

Module CommandLineFacts.
Import Js JsFacts JsNumber Os Script Spec ConfigFacts.

(** X14: when [parseArgs] returns, the object has the key [k] exactly when
    [--k] is one of the arguments (for every key but [_] and
    [__proto__]): an argument that starts with two dashes is always a
    flag, never the value of the flag before it. *)
Theorem parseArgs_key_iff_flag
        (argv : list string) (args : gmap string value) (k : string) :
  k <> "_" -> k <> "__proto__" ->
  parseArgs argv = Ok args ->
  (is_Some (args !! k) <-> In ("--" +:+ k) argv).
Proof. apply parseArgs_keys. Qed.

Lemma parseArgs_key_iff_flag_witness :
  is_Some (args_of ["--port"; "8080"; "--restart"] !! "restart") <->
  In "--restart" ["--port"; "8080"; "--restart"].
Proof.
  apply (parseArgs_key_iff_flag ["--port"; "8080"; "--restart"]
           (args_of ["--port"; "8080"; "--restart"]) "restart").
  - discriminate.
  - discriminate.
  - vm_compute. reflexivity.
Defined.

Lemma set_prop_other out key v k :
  key <> k -> set_prop out key v !! k = out !! k.
Proof.
  intros Hne. unfold set_prop. destruct (String.eqb key "__proto__"); [reflexivity |].
  apply lookup_insert_ne. exact Hne.
Qed.

Lemma flag_key_not_positional token :
  startsWith token "--" = true -> token <> "--_" -> drop 2 token <> "_".
Proof.
  intros Htok Hne Hk. apply Hne. apply (flag_token token "_" Htok). exact Hk.
Qed.

Lemma parseArgs_loop_positional n :
  forall args out l0,
    length args <= n ->
    ~ In "--_" args ->
    out !! "_" = Some (VList l0) ->
    exists res l,
      parseArgs_loop args out = Ok res /\
      res !! "_" = Some (VList (l0 ++ l)) /\
      Forall (fun t => In t args /\ startsWith t "--" = false) l.
Proof.
  induction n as [|n IH]; intros args out l0 Hlen Hno Hout.
  - destruct args; [|simpl in Hlen; lia].
    exists out, []. rewrite app_nil_r. repeat split; [exact Hout | constructor].
  - destruct args as [|token rest].
    { exists out, []. rewrite app_nil_r. repeat split; [exact Hout | constructor]. }
    simpl in Hlen. cbn [parseArgs_loop].
    assert (token <> "--_") as Htok0 by (intros ->; apply Hno; left; reflexivity).
    assert (~ In "--_" rest) as Hrest by (intros H; apply Hno; right; exact H).
    destruct (startsWith token "--") eqn:Htok.
    + pose proof (flag_key_not_positional token Htok Htok0) as Hkey.
      destruct rest as [|next rest'].
      * cbn [parseArgs_loop]. eexists _, []. rewrite app_nil_r.
        split; [reflexivity |].
        split; [rewrite set_prop_other by exact Hkey; exact Hout | constructor].
      * destruct (is_nonempty next && negb (startsWith next "--")).
        -- destruct (IH rest' (set_prop out (drop 2 token) (VStr next)) l0)
             as [res [l [Hres [Hl Hall]]]].
           ++ simpl in Hlen. lia.
           ++ intros H. apply Hrest. right. exact H.
           ++ rewrite set_prop_other by exact Hkey. exact Hout.
           ++ exists res, l. split; [exact Hres |]. split; [exact Hl |].
              eapply Forall_impl; [exact Hall |].
              intros t [Hin Ht]. split; [right; right; exact Hin | exact Ht].
        -- destruct (IH (next :: rest') (set_prop out (drop 2 token) VTrue) l0)
             as [res [l [Hres [Hl Hall]]]].
           ++ lia.
           ++ exact Hrest.
           ++ rewrite set_prop_other by exact Hkey. exact Hout.
           ++ exists res, l. split; [exact Hres |]. split; [exact Hl |].
              eapply Forall_impl; [exact Hall |].
              intros t [Hin Ht]. split; [right; exact Hin | exact Ht].
    + rewrite Hout.
      destruct (IH rest (<["_" := VList (l0 ++ [token])]> out) (l0 ++ [token]))
        as [res [l [Hres [Hl Hall]]]].
      * lia.
      * exact Hrest.
      * apply lookup_insert_eq.
      * exists res, (token :: l). split; [exact Hres |].
        split; [rewrite Hl, <- app_assoc; reflexivity |].
        constructor; [split; [left; reflexivity | exact Htok] |].
        eapply Forall_impl; [exact Hall |].
        intros t [Hin Ht]. split; [right; exact Hin | exact Ht].
Qed.

(** X15: [parseArgs] can only throw when [--_] is among the arguments.
    Without it, parsing succeeds and [_] holds a list of arguments that
    do not start with two dashes. *)
Theorem parseArgs_succeeds_without_underscore_flag (argv : list string) :
  ~ In "--_" argv ->
  exists args positional,
    parseArgs argv = Ok args /\
    args !! "_" = Some (VList positional) /\
    Forall (fun t => In t argv /\ startsWith t "--" = false) positional.
Proof.
  intros Hno. unfold parseArgs.
  destruct (parseArgs_loop_positional (length argv) argv {["_" := VList []]} []
              (le_n _) Hno (lookup_singleton_eq _ _))
    as [res [l [Hres [Hl Hall]]]].
  exists res, l. repeat split; assumption.
Qed.

Lemma parseArgs_succeeds_without_underscore_flag_witness :
  exists args positional,
    parseArgs ["help"; "--port"; "8080"; "extra"] = Ok args /\
    args !! "_" = Some (VList positional) /\
    Forall (fun t => In t ["help"; "--port"; "8080"; "extra"] /\
                     startsWith t "--" = false) positional.
Proof.
  apply (parseArgs_succeeds_without_underscore_flag
           ["help"; "--port"; "8080"; "extra"]).
  simpl. intros [H | [H | [H | [H | []]]]]; discriminate.
Defined.

Lemma parseArgs_loop_values argv0 n :
  forall args out res,
    length args <= n ->
    (forall t, In t args -> In t argv0) ->
    (forall k v, k <> "_" -> out !! k = Some v -> flag_value argv0 v) ->
    parseArgs_loop args out = Ok res ->
    forall k v, k <> "_" -> res !! k = Some v -> flag_value argv0 v.
Proof.
  induction n as [|n IH]; intros args out res Hlen Hin Hout Hres.
  - destruct args; [|simpl in Hlen; lia]. simpl in Hres.
    injection Hres as <-. exact Hout.
  - destruct args as [|token rest];
      [simpl in Hres; injection Hres as <-; exact Hout |].
    simpl in Hlen. cbn [parseArgs_loop] in Hres.
    assert (forall v0, flag_value argv0 v0 ->
              forall k v, k <> "_" ->
                set_prop out (drop 2 token) v0 !! k = Some v ->
                flag_value argv0 v) as Hset.
    { intros v0 Hv0 k v Hk. unfold set_prop.
      destruct (String.eqb (drop 2 token) "__proto__"); [apply Hout, Hk |].
      destruct (decide (drop 2 token = k)) as [->|Hne].
      - rewrite lookup_insert_eq. intros [= <-]. exact Hv0.
      - rewrite lookup_insert_ne by exact Hne. apply Hout, Hk. }
    destruct (startsWith token "--").
    + destruct rest as [|next rest'].
      * cbn [parseArgs_loop] in Hres. injection Hres as <-.
        apply Hset. left. reflexivity.
      * destruct (is_nonempty next && negb (startsWith next "--")) eqn:Hc.
        -- apply andb_true_iff in Hc. destruct Hc as [Hne Hnf].
           apply negb_true_iff in Hnf.
           eapply (IH rest'); [| | | exact Hres].
           ++ simpl in Hlen. lia.
           ++ intros t Ht. apply Hin. right. right. exact Ht.
           ++ apply Hset. right. exists next.
              repeat split; try assumption. apply Hin. right. left. reflexivity.
        -- eapply (IH (next :: rest')); [| | | exact Hres].
           ++ lia.
           ++ intros t Ht. apply Hin. right. exact Ht.
           ++ apply Hset. left. reflexivity.
    + destruct (out !! "_") as [[s| |l]|] eqn:Hu; try discriminate.
      eapply (IH rest); [| | | exact Hres].
      * lia.
      * intros t Ht. apply Hin. right. exact Ht.
      * intros k v Hk. rewrite lookup_insert_ne by congruence. apply Hout, Hk.
Qed.

Lemma parseArgs_loop_app n :
  forall a out b,
    length a <= n ->
    (forall t b', b = t :: b' -> startsWith t "--" = true) ->
    parseArgs_loop (a ++ b) out =
    match parseArgs_loop a out with
    | Ok o => parseArgs_loop b o
    | Throw e => Throw e
    end.
Proof.
  induction n as [|n IH]; intros a out b Hlen Hb.
  - destruct a; [reflexivity | simpl in Hlen; lia].
  - destruct a as [|token rest]; [reflexivity |].
    simpl in Hlen. cbn [app parseArgs_loop].
    destruct (startsWith token "--").
    + destruct rest as [|next rest'].
      * cbn [app parseArgs_loop]. destruct b as [|t b']; [reflexivity |].
        rewrite (Hb t b' eq_refl). rewrite andb_false_r. reflexivity.
      * cbn [app].
        destruct (is_nonempty next && negb (startsWith next "--")).
        -- apply IH; [simpl in Hlen; lia | exact Hb].
        -- apply (IH (next :: rest')); [lia | exact Hb].
    + destruct (out !! "_") as [[s| |l]|]; try reflexivity.
      apply IH; [lia | exact Hb].
Qed.

(** Arguments that do not name the flag [k] leave its entry alone. *)
Lemma parseArgs_loop_untouched k n :
  k <> "_" ->
  forall args out res,
    length args <= n ->
    ~ In ("--" +:+ k) args ->
    parseArgs_loop args out = Ok res ->
    res !! k = out !! k.
Proof.
  intros Hu. induction n as [|n IH]; intros args out res Hlen Hno Hres.
  - destruct args; [|simpl in Hlen; lia]. injection Hres as <-. reflexivity.
  - destruct args as [|token rest]; [injection Hres as <-; reflexivity |].
    simpl in Hlen. cbn [parseArgs_loop] in Hres.
    assert (token <> "--" +:+ k) as Htok0 by (intros ->; apply Hno; left; reflexivity).
    assert (~ In ("--" +:+ k) rest) as Hrest by (intros H; apply Hno; right; exact H).
    destruct (startsWith token "--") eqn:Htok.
    + assert (drop 2 token <> k) as Hkey
        by (intros H; apply Htok0; apply (flag_token token k Htok); exact H).
      destruct rest as [|next rest'].
      * cbn [parseArgs_loop] in Hres. injection Hres as <-.
        apply set_prop_other. exact Hkey.
      * assert (length rest' <= n) as Hlen' by (simpl in Hlen; lia).
        assert (~ In ("--" +:+ k) rest') as Hrest'
          by (intros H; apply Hrest; right; exact H).
        destruct (is_nonempty next && negb (startsWith next "--")).
        -- rewrite (IH rest' _ res Hlen' Hrest' Hres).
           apply set_prop_other. exact Hkey.
        -- assert (length (next :: rest') <= n) as Hlen2 by lia.
           rewrite (IH (next :: rest') _ res Hlen2 Hrest Hres).
           apply set_prop_other. exact Hkey.
    + destruct (out !! "_") as [[s0| |l]|] eqn:Hout; try discriminate.
      assert (length rest <= n) as Hlen' by lia.
      rewrite (IH rest _ res Hlen' Hrest Hres).
      apply lookup_insert_ne. congruence.
Qed.

Lemma parseArgs_after_last_flag pre k post args :
  k <> "_" -> k <> "__proto__" ->
  ~ In ("--" +:+ k) post ->
  parseArgs (pre ++ ("--" +:+ k) :: post) = Ok args ->
  args !! k =
  Some match post with
       | next :: _ =>
           if is_nonempty next && negb (startsWith next "--")
           then VStr next else VTrue
       | [] => VTrue
       end.
Proof.
  intros Hu Hk Hno. unfold parseArgs.
  rewrite (parseArgs_loop_app (length pre) pre _ (("--" +:+ k) :: post) (le_n _)).
  2:{ intros t b' [= <- _]. reflexivity. }
  destruct (parseArgs_loop pre {["_" := VList []]}) as [o|e]; [|discriminate].
  cbn [parseArgs_loop].
  assert (startsWith ("--" +:+ k) "--" = true) as -> by reflexivity.
  assert (drop 2 ("--" +:+ k) = k) as -> by reflexivity.
  assert (forall v, set_prop o k v !! k = Some v) as Hset.
  { intros v. unfold set_prop.
    destruct (String.eqb k "__proto__") eqn:Hp;
      [apply String.eqb_eq in Hp; congruence |].
    apply lookup_insert_eq. }
  destruct post as [|next rest].
  - cbn [parseArgs_loop]. intros [= <-]. apply Hset.
  - destruct (is_nonempty next && negb (startsWith next "--")); intros Hres.
    + assert (~ In ("--" +:+ k) rest) as Hrest
        by (intros H; apply Hno; right; exact H).
      rewrite (parseArgs_loop_untouched k (length rest) Hu rest _ args
                 (le_n _) Hrest Hres).
      apply Hset.
    + rewrite (parseArgs_loop_untouched k (length (next :: rest)) Hu
                 (next :: rest) _ args (le_n _) Hno Hres).
      apply Hset.
Qed.

(** X16: what a flag holds is decided by what follows its last
    occurrence, whatever comes before and after.  It holds the next
    argument when that is not empty and does not start with two dashes;
    it holds [true], never an empty string, when the next argument is
    empty or starts with two dashes, or when there is none. *)
Theorem parseArgs_flag_values
        (pre post : list string) (k : string) (args : gmap string value) :
  k <> "_" -> k <> "__proto__" ->
  ~ In ("--" +:+ k) post ->
  parseArgs (pre ++ ("--" +:+ k) :: post) = Ok args ->
  (forall next rest,
     post = next :: rest ->
     is_nonempty next = true -> startsWith next "--" = false ->
     args !! k = Some (VStr next)) /\
  (forall next rest,
     post = next :: rest ->
     next = EmptyString \/ startsWith next "--" = true ->
     args !! k = Some VTrue) /\
  (post = [] -> args !! k = Some VTrue).
Proof.
  intros Hu Hk Hno Hres.
  rewrite (parseArgs_after_last_flag pre k post args Hu Hk Hno Hres).
  split; [|split].
  - intros next rest -> Hne Hnf. rewrite Hne, Hnf. reflexivity.
  - intros next rest -> [-> | Hf]; [reflexivity |].
    rewrite Hf, andb_false_r. reflexivity.
  - intros ->. reflexivity.
Qed.

Lemma parseArgs_flag_values_witness :
  args_of ([] ++ "--manifest" :: [EmptyString; "--port"; "8080"]) !! "manifest"
  = Some VTrue.
Proof.
  refine (proj1 (proj2 (parseArgs_flag_values [] [EmptyString; "--port"; "8080"]
                          "manifest"
                          (args_of ([] ++ "--manifest"
                                       :: [EmptyString; "--port"; "8080"]))
                          _ _ _ _))
            EmptyString ["--port"; "8080"] eq_refl (or_introl eq_refl)).
  - discriminate.
  - discriminate.
  - simpl. intros [H | [H | [H | []]]]; discriminate.
  - vm_compute. reflexivity.
Defined.

(** X17: the last occurrence of a flag wins.  Whatever comes before, when
    the command line ends with [--k] and a value that is not empty and
    does not start with two dashes, the parsed object holds that value
    under [k]. *)
Theorem parseArgs_last_flag_wins
        (argv : list string) (k v : string) (args : gmap string value) :
  k <> "__proto__" ->
  is_nonempty v = true ->
  startsWith v "--" = false ->
  parseArgs (argv ++ ["--" +:+ k; v]) = Ok args ->
  args !! k = Some (VStr v).
Proof.
  intros Hk Hne Hnf. unfold parseArgs.
  rewrite (parseArgs_loop_app (length argv) argv _ ["--" +:+ k; v] (le_n _)).
  2:{ intros t b' [= <- _]. reflexivity. }
  destruct (parseArgs_loop argv {["_" := VList []]}) as [o|e]; [|discriminate].
  cbn [parseArgs_loop].
  assert (startsWith ("--" +:+ k) "--" = true) as -> by reflexivity.
  rewrite Hne, Hnf. cbn [negb andb].
  assert (drop 2 ("--" +:+ k) = k) as -> by reflexivity.
  intros [= <-]. unfold set_prop.
  destruct (String.eqb k "__proto__") eqn:Hp;
    [apply String.eqb_eq in Hp; congruence |].
  apply lookup_insert_eq.
Qed.

Lemma parseArgs_last_flag_wins_witness :
  args_of (["--port"; "1"; "--app"; "word"] ++ ["--port"; "8080"]) !! "port"
  = Some (VStr "8080").
Proof.
  apply (parseArgs_last_flag_wins ["--port"; "1"; "--app"; "word"] "port" "8080").
  - discriminate.
  - reflexivity.
  - reflexivity.
  - vm_compute. reflexivity.
Defined.

End CommandLineFacts.

(** ** Whole runs *)

Module RunFacts.
Import Js JsFacts JsNumber Validator Os Script Spec.
Import ConfigFacts OrchestratorFacts SkipFacts ManifestFacts CommandLineFacts.

Section Runs.
Variable E : Env.

Lemma help_flag_requested argv args :
  parseArgs argv = Ok args -> In "--help" argv -> help_requested args = true.
Proof.
  intros Hp Hin. unfold help_requested.
  destruct (proj2 (parseArgs_keys argv args "help"
                     ltac:(discriminate) ltac:(discriminate) Hp) Hin)
    as [v Hv].
  rewrite Hv. cbn [option_truthy].
  rewrite (parseArgs_truthy argv args Hp "help" v Hv). apply orb_true_r.
Qed.

(** X18: with [--help] among the arguments and no [--_], which is the
    one argument that makes the parsing throw, the run writes the usage
    text and exits with 0 whatever the other arguments are: no function of
    the orchestration is called, no file is touched and nothing else is
    logged. *)
Theorem help_prints_usage_only (argv : list string) (r : Run) :
  ~ In "--_" argv ->
  In "--help" argv ->
  run E argv r =
  (0%Z,
   mkRun (calls r)
         (mkWorld (fs (world r)) (log (world r) ++ [Stdout (usage +:+ nl)]))).
Proof.
  intros Hno Hin.
  destruct (parseArgs_loop_positional (length argv) argv {["_" := VList []]} []
              (le_n _) Hno (lookup_singleton_eq _ _))
    as [args [l [Hp _]]].
  change (parseArgs argv = Ok args) in Hp.
  unfold run. rewrite main_unfold, Hp.
  rewrite (help_flag_requested argv args Hp Hin). reflexivity.
Qed.

(** X19: a run that is no help request and returns normally has called
    the blocks in their fixed order, each at most once: validation, cache
    clearing, sideloading, one reclamation, the launch, the health check
    and the restart, those the configuration switches off being left
    out. *)
Theorem completed_run_calls_blocks_in_order
        (argv : list string) (args : gmap string value) (c : Config)
        (r r' : Run) :
  parseArgs argv = Ok args ->
  help_requested args = false ->
  resolveConfig E args = Ok c ->
  main E argv r = (Ok tt, r') ->
  calls r' =
  calls r ++ validate_calls c ++ clearCache_calls c ++ sideload_calls c
          ++ reclaim_calls c ++ [F_startServerDetached]
          ++ health_calls c ++ restart_calls c.
Proof.
  intros Hp Hh Hc Hmain. rewrite main_unfold, Hp, Hh, Hc in Hmain.
  destruct (main_steps_calls E c r) as [k [Hk [Hdone _]]].
  rewrite Hmain in Hk, Hdone. cbn [fst snd] in Hk, Hdone.
  rewrite (Hdone tt eq_refl) in Hk. rewrite Hk. cbn [firstn block_calls concat].
  rewrite app_nil_r. reflexivity.
Qed.

Lemma resolved_manifest_nonempty args c p :
  resolveConfig E args = Ok c -> manifestPath c = Some p -> is_nonempty p = true.
Proof.
  intros Hc Hm. rewrite (resolveConfig_manifestPath E _ _ Hc) in Hm.
  destruct (args !! "manifest") as [v|]; [|discriminate].
  destruct (value_truthy v); [|discriminate].
  injection Hm as <-. apply path_resolve_nonempty.
Qed.

(** X20: a manifest that is not well formed stops the run before any
    side effect.  With validation on and a readable manifest, the run
    reads the file, writes the list of defects to the standard error and
    exits with 1; [validateManifestFile] is its only call and no file is
    changed. *)
Theorem invalid_manifest_aborts_before_side_effects
        (argv : list string) (args : gmap string value) (c : Config)
        (p text : string) (r : Run) :
  parseArgs argv = Ok args ->
  help_requested args = false ->
  resolveConfig E args = Ok c ->
  manifestPath c = Some p ->
  validate c = true ->
  fs (world r) !! p = Some (File text) ->
  io_fails E (length (log (world r))) = false ->
  ~ well_formed text ->
  run E argv r =
  (1%Z,
   mkRun (calls r ++ [F_validateManifestFile])
         (mkWorld (fs (world r))
                  (log (world r)
                     ++ [ReadFile p;
                         Stderr ("Manifest invalid: "
                                 +:+ join "; " (validateManifestText text)
                                 +:+ nl)]))).
Proof.
  intros Hp Hh Hc Hm Hv Hfile Hio Hbad.
  unfold run. rewrite main_unfold, Hp, Hh, Hc.
  unfold main_steps, bind at 1. unfold step_validate.
  rewrite Hm, (resolved_manifest_nonempty args c p Hc Hm), Hv. cbn [andb].
  rewrite call_run.
  rewrite (proj2 (validateManifestFile_verdict
                    E p text (world r) Hfile Hio) Hbad).
  cbn. rewrite <- app_assoc. reflexivity.
Qed.

(** X21: sideloading without a manifest is refused before anything is
    done.  With sideload on, no manifest and cache clearing off, the run
    writes the error to the standard error and exits with 1, having called
    nothing and touched no file. *)
Theorem sideload_without_manifest_is_refused
        (argv : list string) (args : gmap string value) (c : Config) (r : Run) :
  parseArgs argv = Ok args ->
  help_requested args = false ->
  resolveConfig E args = Ok c ->
  manifestPath c = None ->
  sideload c = true ->
  clearCache c = false ->
  run E argv r =
  (1%Z,
   mkRun (calls r)
         (mkWorld (fs (world r))
                  (log (world r)
                     ++ [Stderr ("manifest is required when sideload=true"
                                 +:+ nl)]))).
Proof.
  intros Hp Hh Hc Hm Hs Hcl.
  unfold run. rewrite main_unfold, Hp, Hh, Hc.
  unfold main_steps, bind, step_validate, step_clearCache, step_sideload.
  rewrite Hm, Hs, Hcl. reflexivity.
Qed.

End Runs.
Lemma help_prints_usage_only_witness :
  run Scenario.quiet_env help_among_others
      (Scenario.fresh Scenario.empty_world) =
  (0%Z, mkRun [] (mkWorld ∅ [Stdout (usage +:+ nl)])).
Proof.
  apply (help_prints_usage_only Scenario.quiet_env help_among_others
           (Scenario.fresh Scenario.empty_world)).
  - simpl. intros [H | [H | [H | [H | [H | []]]]]]; discriminate.
  - simpl. tauto.
Defined.

Lemma completed_run_calls_blocks_in_order_witness :
  exists r',
    main (Scenario.env_replying (fun _ => Resolves true)) server_only
         (Scenario.fresh Scenario.empty_world) = (Ok tt, r') /\
    calls r' = [F_killPort; F_startServerDetached; F_waitForHealth].
Proof.
  destruct (main (Scenario.env_replying (fun _ => Resolves true)) server_only
              (Scenario.fresh Scenario.empty_world)) as [[[]|e] r'] eqn:Hmain;
    [|vm_compute in Hmain; discriminate].
  exists r'. split; [reflexivity |].
  destruct (resolveConfig (Scenario.env_replying (fun _ => Resolves true))
              (args_of server_only)) as [c|e] eqn:Hc;
    [|vm_compute in Hc; discriminate].
  rewrite (completed_run_calls_blocks_in_order
             (Scenario.env_replying (fun _ => Resolves true)) server_only
             (args_of server_only) c (Scenario.fresh Scenario.empty_world) r').
  - vm_compute in Hc. injection Hc as <-. reflexivity.
  - vm_compute. reflexivity.
  - vm_compute. reflexivity.
  - exact Hc.
  - exact Hmain.
Defined.

Lemma invalid_manifest_aborts_before_side_effects_witness :
  run Scenario.quiet_env manifest_argv
      (Scenario.fresh world_with_bad_manifest) =
  (1%Z,
   mkRun [F_validateManifestFile]
         (mkWorld (fs world_with_bad_manifest)
                  [ReadFile manifest_file;
                   Stderr ("Manifest invalid: missing <Id>; unescaped & in DefaultValue: A & B"
                           +:+ nl)])).
Proof.
  destruct (resolveConfig Scenario.quiet_env (args_of manifest_argv))
    as [c|e] eqn:Hc; [|vm_compute in Hc; discriminate].
  refine (invalid_manifest_aborts_before_side_effects Scenario.quiet_env
            manifest_argv (args_of manifest_argv) c manifest_file bad_manifest
            (Scenario.fresh world_with_bad_manifest) _ _ Hc _ _ _ _ _).
  - vm_compute. reflexivity.
  - vm_compute. reflexivity.
  - vm_compute in Hc. injection Hc as <-. reflexivity.
  - vm_compute in Hc. injection Hc as <-. reflexivity.
  - reflexivity.
  - reflexivity.
  - intros H. apply validateManifestText_empty in H.
    vm_compute in H. discriminate.
Defined.

Lemma sideload_without_manifest_is_refused_witness :
  run Scenario.quiet_env sideload_without_manifest
      (Scenario.fresh Scenario.empty_world) =
  (1%Z,
   mkRun [] (mkWorld ∅ [Stderr ("manifest is required when sideload=true"
                                +:+ nl)])).
Proof.
  destruct (resolveConfig Scenario.quiet_env (args_of sideload_without_manifest))
    as [c|e] eqn:Hc; [|vm_compute in Hc; discriminate].
  refine (sideload_without_manifest_is_refused Scenario.quiet_env
            sideload_without_manifest (args_of sideload_without_manifest) c
            (Scenario.fresh Scenario.empty_world) _ _ Hc _ _ _).
  - vm_compute. reflexivity.
  - vm_compute. reflexivity.
  - vm_compute in Hc. injection Hc as <-. reflexivity.
  - vm_compute in Hc. injection Hc as <-. reflexivity.
  - vm_compute in Hc. injection Hc as <-. reflexivity.
Defined.

End RunFacts.

(** ** The host applications: restart, cache, sideload *)

Module AppFacts.
Import Js JsFacts JsNumber Os Script Spec ReclaimFacts PrimFacts ManifestFacts.

Section Apps.
Variable E : Env.

Lemma relaunch_each apps w :
  (forall n args, exec_reply E n "open" args <> None) ->
  forEach (fun app =>
             try_catch
               (_ <- execFileSync E "osascript"
                       ["-e"; "quit app " +:+ String dquote app
                              +:+ String dquote EmptyString] ;;
                ret tt)
               (ret tt) ;;
             _ <- execFileSync E "open" ["-a"; app] ;;
             ret tt)%os
          apps w =
  (Ok tt, mkWorld (fs w) (log w ++ flat_map relaunch_events apps)).
Proof.
  intros Hopen. revert w. induction apps as [|app apps IH]; intros w.
  - cbn. unfold ret. rewrite app_nil_r, world_eta. reflexivity.
  - cbn [forEach flat_map]. unfold bind at 1. unfold bind at 1.
    unfold try_catch, execFileSync. unfold bind, syscall, ret, throw. cbn [fs log].
    destruct (exec_reply E (length (log w)) "osascript" _); cbn;
      (destruct (exec_reply E (length (log w ++ _)) "open" ["-a"; app]) eqn:Ho;
       [|exfalso; exact (Hopen _ _ Ho)]);
      cbn; rewrite IH; cbn; unfold relaunch_events;
      rewrite <- !app_assoc; reflexivity.
Qed.

(** X22: [restartApps] reopens every target application whether or not it
    could be told to quit.  As long as [open] succeeds, it returns
    normally and has run, for each target in order, the quit and then the
    open. *)
Theorem restartApps_reopens_each_app
        (appValue : string) (apps : list string) (w : World) :
  resolveAppTargets appValue w = (Ok apps, w) ->
  (forall n args, exec_reply E n "open" args <> None) ->
  restartApps E appValue w =
  (Ok tt, mkWorld (fs w) (log w ++ flat_map relaunch_events apps)).
Proof.
  intros Hres Hopen. unfold restartApps, bind at 1. rewrite Hres.
  apply relaunch_each. exact Hopen.
Qed.

Lemma resolveAppTargets_cases appValue apps w :
  resolveAppTargets appValue w = (Ok apps, w) ->
  apps = ["Microsoft Word"] \/ apps = ["Microsoft Excel"] \/
  apps = ["Microsoft Word"; "Microsoft Excel"].
Proof.
  unfold resolveAppTargets.
  destruct (String.eqb _ "word" || String.eqb _ "both"),
    (String.eqb _ "excel" || String.eqb _ "both"); cbn;
    intros [= <-]; tauto.
Qed.

Lemma trashPaths_without_trash l w :
  exec_reply E (length (log w)) "which" ["trash"] = None ->
  trashPaths E l w =
  (Throw (Error "trash command not found (install or skip --clear-cache)"),
   mkWorld (fs w) (log w ++ [ExecFile "which" ["trash"]])).
Proof.
  intros Hwhich. unfold trashPaths, findTrashBin, bind at 1.
  unfold try_catch, execFileSync. unfold bind, syscall, ret, throw. cbn [fs log].
  rewrite Hwhich. reflexivity.
Qed.

(** X23: on macOS with HOME set, when there is no [trash] command,
    [clearOfficeCache] throws the error that says so after the one
    [which trash] lookup: nothing is trashed. *)
Theorem clearOfficeCache_without_trash
        (appValue home : string) (apps : list string) (w : World) :
  platform E = "darwin" ->
  env_HOME E = Some home ->
  is_nonempty home = true ->
  resolveAppTargets appValue w = (Ok apps, w) ->
  exec_reply E (length (log w)) "which" ["trash"] = None ->
  clearOfficeCache E appValue w =
  (Throw (Error "trash command not found (install or skip --clear-cache)"),
   mkWorld (fs w) (log w ++ [ExecFile "which" ["trash"]])).
Proof.
  intros Hpl Hhome Hne Hres Hwhich.
  unfold clearOfficeCache, home_dir. rewrite Hpl, Hhome. cbv zeta. rewrite Hne.
  change (String.eqb "darwin" "darwin") with true. cbn [negb].
  unfold bind at 1. rewrite Hres.
  destruct (resolveAppTargets_cases _ _ _ Hres) as [-> | [-> | ->]];
    cbn [forEach]; unfold bind at 1; unfold bind at 1.
  - change (String.eqb "Microsoft Word" "Microsoft Word") with true. cbv iota.
    rewrite trashPaths_without_trash by exact Hwhich. reflexivity.
  - change (String.eqb "Microsoft Excel" "Microsoft Word") with false. cbv iota.
    unfold ret at 1.
    change (String.eqb "Microsoft Excel" "Microsoft Excel") with true. cbv iota.
    rewrite trashPaths_without_trash by exact Hwhich. reflexivity.
  - change (String.eqb "Microsoft Word" "Microsoft Word") with true. cbv iota.
    rewrite trashPaths_without_trash by exact Hwhich. reflexivity.
Qed.

(** One target of the sideload: the directory is made, then the manifest
    copied into it.  The manifest is a file before and after, and no other
    file is lost. *)
Lemma install_one src dir dst w w' :
  (ensureDir E dir ;; copyFileSync E src dst)%os w = (Ok tt, w') ->
  exists c,
    fs w !! src = Some (File c) /\
    fs w' !! dst = Some (File c) /\
    fs w' !! src = Some (File c) /\
    (forall k n, k <> dst -> fs w !! k = Some n -> fs w' !! k = Some n).
Proof.
  intros H. apply bind_Ok in H as ([] & w1 & Hmk & Hcp).
  unfold ensureDir in Hmk.
  destruct (mkdirSync_run E _ _ _ _ Hmk) as (_ & Hk1 & Hkeep & _).
  destruct (copyFileSync_run E _ _ _ _ _ Hcp) as (_ & Hk2 & Hok & _).
  destruct (Hok eq_refl) as (c & Hsrc & Hdst).
  assert (fs w !! src = Some (File c)) as Hsrc0.
  { destruct (Hk1 src) as [Heq | [_ Hdir]]; congruence. }
  exists c. split; [exact Hsrc0 |]. split; [exact Hdst |]. split.
  - destruct (decide (src = dst)) as [-> | Hsd]; [exact Hdst |].
    rewrite Hk2 by exact Hsd. exact Hsrc.
  - intros k n Hkd Hk. rewrite Hk2 by exact Hkd. apply Hkeep. exact Hk.
Qed.

Lemma sideloadMacManifest_installs_aux src appValue w w' :
  sideloadMacManifest E src appValue w = (Ok tt, w') ->
  (appValue = "word" \/ appValue = "excel" \/ appValue = "both") /\
  exists c,
    fs w !! src = Some (File c) /\
    (appValue = "word" \/ appValue = "both" ->
     fs w' !! installed_at E "com.microsoft.Word" src = Some (File c)) /\
    (appValue = "excel" \/ appValue = "both" ->
     fs w' !! installed_at E "com.microsoft.Excel" src = Some (File c)).
Proof.
  unfold sideloadMacManifest, installed_at.
  destruct (is_nonempty (home_dir E)); cbn [negb]; [|discriminate].
  set (home := home_dir E). set (base := path_basename src).
  destruct (String.eqb appValue "word") eqn:Hw;
    [apply String.eqb_eq in Hw; subst appValue; cbn
    |destruct (String.eqb appValue "excel") eqn:He;
     [apply String.eqb_eq in He; subst appValue; cbn
     |destruct (String.eqb appValue "both") eqn:Hb;
      [apply String.eqb_eq in Hb; subst appValue; cbn
      |cbn; discriminate]]].
  - (* word *)
    intros H. apply bind_Ok in H as ([] & w1 & H1 & Hret).
    injection Hret as <-.
    destruct (install_one _ _ _ _ _ H1) as (c & Hsrc & Hdst & _).
    split; [tauto |]. exists c. split; [exact Hsrc |]. split.
    + intros _. exact Hdst.
    + intros [[=] | [=]].
  - (* excel *)
    intros H. apply bind_Ok in H as ([] & w1 & H1 & Hret).
    injection Hret as <-.
    destruct (install_one _ _ _ _ _ H1) as (c & Hsrc & Hdst & _).
    split; [tauto |]. exists c. split; [exact Hsrc |]. split.
    + intros [[=] | [=]].
    + intros _. exact Hdst.
  - (* both: the second copy has the content of the first *)
    intros H. apply bind_Ok in H as ([] & w1 & H1 & H).
    apply bind_Ok in H as ([] & w2 & H2 & Hret).
    injection Hret as <-.
    destruct (install_one _ _ _ _ _ H1) as (c & Hsrc & Hdst & Hsrc1 & _).
    destruct (install_one _ _ _ _ _ H2) as (c' & Hsrc' & Hdst' & _ & Hk).
    rewrite Hsrc1 in Hsrc'. injection Hsrc' as <-.
    split; [tauto |]. exists c. split; [exact Hsrc |]. split.
    + intros _.
      destruct (decide (path_join [wef home "com.microsoft.Word"; base]
                        = path_join [wef home "com.microsoft.Excel"; base]))
        as [Heq | Hne].
      * rewrite Heq. exact Hdst'.
      * apply Hk; [exact Hne | exact Hdst].
    + intros _. exact Hdst'.
Qed.

(** X24: when [sideloadMacManifest] returns normally, the application was
    one of word, excel and both, the manifest was a file, and every
    selected application's wef folder now holds a file named as the
    manifest with the manifest's content. *)
Theorem sideloadMacManifest_installs_copy
        (src appValue : string) (w w' : World) :
  sideloadMacManifest E src appValue w = (Ok tt, w') ->
  (appValue = "word" \/ appValue = "excel" \/ appValue = "both") /\
  exists c,
    fs w !! src = Some (File c) /\
    (appValue = "word" \/ appValue = "both" ->
     fs w' !! installed_at E "com.microsoft.Word" src = Some (File c)) /\
    (appValue = "excel" \/ appValue = "both" ->
     fs w' !! installed_at E "com.microsoft.Excel" src = Some (File c)).
Proof. apply sideloadMacManifest_installs_aux. Qed.

End Apps.

Lemma restartApps_reopens_each_app_witness :
  restartApps env_only_open "both" Scenario.empty_world =
  (Ok tt,
   mkWorld (fs Scenario.empty_world)
           (log Scenario.empty_world
              ++ flat_map relaunch_events ["Microsoft Word"; "Microsoft Excel"])).
Proof.
  apply (restartApps_reopens_each_app env_only_open "both"
           ["Microsoft Word"; "Microsoft Excel"] Scenario.empty_world).
  - reflexivity.
  - intros n args. discriminate.
Defined.

Lemma clearOfficeCache_without_trash_witness :
  clearOfficeCache env_only_open "excel" Scenario.empty_world =
  (Throw (Error "trash command not found (install or skip --clear-cache)"),
   mkWorld (fs Scenario.empty_world)
           (log Scenario.empty_world ++ [ExecFile "which" ["trash"]])).
Proof.
  apply (clearOfficeCache_without_trash env_only_open "excel" "/Users/dev"
           ["Microsoft Excel"] Scenario.empty_world); reflexivity.
Defined.

Lemma sideloadMacManifest_installs_copy_witness :
  exists w',
    sideloadMacManifest Scenario.quiet_env manifest_file "both"
                        world_with_good_manifest = (Ok tt, w') /\
    fs w' !! installed_at Scenario.quiet_env "com.microsoft.Word" manifest_file
      = Some (File good_manifest) /\
    fs w' !! installed_at Scenario.quiet_env "com.microsoft.Excel" manifest_file
      = Some (File good_manifest).
Proof.
  destruct (sideloadMacManifest Scenario.quiet_env manifest_file "both"
              world_with_good_manifest) as [[[]|e] w'] eqn:H;
    [|vm_compute in H; discriminate].
  exists w'. split; [reflexivity |].
  destruct (sideloadMacManifest_installs_copy Scenario.quiet_env manifest_file
              "both" world_with_good_manifest w' H)
    as (_ & c & Hsrc & Hword & Hexcel).
  assert (c = good_manifest) as ->.
  { vm_compute in Hsrc. injection Hsrc as <-. reflexivity. }
  split; [apply Hword | apply Hexcel]; right; reflexivity.
Defined.

End AppFacts.

(** ** Configuration errors, flags and the outcome of a run *)

Module OutcomeFacts.
Import Js JsFacts JsNumber Os Script Spec ReclaimFacts PrimFacts.
Import ConfigFacts SkipFacts CommandLineFacts.

Lemma lower_char_idempotent c : lower_char (lower_char c) = lower_char c.
Proof. destruct c as [[] [] [] [] [] [] [] []]; vm_compute; reflexivity. Qed.

Lemma toLowerCase_idempotent s : toLowerCase (toLowerCase s) = toLowerCase s.
Proof.
  induction s as [|c s IH]; [reflexivity |].
  cbn [toLowerCase]. rewrite lower_char_idempotent, IH. reflexivity.
Qed.

(** X28: [boolArg] does not look at the case of a flag's value: what it
    returns for a string is what it returns for the string in lower
    case. *)
Theorem boolArg_ignores_case
        (args : gmap string value) (key s : string) (d : bool) :
  boolArg (<[key := VStr s]> args) key d =
  boolArg (<[key := VStr (toLowerCase s)]> args) key d.
Proof.
  unfold boolArg. rewrite !lookup_insert_eq. cbn [value_toString].
  rewrite toLowerCase_idempotent. reflexivity.
Qed.

Section Outcome.
Variable E : Env.

(** X26: [fileExists] never throws and changes no file, whatever it is
    given; it answers true exactly when its argument is a string that
    names a node of the file system. *)
Theorem fileExists_reports_presence (v : value) (w : World) :
  exists b w',
    fileExists v w = (Ok b, w') /\
    fs w' = fs w /\
    (b = true <-> exists s, v = VStr s /\ is_Some (fs w !! s)).
Proof.
  destruct v as [s| |l].
  - exists (bool_decide (is_Some (fs w !! s))), (mkWorld (fs w) (log w ++ [Access s])).
    split; [apply fileExists_string |]. split; [reflexivity |].
    rewrite bool_decide_eq_true. split.
    + intros H. exists s. split; [reflexivity | exact H].
    + intros (s' & [= <-] & H). exact H.
  - exists false, w. split; [reflexivity |]. split; [reflexivity |].
    split; [discriminate | intros (s & [=] & _)].
  - exists false, w. split; [reflexivity |]. split; [reflexivity |].
    split; [discriminate | intros (s & [=] & _)].
Qed.

Lemma parsed_app_not_list argv args l :
  parseArgs argv = Ok args -> args !! "app" <> Some (VList l).
Proof.
  intros Hres Hv. unfold parseArgs in Hres.
  assert (flag_value argv (VList l)) as [Hf | (s & Hf & _)];
    [|discriminate Hf | discriminate Hf].
  refine (parseArgs_loop_values argv (length argv) argv
            {["_" := VList []]} args (le_n _) (fun t H => H) _ Hres
            "app" (VList l) ltac:(discriminate) Hv).
  intros k' v' Hk'. rewrite lookup_singleton_ne by congruence. discriminate.
Qed.

Lemma process_cwd_Throw e :
  process_cwd E = Throw e -> cwd E = None /\ e = SysError "ENOENT".
Proof.
  unfold process_cwd. destruct (cwd E); [discriminate |].
  intros [= <-]. split; reflexivity.
Qed.

Lemma resolve_Throw p e :
  resolve E p = Throw e -> cwd E = None /\ e = SysError "ENOENT".
Proof.
  unfold resolve. destruct (startsWith p "/"); [discriminate |].
  destruct (process_cwd E) as [d|e0] eqn:Hd; [discriminate |].
  intros [= <-]. exact (process_cwd_Throw e0 Hd).
Qed.

Lemma or_in_cache_Throw o name e :
  or_in_cache E o name = Throw e -> cwd E = None /\ e = SysError "ENOENT".
Proof.
  unfold or_in_cache. destruct (option_truthy o); [discriminate |].
  destruct (process_cwd E) as [d|e0] eqn:Hd; [discriminate |].
  intros [= <-]. exact (process_cwd_Throw e0 Hd).
Qed.

Lemma resolve_total d p : cwd E = Some d -> exists q, resolve E p = Ok q.
Proof.
  intros Hd. unfold resolve, process_cwd. rewrite Hd.
  destruct (startsWith p "/"); eexists; reflexivity.
Qed.

Lemma or_in_cache_total d o name :
  cwd E = Some d -> exists v, or_in_cache E o name = Ok v.
Proof.
  intros Hd. unfold or_in_cache, process_cwd. rewrite Hd.
  destruct (option_truthy o); eexists; reflexivity.
Qed.

(** The value of [args.manifest ? path.resolve(...) : null]. *)
Lemma manifest_part_cases (args : gmap string value) :
  (exists mp,
     match args !! "manifest" with
     | Some v =>
         if value_truthy v
         then and_then (resolve E (value_toString v)) (fun p => Ok (Some p))
         else Ok None
     | None => Ok None
     end = Ok mp) \/
  (cwd E = None /\
   match args !! "manifest" with
   | Some v =>
       if value_truthy v
       then and_then (resolve E (value_toString v)) (fun p => Ok (Some p))
       else Ok None
   | None => Ok None
   end = Throw (SysError "ENOENT")).
Proof.
  destruct (args !! "manifest") as [v|]; [|left; eexists; reflexivity].
  destruct (value_truthy v); [|left; eexists; reflexivity].
  destruct (resolve E (value_toString v)) as [p|e] eqn:Hp.
  - left. eexists. reflexivity.
  - right. destruct (resolve_Throw _ _ Hp) as [Hc ->]. split; [exact Hc | reflexivity].
Qed.

Lemma resolveConfig_outcome argv (args : gmap string value) :
  parseArgs argv = Ok args ->
  (forall e, resolveConfig E args = Throw e ->
     e = TypeError toLowerCase_error \/
     (cwd E = None /\ e = SysError "ENOENT")) /\
  (cwd E <> None ->
   (args !! "app" = Some VTrue ->
    resolveConfig E args = Throw (TypeError toLowerCase_error)) /\
   (args !! "app" <> Some VTrue -> exists c, resolveConfig E args = Ok c)).
Proof.
  intros Hres. pose proof (parsed_app_not_list argv args) as Hlist.
  specialize (fun l => Hlist l Hres).
  unfold resolveConfig. split.
  - intros e.
    destruct (manifest_part_cases args) as [[mp ->] | [Hc ->]];
      [|intros [= <-]; right; split; [exact Hc | reflexivity]].
    cbn [and_then].
    destruct (value_or (args !! "app") (VStr "word")) as [app| |l];
      [|intros [= <-]; left; reflexivity | intros [= <-]; left; reflexivity].
    destruct (or_in_cache E (args !! "pid-file") "server.pid") as [pp|e1] eqn:H1;
      [|intros [= <-]; right; exact (or_in_cache_Throw _ _ _ H1)].
    destruct (or_in_cache E (args !! "log-file") "server.log") as [lp|e2] eqn:H2;
      [discriminate | intros [= <-]; right; exact (or_in_cache_Throw _ _ _ H2)].
  - intros Hcwd. destruct (cwd E) as [d|] eqn:Hd; [clear Hcwd | congruence].
    destruct (manifest_part_cases args) as [[mp ->] | [Hc _]]; [|congruence].
    cbn [and_then].
    destruct (or_in_cache_total d (args !! "pid-file") "server.pid" Hd) as [pp ->].
    destruct (or_in_cache_total d (args !! "log-file") "server.log" Hd) as [lp ->].
    cbn [and_then].
    destruct (args !! "app") as [[s| |l]|] eqn:Happ.
    + split; [discriminate |]. intros _. cbn [value_or value_truthy].
      destruct (is_nonempty s); eexists; reflexivity.
    + split; [reflexivity | congruence].
    + exfalso. exact (Hlist l eq_refl).
    + split; [discriminate |]. intros _. eexists. reflexivity.
Qed.

(** X27: on a parsed command line the configuration is resolved but in
    two cases.  An [--app] flag without a value is stored as [true], on
    which line 263 calls [toLowerCase]: a TypeError.  And the current
    directory, which lines 262, 265 and 266 ask for, may be gone: a system
    error.  When the current directory is there, the resolution fails
    exactly when [--app] has no value. *)
Theorem resolveConfig_fails_only_on_bare_app_flag
        (argv : list string) (args : gmap string value) :
  parseArgs argv = Ok args ->
  (forall e, resolveConfig E args = Throw e ->
     e = TypeError ("(args.app || " +:+ q +:+ "word" +:+ q
                    +:+ ").toLowerCase is not a function") \/
     (cwd E = None /\ e = SysError "ENOENT")) /\
  (cwd E <> None ->
   (args !! "app" = Some VTrue ->
    resolveConfig E args =
    Throw (TypeError ("(args.app || " +:+ q +:+ "word" +:+ q
                      +:+ ").toLowerCase is not a function"))) /\
   (args !! "app" <> Some VTrue -> exists c, resolveConfig E args = Ok c)).
Proof. apply resolveConfig_outcome. Qed.






(** X29: a child that could not be created ends the run with exit code
    1, and the script writes no error.  With the health check on, the run
    stops at the first request of the poll: nothing is awaited, no pause,
    no restart.  With the health check off, [main] is never suspended:
    the restart block and the report are run, up to the end or to the
    error the restart throws, and the exit code is 1 all the same; with
    the restart off too, the last thing written is the ok line. *)
Theorem child_without_pid_ends_run
        (argv : list string) (args : gmap string value) (c : Config)
        (r : Run) (pid : option Z) (r5 : Run) :
  parseArgs argv = Ok args ->
  help_requested args = false ->
  resolveConfig E args = Ok c ->
  up_to_launch E c r = (Ok pid, r5) ->
  child_failed c pid = true ->
  (health c = true ->
   run E argv r =
   (1%Z,
    mkRun (calls r5 ++ [F_waitForHealth])
          (mkWorld (fs (world r5))
                   (log (world r5)
                      ++ [Fetch (value_toString (healthUrl c))])))) /\
  (health c = false ->
   run E argv r =
   (1%Z, snd ((step_restart E c ;; step_report E c pid)%os r5))) /\
  (health c = false -> restart c = false ->
   run E argv r =
   (1%Z,
    mkRun (calls r5)
          (mkWorld (fs (world r5))
                   (log (world r5)
                      ++ [Stdout ("ok (pid=none port="
                                  +:+ toString (num_repr E) (port c)
                                  +:+ ")" +:+ nl)])))).
Proof.
  intros Hp Hh Hc Hup Hchild.
  assert (pid = None) as ->.
  { unfold child_failed in Hchild.
    destruct (serverCmd c) as [[|a cmd]|], pid; congruence. }
  assert (run E argv r =
          match after_launch E c None r5 with
          | (Ok _, r') => (0%Z, r')
          | (Throw (Uncaught _), r') => (1%Z, r')
          | (Throw err, r') =>
              (1%Z,
               snd (direct
                      (stderr_write
                         ((if is_nonempty (exn_message err)
                           then exn_message err else "Error") +:+ nl)) r'))
          end) as Hrun.
  { unfold run. rewrite main_unfold, Hp, Hh, Hc.
    rewrite OrchestratorFacts.main_steps_split, Hup. reflexivity. }
  rewrite Hrun. unfold after_launch, doomed_steps, then_child_error.
  rewrite Hchild. split; [|split].
  - intros ->. reflexivity.
  - intros ->. reflexivity.
  - intros -> Hrestart. unfold step_restart. rewrite Hrestart. reflexivity.
Qed.

End Outcome.

Lemma child_without_pid_ends_run_witness :
  exists r',
    run env_child_fails server_only (Scenario.fresh Scenario.empty_world)
      = (1%Z, r') /\
    calls r' = [F_killPort; F_startServerDetached; F_waitForHealth] /\
    log (world r') =
      [ExecFile "lsof" ["-nP"; "-iTCP:4321"; "-sTCP:LISTEN"; "-t"];
       Mkdir "/work/.cache/verify"; Mkdir "/work/.cache/verify";
       OpenAppend log_file; Spawn "node serve" log_file;
       WriteFile Scenario.pid_file "undefined";
       Fetch "http://localhost:4321/api/health"].
Proof.
  assert (parseArgs server_only = Ok (args_of server_only)) as Hp
    by (vm_compute; reflexivity).
  assert (help_requested (args_of server_only) = false) as Hh
    by (vm_compute; reflexivity).
  destruct (resolveConfig env_child_fails (args_of server_only))
    as [c|e] eqn:Hc; [|vm_compute in Hc; discriminate].
  assert (health c = true) as Hhealth.
  { vm_compute in Hc. injection Hc as <-. reflexivity. }
  destruct (up_to_launch env_child_fails c
              (Scenario.fresh Scenario.empty_world)) as [[pid|e] r5] eqn:Hup.
  2:{ vm_compute in Hc. injection Hc as <-. vm_compute in Hup. discriminate. }
  assert (child_failed c pid = true) as Hchild.
  { vm_compute in Hc. injection Hc as <-. vm_compute in Hup.
    injection Hup as <- _. reflexivity. }
  eexists. split.
  - exact (proj1 (child_without_pid_ends_run env_child_fails server_only
                    (args_of server_only) c
                    (Scenario.fresh Scenario.empty_world) pid r5
                    Hp Hh Hc Hup Hchild) Hhealth).
  - vm_compute in Hc. injection Hc as <-. vm_compute in Hup.
    injection Hup as _ <-. split; reflexivity.
Defined.

Lemma resolveConfig_fails_only_on_bare_app_flag_witness :
  resolveConfig Scenario.quiet_env (args_of ["--manifest"; "m.xml"; "--app"]) =
  Throw (TypeError ("(args.app || " +:+ q +:+ "word" +:+ q
                    +:+ ").toLowerCase is not a function")).
Proof.
  refine (proj1 (proj2 (resolveConfig_fails_only_on_bare_app_flag
                          Scenario.quiet_env
                          ["--manifest"; "m.xml"; "--app"]
                          (args_of ["--manifest"; "m.xml"; "--app"]) _) _) _).
  - vm_compute. reflexivity.
  - discriminate.
  - vm_compute. reflexivity.
Defined.


End OutcomeFacts.
